(** * LS-8 emulator: a shallow embedding of [opcodes.py] and [cpu.py]

    The CPU object of [cpu.py] is a record of its attributes; every method
    and opcode handler is a computation in a state-and-exception monad in
    which a raised exception keeps the mutations made before it, as a
    Python object does.  Integers are [Z]; the masking [& (MAX_MEM - 1)]
    is written out with [Z.land]. *)

From Stdlib Require Import ZArith String Ascii List Lia Bool DecimalString.
From stdpp Require Import base list.

Local Open Scope Z_scope.

(** ** Constants of [opcodes.py] and [cpu.py] *)

Definition BITS : Z := 8.
Definition REGISTERS : Z := 8.
Definition IRET_OPCODE : Z := 19.   (* 0b00010011 *)
Definition ALU_MASK : Z := 32.      (* 0b00100000 *)

Definition MAX_MEM : Z := Z.shiftl 1 BITS.

Definition IM_REG : Z := REGISTERS - 3.
Definition IS_REG : Z := REGISTERS - 2.
Definition SP_REG : Z := REGISTERS - 1.

Definition INTERRUPTS : Z := BITS.
Definition RESERVED : Z := 3.
Definition STACK_BASE : Z := MAX_MEM - INTERRUPTS - RESERVED - 1.
Definition KEY_BUFFER : Z := STACK_BASE.
Definition NULL_INTERRUPT : Z := MAX_MEM - INTERRUPTS - 1.

Definition TIMER_INTERRUPT : Z := 0.
Definition KEYBOARD_INTERRUPT : Z := 1.

(** [v & (MAX_MEM - 1)] *)
Definition mask (v : Z) : Z := Z.land v (MAX_MEM - 1).

(** ** Text produced by the program *)

(** [str(n)] of a Python int. *)
Definition str (n : Z) : string := NilZero.string_of_int (Z.to_int n).

(** [f'{v:08b}'] for a byte. *)
Definition bit_char (v : Z) (i : Z) : string :=
  if Z.testbit v i then "1"%string else "0"%string.

Definition bin8 (v : Z) : string :=
  (bit_char v 7 ++ bit_char v 6 ++ bit_char v 5 ++ bit_char v 4 ++
   bit_char v 3 ++ bit_char v 2 ++ bit_char v 1 ++ bit_char v 0)%string.

Definition newline : string := String (ascii_of_nat 10) EmptyString.

(** [chr(n)]: the code point is kept as the character of the same number. *)
Definition chr (n : Z) : string := String (ascii_of_N (Z.to_N n)) EmptyString.

(** ** Exceptions *)

Inductive exception : Type :=
| AssertionError (msg : string)
| AttributeError (msg : string)
| SystemError (msg : string)
| ZeroDivisionError
| TypeError
| ValueError
| IndexError
| KeyError
| NoneStored.
(* [NoneStored] is not a Python exception: it marks the one place where
   Python would store [None] into a register ([LDI] with [OP_B] None),
   which the integer register file of this model cannot hold.  The
   instruction-register setter always gives [LDI] an integer operand. *)

(** ** The CPU object *)

Record CPU : Type := mkCPU {
  _running : bool;
  __running__ : option bool;            (* absent until [alu] creates it *)
  _reg : list Z;
  _program_counter : Z;
  _instruction_register : Z;
  _memory_address_register : Z;
  _memory_data_register : Z;
  _flags : Z;
  _operand_a : option Z;                (* [None] is Python's None *)
  _operand_b : option Z;
  _ram : list Z;
  _old_IM : option Z;                   (* absent until the first dispatch *)
  stdout : list string                  (* one entry per [print] call *)
}.

Definition set_running (b : bool) (s : CPU) : CPU :=
  mkCPU b (__running__ s) (_reg s) (_program_counter s)
    (_instruction_register s) (_memory_address_register s)
    (_memory_data_register s) (_flags s) (_operand_a s) (_operand_b s)
    (_ram s) (_old_IM s) (stdout s).

Definition set_dunder_running (b : bool) (s : CPU) : CPU :=
  mkCPU (_running s) (Some b) (_reg s) (_program_counter s)
    (_instruction_register s) (_memory_address_register s)
    (_memory_data_register s) (_flags s) (_operand_a s) (_operand_b s)
    (_ram s) (_old_IM s) (stdout s).

Definition set_reg (r : list Z) (s : CPU) : CPU :=
  mkCPU (_running s) (__running__ s) r (_program_counter s)
    (_instruction_register s) (_memory_address_register s)
    (_memory_data_register s) (_flags s) (_operand_a s) (_operand_b s)
    (_ram s) (_old_IM s) (stdout s).

Definition set_program_counter (v : Z) (s : CPU) : CPU :=
  mkCPU (_running s) (__running__ s) (_reg s) v
    (_instruction_register s) (_memory_address_register s)
    (_memory_data_register s) (_flags s) (_operand_a s) (_operand_b s)
    (_ram s) (_old_IM s) (stdout s).

Definition set_instruction_register (v : Z) (s : CPU) : CPU :=
  mkCPU (_running s) (__running__ s) (_reg s) (_program_counter s)
    v (_memory_address_register s)
    (_memory_data_register s) (_flags s) (_operand_a s) (_operand_b s)
    (_ram s) (_old_IM s) (stdout s).

Definition set_memory_address_register (v : Z) (s : CPU) : CPU :=
  mkCPU (_running s) (__running__ s) (_reg s) (_program_counter s)
    (_instruction_register s) v
    (_memory_data_register s) (_flags s) (_operand_a s) (_operand_b s)
    (_ram s) (_old_IM s) (stdout s).

Definition set_memory_data_register (v : Z) (s : CPU) : CPU :=
  mkCPU (_running s) (__running__ s) (_reg s) (_program_counter s)
    (_instruction_register s) (_memory_address_register s)
    v (_flags s) (_operand_a s) (_operand_b s)
    (_ram s) (_old_IM s) (stdout s).

Definition set_flags (v : Z) (s : CPU) : CPU :=
  mkCPU (_running s) (__running__ s) (_reg s) (_program_counter s)
    (_instruction_register s) (_memory_address_register s)
    (_memory_data_register s) v (_operand_a s) (_operand_b s)
    (_ram s) (_old_IM s) (stdout s).

Definition set_operand_a (v : option Z) (s : CPU) : CPU :=
  mkCPU (_running s) (__running__ s) (_reg s) (_program_counter s)
    (_instruction_register s) (_memory_address_register s)
    (_memory_data_register s) (_flags s) v (_operand_b s)
    (_ram s) (_old_IM s) (stdout s).

Definition set_operand_b (v : option Z) (s : CPU) : CPU :=
  mkCPU (_running s) (__running__ s) (_reg s) (_program_counter s)
    (_instruction_register s) (_memory_address_register s)
    (_memory_data_register s) (_flags s) (_operand_a s) v
    (_ram s) (_old_IM s) (stdout s).

Definition set_ram (m : list Z) (s : CPU) : CPU :=
  mkCPU (_running s) (__running__ s) (_reg s) (_program_counter s)
    (_instruction_register s) (_memory_address_register s)
    (_memory_data_register s) (_flags s) (_operand_a s) (_operand_b s)
    m (_old_IM s) (stdout s).

Definition set_old_IM (v : Z) (s : CPU) : CPU :=
  mkCPU (_running s) (__running__ s) (_reg s) (_program_counter s)
    (_instruction_register s) (_memory_address_register s)
    (_memory_data_register s) (_flags s) (_operand_a s) (_operand_b s)
    (_ram s) (Some v) (stdout s).

Definition write_stdout (text : string) (s : CPU) : CPU :=
  mkCPU (_running s) (__running__ s) (_reg s) (_program_counter s)
    (_instruction_register s) (_memory_address_register s)
    (_memory_data_register s) (_flags s) (_operand_a s) (_operand_b s)
    (_ram s) (_old_IM s) (stdout s ++ [text]).

(** ** The monad of methods: state, and exceptions that keep the state *)

Definition M (A : Type) : Type := CPU -> CPU * (exception + A).

Definition ret {A} (a : A) : M A := fun s => (s, inr a).

Definition raise {A} (e : exception) : M A := fun s => (s, inl e).

Definition bind {A B} (m : M A) (k : A -> M B) : M B :=
  fun s => match m s with
           | (s', inr a) => k a s'
           | (s', inl e) => (s', inl e)
           end.

Declare Scope method_scope.
Delimit Scope method_scope with method.
Bind Scope method_scope with M.

Notation "x <- m ;; k" := (bind m (fun x => k))
  (at level 20, m at level 99, k at level 200) : method_scope.
Notation "m ;; k" := (bind m (fun _ => k))
  (at level 100, k at level 200, right associativity) : method_scope.

Local Open Scope method_scope.

Definition gets {A} (f : CPU -> A) : M A := fun s => (s, inr (f s)).

Definition modify (f : CPU -> CPU) : M unit := fun s => (f s, inr tt).

(** [assert cond, msg] *)
Definition assert (cond : bool) (msg : string) : M unit :=
  if cond then ret tt else raise (AssertionError msg).

(** [try: body except ...: handler] *)
Definition try_except {A} (body : M A) (handler : exception -> M A) : M A :=
  fun s => match body s with
           | (s', inl e) => handler e s'
           | r => r
           end.

(** [print(text, end=...)] *)
Definition print (text : string) : M unit := modify (write_stdout text).

(** [for i in l: body(i)] *)
Fixpoint for_each (l : list Z) (body : Z -> M unit) : M unit :=
  match l with
  | [] => ret tt
  | i :: rest => body i ;; for_each rest body
  end.

(** ** Python list indexing *)

Definition index (l : list Z) (i : Z) : option nat :=
  let n := Z.of_nat (length l) in
  let j := if i <? 0 then i + n else i in
  if (0 <=? j) && (j <? n) then Some (Z.to_nat j) else None.

(** [l[i]] *)
Definition getitem (l : list Z) (i : Z) : exception + Z :=
  match index l i with
  | Some j => match l !! j with Some v => inr v | None => inl IndexError end
  | None => inl IndexError
  end.

(** [l[i] = v] *)
Definition setitem (l : list Z) (i : Z) (v : Z) : exception + list Z :=
  match index l i with
  | Some j => inr (<[j := v]> l)
  | None => inl IndexError
  end.

Definition lift {A} (r : exception + A) : M A := fun s => (s, r).

(** ** [opcodes.py]: the ALU tables *)

(** [ALU]: opcode to command name. *)
Definition ALU (code : Z) : option string :=
  match code with
  | 160 => Some "ADD"%string   (* 0b10100000 *)
  | 168 => Some "AND"%string   (* 0b10101000 *)
  | 167 => Some "CMP"%string   (* 0b10100111 *)
  | 102 => Some "DEC"%string   (* 0b01100110 *)
  | 163 => Some "DIV"%string   (* 0b10100011 *)
  | 101 => Some "INC"%string   (* 0b01100101 *)
  | 164 => Some "MOD"%string   (* 0b10100100 *)
  | 162 => Some "MUL"%string   (* 0b10100010 *)
  | 105 => Some "NOT"%string   (* 0b01101001 *)
  | 170 => Some "OR"%string    (* 0b10101010 *)
  | 172 => Some "SHL"%string   (* 0b10101100 *)
  | 173 => Some "SHR"%string   (* 0b10101101 *)
  | 161 => Some "SUB"%string   (* 0b10100001 *)
  | 171 => Some "XOR"%string   (* 0b10101011 *)
  | _ => None
  end.

(** A lambda that uses [y] in arithmetic raises TypeError on None. *)
Definition with_y (f : Z -> exception + Z) (y : option Z) : exception + Z :=
  match y with
  | Some y => f y
  | None => inl TypeError
  end.

(** [ALU_OP]: command name to operation on Python ints. *)
Definition ALU_OP (op : string) : option (Z -> option Z -> exception + Z) :=
  if String.eqb op "ADD" then Some (fun x => with_y (fun y => inr (x + y)))
  else if String.eqb op "AND" then
    Some (fun x => with_y (fun y => inr (Z.land x y)))
  else if String.eqb op "CMP" then
    Some (fun x y =>
            if match y with Some y => x =? y | None => false end then inr 1
            else with_y (fun y => inr (if x >? y then 2 else 4)) y)
  else if String.eqb op "DEC" then Some (fun x _ => inr (x - 1))
  else if String.eqb op "DIV" then
    Some (fun x => with_y (fun y =>
            if y =? 0 then inl ZeroDivisionError else inr (x / y)))
  else if String.eqb op "INC" then Some (fun x _ => inr (x + 1))
  else if String.eqb op "MOD" then
    Some (fun x => with_y (fun y =>
            if y =? 0 then inl ZeroDivisionError else inr (x mod y)))
  else if String.eqb op "MUL" then Some (fun x => with_y (fun y => inr (x * y)))
  else if String.eqb op "NOT" then Some (fun x _ => inr (Z.lnot x))
  else if String.eqb op "OR" then
    Some (fun x => with_y (fun y => inr (Z.lor x y)))
  else if String.eqb op "SHL" then
    Some (fun x => with_y (fun y =>
            if y <? 0 then inl ValueError else inr (Z.shiftl x y)))
  else if String.eqb op "SHR" then
    Some (fun x => with_y (fun y =>
            if y <? 0 then inl ValueError else inr (Z.shiftr x y)))
  else if String.eqb op "SUB" then Some (fun x => with_y (fun y => inr (x - y)))
  else if String.eqb op "XOR" then
    Some (fun x => with_y (fun y => inr (Z.lxor x y)))
  else None.

(** ** [cpu.py]: the properties of the CPU object *)

(** [self.reg[i]] and [self.reg[i] = v]; indexing with None is a TypeError. *)
Definition reg_getitem (i : option Z) : M Z :=
  fun s => match i with
           | Some i => (s, getitem (_reg s) i)
           | None => (s, inl TypeError)
           end.

Definition reg_setitem (i : option Z) (v : Z) : M unit :=
  fun s => match i with
           | Some i => match setitem (_reg s) i v with
                       | inr r => (set_reg r s, inr tt)
                       | inl e => (s, inl e)
                       end
           | None => (s, inl TypeError)
           end.

(** [del self.reg] *)
Definition reg_fdel : M unit :=
  modify (set_reg (replicate (Z.to_nat REGISTERS) 0)).

(** Interrupt Mask *)
Definition IM_fget : M Z := reg_getitem (Some IM_REG).
Definition IM_fset (value : Z) : M unit :=
  reg_setitem (Some IM_REG) (mask value).
Definition IM_fdel : M unit := reg_setitem (Some IM_REG) 0.

(** Interrupt State *)
Definition IS_fget : M Z := reg_getitem (Some IS_REG).
Definition IS_fset (value : Z) : M unit :=
  reg_setitem (Some IS_REG) (mask value).
Definition IS_fdel : M unit := reg_setitem (Some IS_REG) 0.

(** The getters of the internal registers; an attribute not yet created
    reads as its default. *)
Definition PC_fget : M Z := gets _program_counter.
Definition IR_fget : M Z := gets _instruction_register.
Definition FL_fget : M Z := gets _flags.
Definition OP_A_fget : M (option Z) := gets _operand_a.
Definition OP_B_fget : M (option Z) := gets _operand_b.

(** Stack Pointer *)
Definition SP_fget : M Z := reg_getitem (Some SP_REG).

Definition SP_fset (value : Z) : M unit :=
  let value := mask value in
  assert ((0 <=? value) && (value <=? STACK_BASE))
         "stack pointer out of range" ;;
  PC <- PC_fget ;;
  IR <- IR_fget ;;
  let pc := PC + Z.shiftr IR 6 in
  assert ((pc <? value) || (pc =? NULL_INTERRUPT))
         "stack cannot overlap executing code" ;;
  reg_setitem (Some SP_REG) value.

Definition SP_fdel : M unit := reg_setitem (Some SP_REG) STACK_BASE.

(** Program Counter: [0 <= value < self.SP] reads SP only when
    [0 <= value] holds, and the message of the assertion reads it again. *)
Definition PC_fset (value : Z) : M unit :=
  let value := mask value in
  in_code <- (if 0 <=? value
              then (SP <- SP_fget ;; ret (value <? SP))
              else ret false) ;;
  if in_code || (value =? NULL_INTERRUPT)
  then modify (set_program_counter value)
  else (SP <- SP_fget ;;
        raise (AssertionError ("invalid program counter: " ++ str value
                               ++ ", stack: " ++ str SP))).

Definition PC_fdel : M unit := modify (set_program_counter 0).

(** Memory Address Register and Memory Data Register *)
Definition MAR_fget : M Z := gets _memory_address_register.
Definition MAR_fset (value : Z) : M unit :=
  modify (set_memory_address_register (mask value)).

Definition MDR_fget : M Z := gets _memory_data_register.
Definition MDR_fset (value : Z) : M unit :=
  modify (set_memory_data_register (mask value)).

(** Flags: [00000LGE] *)
Definition FL_fset (value : Z) : M unit := modify (set_flags (mask value)).
Definition FL_fdel : M unit := modify (set_flags 0).

(** Operand A, can only be a register number *)
Definition OP_A_fset (value : option Z) : M unit :=
  match value with
  | None => modify (set_operand_a None)
  | Some value =>
      let value := mask value in
      if (0 <=? value) && (value <? REGISTERS)
      then modify (set_operand_a (Some value))
      else raise (AssertionError ("operand_a out of range: " ++ str value))
  end.

(** Operand B, can be a register number or immediate value *)
Definition OP_B_fset (value : option Z) : M unit :=
  match value with
  | None => modify (set_operand_b None)
  | Some value =>
      let value := mask value in
      IR <- IR_fget ;;
      if value <? (if Z.land IR ALU_MASK =? 0 then MAX_MEM else REGISTERS)
      then modify (set_operand_b (Some value))
      else raise (AssertionError
                    ("operand_b out of range for ALU operation: "
                     ++ str value))
  end.

(** [del self.ram] *)
Definition ram_fdel : M unit :=
  modify (set_ram (replicate (Z.to_nat MAX_MEM) 0)).

(** ** Memory *)

(** [ram_read] and [ram_write] go through MAR and MDR, whose setters
    mask. *)
Definition ram_read (address : Z) : M Z :=
  MAR_fset address ;;
  MAR <- MAR_fget ;;
  v <- (fun s => (s, getitem (_ram s) MAR)) ;;
  MDR_fset v ;;
  MDR_fget.

Definition ram_write (address value : Z) : M unit :=
  MAR_fset address ;;
  MDR_fset value ;;
  MDR <- MDR_fget ;;
  MAR <- MAR_fget ;;
  fun s => match setitem (_ram s) MAR MDR with
           | inr m => (set_ram m s, inr tt)
           | inl e => (s, inl e)
           end.

(** ** [opcodes.py]: the opcode handlers *)

(** [cpu.SP -= n], [cpu.SP += n], [cpu.PC += n], [cpu.IS |= v] *)
Definition SP_isub (n : Z) : M unit := SP <- SP_fget ;; SP_fset (SP - n).
Definition SP_iadd (n : Z) : M unit := SP <- SP_fget ;; SP_fset (SP + n).
Definition PC_iadd (n : Z) : M unit := PC <- PC_fget ;; PC_fset (PC + n).
Definition IS_ior (v : Z) : M unit := IS <- IS_fget ;; IS_fset (Z.lor IS v).

(** [cpu.IS |= (1 << n)]; a negative shift count is a ValueError. *)
Definition IS_set_bit (n : Z) : M unit :=
  if n <? 0 then raise ValueError else IS_ior (Z.shiftl 1 n).

(** Calls a subroutine at the address stored in the register. *)
Definition CALL : M unit :=
  SP_isub 1 ;;
  SP <- SP_fget ;;
  PC <- PC_fget ;;
  ram_write SP (PC + 2) ;;
  OP_A <- OP_A_fget ;;
  target <- reg_getitem OP_A ;;
  PC_fset target.

(** Halt the CPU. *)
Definition HLT : M unit := modify (set_running false).

(** Issue the interrupt number stored in the given register. *)
Definition INT : M unit :=
  OP_A <- OP_A_fget ;;
  n <- reg_getitem OP_A ;;
  assert (n <? BITS) ("invalid interrupt: " ++ str n) ;;
  IS_set_bit n ;;
  PC_iadd 2.

(** [cpu.IM = cpu._old_IM]: the attribute exists only after a dispatch. *)
Definition IM_restore : M unit :=
  fun s => match _old_IM s with
           | Some im => IM_fset im s
           | None =>
               (s, inl (AttributeError
                          "'CPU' object has no attribute '_old_IM'"))
           end.

(** Return from an interrupt handler. *)
Definition IRET : M unit :=
  for_each [6; 5; 4; 3; 2; 1; 0] (fun i =>
    SP <- SP_fget ;;
    v <- ram_read SP ;;
    reg_setitem (Some i) v ;;
    SP_iadd 1) ;;
  SP <- SP_fget ;;
  v <- ram_read SP ;;
  FL_fset v ;;
  SP_iadd 1 ;;
  SP <- SP_fget ;;
  v <- ram_read SP ;;
  PC_fset v ;;
  SP_iadd 1 ;;
  IM_restore.

(** [cpu.PC = cpu.reg[cpu.OP_A]], the taken branch of every jump; a
    jump not taken does [cpu.PC += 2]. *)
Definition jump_to_reg : M unit :=
  OP_A <- OP_A_fget ;;
  target <- reg_getitem OP_A ;;
  PC_fset target.

(** Jump if the E flag is set. *)
Definition JEQ : M unit :=
  FL <- FL_fget ;;
  if negb (Z.land FL 1 =? 0) then jump_to_reg else PC_iadd 2.

(** Jump if the G or the E flag is set. *)
Definition JGE : M unit :=
  FL <- FL_fget ;;
  if negb (Z.land FL 3 =? 0) then jump_to_reg else PC_iadd 2.

(** Jump if the G flag is set. *)
Definition JGT : M unit :=
  FL <- FL_fget ;;
  if negb (Z.land FL 2 =? 0) then jump_to_reg else PC_iadd 2.

(** Jump if the L or the E flag is set. *)
Definition JLE : M unit :=
  FL <- FL_fget ;;
  if negb (Z.land FL 5 =? 0) then jump_to_reg else PC_iadd 2.

(** Jump if the L flag is set. *)
Definition JLT : M unit :=
  FL <- FL_fget ;;
  if negb (Z.land FL 4 =? 0) then jump_to_reg else PC_iadd 2.

(** Jump to the address stored in the given register. *)
Definition JMP : M unit := jump_to_reg.

(** Jump if the E flag is clear. *)
Definition JNE : M unit :=
  FL <- FL_fget ;;
  if Z.land FL 1 =? 0 then jump_to_reg else PC_iadd 2.

(** [assert cpu.OP_B >= 0 and cpu.OP_B < len(cpu.reg)] *)
Definition assert_register_b : M Z :=
  OP_B <- OP_B_fget ;;
  match OP_B with
  | None => raise TypeError
  | Some b =>
      n <- gets (fun s => Z.of_nat (length (_reg s))) ;;
      assert ((b >=? 0) && (b <? n)) ("invalid register: " ++ str b) ;;
      ret b
  end.

(** Load register A with the value at the address stored in register B. *)
Definition LD : M unit :=
  b <- assert_register_b ;;
  address <- reg_getitem (Some b) ;;
  v <- ram_read address ;;
  OP_A <- OP_A_fget ;;
  reg_setitem OP_A v.

(** Set the value of a register to an integer. *)
Definition LDI : M unit :=
  OP_B <- OP_B_fget ;;
  OP_A <- OP_A_fget ;;
  match OP_B with
  | Some v => reg_setitem OP_A v
  | None => reg_getitem OP_A ;; raise NoneStored
  end.

(** No operation. *)
Definition NOP : M unit := ret tt.

(** Pop the value at the top of the stack into the given register. *)
Definition POP : M unit :=
  SP <- SP_fget ;;
  v <- ram_read SP ;;
  OP_A <- OP_A_fget ;;
  reg_setitem OP_A v ;;
  SP_iadd 1.

(** Print the character whose code is stored in the given register. *)
Definition PRA : M unit :=
  OP_A <- OP_A_fget ;;
  v <- reg_getitem OP_A ;;
  (if (v <? 0) || (1114111 <? v) then raise ValueError else ret tt) ;;
  print (chr v).

(** Print the numeric value stored in the given register. *)
Definition PRN : M unit :=
  OP_A <- OP_A_fget ;;
  v <- reg_getitem OP_A ;;
  print (str v ++ newline).

(** Push the value in the given register on the stack. *)
Definition PUSH : M unit :=
  SP_isub 1 ;;
  SP <- SP_fget ;;
  OP_A <- OP_A_fget ;;
  v <- reg_getitem OP_A ;;
  ram_write SP v.

(** Return from subroutine. *)
Definition RET : M unit :=
  SP <- SP_fget ;;
  v <- ram_read SP ;;
  PC_fset v ;;
  SP_iadd 1.

(** Store the value in register B at the address stored in register A. *)
Definition ST : M unit :=
  b <- assert_register_b ;;
  OP_A <- OP_A_fget ;;
  address <- reg_getitem OP_A ;;
  v <- reg_getitem (Some b) ;;
  ram_write address v.

(** Add an immediate value to a register. *)
Definition ADDI : M unit :=
  OP_A <- OP_A_fget ;;
  x <- reg_getitem OP_A ;;
  OP_B <- OP_B_fget ;;
  match OP_B with
  | None => raise TypeError
  | Some imm =>
      reg_setitem OP_A (x + imm) ;;
      x' <- reg_getitem OP_A ;;
      reg_setitem OP_A (Z.land x' (Z.shiftl 1 BITS - 1))
  end.

(** [OPCODES]: opcode to handler, as filled by the [@opcode] decorator. *)
Definition OPCODES (code : Z) : option (M unit) :=
  match code with
  | 80 => Some CALL    (* 0b01010000 *)
  | 1 => Some HLT      (* 0b00000001 *)
  | 82 => Some INT     (* 0b01010010 *)
  | 19 => Some IRET    (* 0b00010011 *)
  | 85 => Some JEQ     (* 0b01010101 *)
  | 90 => Some JGE     (* 0b01011010 *)
  | 87 => Some JGT     (* 0b01010111 *)
  | 89 => Some JLE     (* 0b01011001 *)
  | 88 => Some JLT     (* 0b01011000 *)
  | 84 => Some JMP     (* 0b01010100 *)
  | 86 => Some JNE     (* 0b01010110 *)
  | 131 => Some LD     (* 0b10000011 *)
  | 130 => Some LDI    (* 0b10000010 *)
  | 0 => Some NOP      (* 0b00000000 *)
  | 70 => Some POP     (* 0b01000110 *)
  | 72 => Some PRA     (* 0b01001000 *)
  | 71 => Some PRN     (* 0b01000111 *)
  | 69 => Some PUSH    (* 0b01000101 *)
  | 17 => Some RET     (* 0b00010001 *)
  | 132 => Some ST     (* 0b10000100 *)
  | 128 => Some ADDI   (* 0b10000000 *)
  | _ => None
  end.

(** ** [cpu.py]: decoding, the ALU, interrupts and the run loop *)

(** [value in OPCODES or value in ALU] *)
Definition is_opcode (value : Z) : bool :=
  match OPCODES value, ALU value with
  | None, None => false
  | _, _ => true
  end.

(** The setter of the instruction register decodes the operands. *)
Definition IR_fset (value : Z) : M unit :=
  let value := mask value in
  (if is_opcode value then ret tt
   else (PC <- PC_fget ;;
         raise (AssertionError ("CPU.IR: invalid opcode: " ++ bin8 value
                                ++ " at: " ++ str PC)))) ;;
  modify (set_instruction_register value) ;;
  if negb (Z.land value (Z.shiftl 1 (BITS - 2)) =? 0) then   (* one operand *)
    PC <- PC_fget ;;
    SP <- SP_fget ;;
    assert (PC + 1 <? SP)
           ("CPU.IR: instruction operands in stack at: " ++ str PC) ;;
    a <- ram_read (PC + 1) ;;
    OP_A_fset (Some a) ;;
    OP_B_fset None
  else if negb (Z.land value (Z.shiftl 1 (BITS - 1)) =? 0) then (* two *)
    PC <- PC_fget ;;
    SP <- SP_fget ;;
    assert (PC + 2 <? SP)
           ("CPU.IR: instruction operands in stack at: " ++ str PC) ;;
    a <- ram_read (PC + 1) ;;
    OP_A_fset (Some a) ;;
    b <- ram_read (PC + 2) ;;
    OP_B_fset (Some b)
  else
    OP_A_fset None ;;
    OP_B_fset None.

(** [alu(op, reg_a, reg_b)]: the body of the [try], then the handlers. *)
Definition alu_try (op : string) (reg_a reg_b : option Z) : M unit :=
  x <- reg_getitem reg_a ;;
  y <- match reg_b with
       | Some b => (v <- reg_getitem (Some b) ;; ret (Some v))
       | None => ret None
       end ;;
  match ALU_OP op with
  | None => raise KeyError
  | Some f =>
      result <- lift (f x y) ;;
      if String.eqb op "CMP" then FL_fset result
      else
        reg_setitem reg_a result ;;
        r <- reg_getitem reg_a ;;
        reg_setitem reg_a (Z.land r (MAX_MEM - 1))
  end.

Definition alu (op : string) (reg_a reg_b : option Z) : M unit :=
  try_except (alu_try op reg_a reg_b) (fun e =>
    match e with
    | ZeroDivisionError =>
        PC <- PC_fget ;;
        print ("ALU ERROR: " ++ op ++ " by 0 at " ++ str PC ++ newline) ;;
        modify (set_dunder_running false)     (* [self.__running__ = False] *)
    | _ =>
        PC <- PC_fget ;;
        raise (SystemError ("Unsupported ALU operation: " ++ op
                            ++ " at " ++ str PC))
    end).

(** [interrupt(n)]: set bit [n] of IS. *)
Definition interrupt (n : Z) : M unit :=
  assert (n <? INTERRUPTS) ("invalid interrupt: " ++ str n) ;;
  IS_set_bit n.

(** The body run for the first interrupt whose bit is set. *)
Definition dispatch (n : Z) : M unit :=
  let bit := Z.shiftl 1 n in
  IM <- IM_fget ;;
  modify (set_old_IM IM) ;;
  IM_fset 0 ;;
  IS <- IS_fget ;;
  IS_fset (Z.land IS (Z.lxor 255 bit)) ;;
  SP_isub 1 ;;
  SP <- SP_fget ;;
  PC <- PC_fget ;;
  ram_write SP PC ;;
  SP_isub 1 ;;
  SP <- SP_fget ;;
  FL <- FL_fget ;;
  ram_write SP FL ;;
  for_each (map Z.of_nat (seq 0 (Z.to_nat (REGISTERS - 1)))) (fun i =>
    SP_isub 1 ;;
    SP <- SP_fget ;;
    v <- reg_getitem (Some i) ;;
    ram_write SP v) ;;
  handler <- (fun s => (s, getitem (_ram s) (MAX_MEM - INTERRUPTS + n))) ;;
  PC_fset handler.

(** [for interrupt in range(8): if masked & bit: ...; break] *)
Fixpoint first_interrupt (maskedInterrupts : Z) (l : list Z) : M unit :=
  match l with
  | [] => ret tt
  | n :: rest =>
      if negb (Z.land maskedInterrupts (Z.shiftl 1 n) =? 0)
      then dispatch n
      else first_interrupt maskedInterrupts rest
  end.

Definition check_interrupts : M unit :=
  IM <- IM_fget ;;
  IS <- IS_fget ;;
  first_interrupt (Z.land IM IS) (map Z.of_nat (seq 0 8)).

(** What the two polled devices report at the top of one cycle:
    whether more than a second passed since the last timer interrupt, and
    [ord(c[0])] of the pending key, if [kbhit()]. *)
Record device : Type := mkDevice {
  timer_elapsed : bool;
  keypress : option Z
}.

Definition quiet : device := mkDevice false None.

(** The part of the loop body after the devices were polled. *)
Definition execute : M unit :=
  IR <- IR_fget ;;
  if negb (Z.land IR ALU_MASK =? 0) then
    match ALU IR with
    | None => raise KeyError
    | Some op =>
        OP_A <- OP_A_fget ;;
        OP_B <- OP_B_fget ;;
        alu op OP_A OP_B
    end
  else
    match OPCODES IR with
    | None => raise KeyError
    | Some handler => handler
    end.

Definition advance : M unit :=
  IR <- IR_fget ;;
  if Z.land IR 16 =? 0 then PC_iadd (1 + Z.shiftr IR 6) else ret tt.

Definition fetch_execute : M unit :=
  check_interrupts ;;
  PC <- PC_fget ;;
  opcode <- ram_read PC ;;
  IR_fset opcode ;;
  execute ;;
  advance.

(** One pass through the body of [while self._running].  The ESC key
    clears [_running] and leaves the body ([break]). *)
Definition cycle (d : device) : M unit :=
  (if timer_elapsed d then interrupt TIMER_INTERRUPT else ret tt) ;;
  match keypress d with
  | Some c =>
      if c =? 27 then modify (set_running false)
      else
        ram_write KEY_BUFFER c ;;
        interrupt KEYBOARD_INTERRUPT ;;
        fetch_execute
  | None => fetch_execute
  end.

(** How [run] ends: the loop condition became false, an exception left
    the method, or the given number of cycles was used up. *)
Inductive outcome : Type :=
| Exited (s : CPU)
| Raised (e : exception) (s : CPU)
| OutOfFuel (s : CPU).

Fixpoint while_running (fuel : nat) (devices : list device) (s : CPU)
  : outcome :=
  if _running s then
    match fuel with
    | O => OutOfFuel s
    | S fuel' =>
        match cycle (hd quiet devices) s with
        | (s', inr _) => while_running fuel' (tl devices) s'
        | (s', inl e) => Raised e s'
        end
    end
  else Exited s.

Definition run (fuel : nat) (devices : list device) (s : CPU) : outcome :=
  while_running fuel devices (set_running true s).

(** ** Construction and program loading *)

(** [CPU.__init__] *)
Definition __init__ : M unit :=
  modify (set_running false) ;;
  reg_fdel ;;
  SP_fdel ;;
  PC_fdel ;;
  FL_fdel ;;
  ram_fdel ;;
  IM_fdel ;;
  IS_fdel ;;
  ram_write NULL_INTERRUPT IRET_OPCODE ;;
  for_each (map Z.of_nat (seq 0 (Z.to_nat INTERRUPTS))) (fun i =>
    ram_write (MAX_MEM - INTERRUPTS + i) NULL_INTERRUPT).

(** An object with no attribute yet.  The attributes read through a
    guarded getter ([IR], [MAR], [MDR], [OP_A], [OP_B]) start at the
    getter's default 0. *)
Definition blank : CPU :=
  mkCPU false None [] 0 0 0 0 0 (Some 0) (Some 0) [] None [].

(** [CPU()] *)
Definition new_CPU : CPU := fst (__init__ blank).

(** The matches of [finditer(r'^[01]{8}', program, MULTILINE)]: for each
    line, its first eight characters when all are 0 or 1. *)
Fixpoint lines_of (text : string) (current : string) : list string :=
  match text with
  | EmptyString => [current]
  | String c rest =>
      if Ascii.eqb c (ascii_of_nat 10)
      then current :: lines_of rest EmptyString
      else lines_of rest (current ++ String c EmptyString)%string
  end.

(** [int(instruction, 2)] of the first [n] characters, if all are bits. *)
Fixpoint leading_bits (n : nat) (line : string) (acc : Z) : option Z :=
  match n with
  | O => Some acc
  | S n' =>
      match line with
      | String c rest =>
          if Ascii.eqb c "0" then leading_bits n' rest (2 * acc)
          else if Ascii.eqb c "1" then leading_bits n' rest (2 * acc + 1)
          else None
      | EmptyString => None
      end
  end.

Definition finditer (program : string) : list Z :=
  omap (fun line => leading_bits 8 line 0) (lines_of program EmptyString).

(** [for address, match in enumerate(...)] *)
Fixpoint load_words (address : Z) (words : list Z) : M unit :=
  match words with
  | [] => ret tt
  | w :: rest =>
      assert (address <? STACK_BASE) "program too large to fit in memory" ;;
      ram_write address w ;;
      load_words (address + 1) rest
  end.

(** [load(filename)], given the text of the file. *)
Definition load (program : string) : M unit :=
  __init__ ;;
  load_words 0 (finditer program).

(** ** Predicates and sample programs used in the statements *)

(** A value of the machine word: [0 <= v < 2^BITS]. *)
Definition byte (v : Z) : Prop := 0 <= v < MAX_MEM.

(** The shape the object has after [__init__] and keeps in every run:
    eight registers and [MAX_MEM] memory cells, all of them words, and
    word-sized internal registers. *)
Record well_formed (s : CPU) : Prop := mk_well_formed {
  wf_reg_length : length (_reg s) = Z.to_nat REGISTERS;
  wf_reg_bytes : Forall byte (_reg s);
  wf_ram_length : length (_ram s) = Z.to_nat MAX_MEM;
  wf_ram_bytes : Forall byte (_ram s);
  wf_PC : byte (_program_counter s);
  wf_IR : byte (_instruction_register s);
  wf_FL : byte (_flags s);
  wf_OP_B : forall v, _operand_b s = Some v -> byte v
}.

(** A setter refused the write: an AssertionError left the method and the
    object is as it was. *)
Definition rejected (r : CPU * (exception + unit)) (s : CPU) : Prop :=
  exists msg, r = (s, inl (AssertionError msg)).

(** The stack-pointer setter stored the masked value. *)
Definition SP_accepted (v : Z) (s : CPU) : Prop :=
  SP_fset v s = (set_reg (<[Z.to_nat SP_REG := mask v]> (_reg s)) s, inr tt).

(** The check of the stack-pointer setter, as [SP.fset] computes it. *)
Definition SP_condition (v : Z) (s : CPU) : Prop :=
  0 <= mask v <= STACK_BASE /\
  (_program_counter s + Z.shiftr (_instruction_register s) 6 < mask v \/
   _program_counter s + Z.shiftr (_instruction_register s) 6
     = NULL_INTERRUPT).

(** The check of the stack-pointer setter, as the specification words it:
    the overlap test is waived when PC itself is the sentinel. *)
Definition SP_condition_as_specified (v : Z) (s : CPU) : Prop :=
  0 <= mask v <= STACK_BASE /\
  (_program_counter s + Z.shiftr (_instruction_register s) 6 < mask v \/
   _program_counter s = NULL_INTERRUPT).

(** The text of a program file: one line per byte. *)
Fixpoint ls8 (lines : list string) : string :=
  match lines with
  | [] => EmptyString
  | l :: rest => (l ++ newline ++ ls8 rest)%string
  end.

(** [LDI R0,8; LDI R1,9; ADD R0,R1; PRN R0; HLT] *)
Definition add_program : string :=
  ls8 ["# print 8 + 9";
       "10000010 # LDI R0,8"; "00000000"; "00001000";
       "10000010 # LDI R1,9"; "00000001"; "00001001";
       "10100000 # ADD R0,R1"; "00000000"; "00000001";
       "01000111 # PRN R0"; "00000000";
       "00000001 # HLT"]%string.

(** [DIV R0,R1; LDI R0,42; PRN R0; HLT], with R1 = 0 after the reset. *)
Definition div_program : string :=
  ls8 ["10100011 # DIV R0,R1"; "00000000"; "00000001";
       "10000010 # LDI R0,42"; "00000000"; "00101010";
       "01000111 # PRN R0"; "00000000";
       "00000001 # HLT"]%string.

(** [LDI R0,247; JMP R0]: a jump to the null-interrupt handler. *)
Definition jump_program : string :=
  ls8 ["10000010 # LDI R0,247"; "00000000"; "11110111";
       "01010100 # JMP R0"; "00000000"]%string.

(** The object after the two instructions of [jump_program] have run. *)
Definition jumped_to_null : CPU :=
  match run 2 [] (fst (load jump_program blank)) with
  | Exited s | Raised _ s | OutOfFuel s => s
  end.

(** A program that is the single instruction [IRET]. *)
Definition iret_program : string := ls8 ["00010011 # IRET"]%string.

(** The object after [SP -= 1; ram_write(SP, v)] from stack pointer [sp],
    and after [reg[i] = ram_read(SP); SP += 1] reading [m]. *)
Definition pushed (sp v : Z) (s : CPU) : CPU :=
  set_ram (<[Z.to_nat (sp - 1) := mask v]> (_ram s))
    (set_memory_data_register (mask v)
       (set_memory_address_register (sp - 1)
          (set_reg (<[7%nat := sp - 1]> (_reg s)) s))).

Definition popped (i sp m : Z) (s : CPU) : CPU :=
  set_reg (<[7%nat := sp + 1]> (<[Z.to_nat i := mask m]> (_reg s)))
    (set_memory_data_register (mask m)
       (set_memory_address_register sp s)).

(** The decidable form of [well_formed]. *)
Definition is_byte (v : Z) : bool := (0 <=? v) && (v <? MAX_MEM).

Definition well_formedb (s : CPU) : bool :=
  Nat.eqb (length (_reg s)) (Z.to_nat REGISTERS)
  && forallb is_byte (_reg s)
  && Nat.eqb (length (_ram s)) (Z.to_nat MAX_MEM)
  && forallb is_byte (_ram s)
  && is_byte (_program_counter s)
  && is_byte (_instruction_register s)
  && is_byte (_flags s)
  && match _operand_b s with Some v => is_byte v | None => true end.

(** [LDI R5,1; HLT]: enable the timer interrupt. *)
Definition timer_program : string :=
  ls8 ["10000010 # LDI R5,1"; "00000101"; "00000001";
       "00000001 # HLT"]%string.

(** The object at the top of the second cycle of [timer_program], after
    the loop has raised the timer interrupt: line 0 is enabled and
    pending, and its vector still points at the null handler. *)
Definition pending_timer : CPU :=
  match run 1 [] (fst (load timer_program blank)) with
  | Exited s | Raised _ s | OutOfFuel s => fst (interrupt TIMER_INTERRUPT s)
  end.

(** An object about to execute [PUSH R0] or [POP R0] with one entry on
    the stack: R0 = 8, SP = 243 and the byte 8 at address 243. *)
Definition stacked : CPU :=
  fst (PUSH (set_operand_a (Some 0)
               (set_reg [8; 9; 0; 0; 0; 0; 0; 244] new_CPU))).

(** A method keeps [I]: run from an object satisfying [I], it ends in an
    object satisfying [I], with a result satisfying [Q] or an exception
    satisfying [Ex]. *)
Definition triple (I : CPU -> Prop) (Ex : exception -> Prop) {A}
    (m : M A) (Q : A -> Prop) : Prop :=
  forall s, I s ->
    match m s with
    | (s', inr a) => I s' /\ Q a
    | (s', inl e) => I s' /\ Ex e
    end.

(** What [I] and [Ex] must allow for the methods below to keep them: [I]
    fixes the sizes of the register file and of memory, survives every
    write of a word, and [Ex] admits the assertion failures. *)
Record closed (I : CPU -> Prop) (Ex : exception -> Prop) : Prop := mk_closed {
  closed_shape : forall s, I s ->
    length (_reg s) = Z.to_nat REGISTERS /\
    length (_ram s) = Z.to_nat MAX_MEM;
  closed_MAR : forall v s, I s -> I (set_memory_address_register v s);
  closed_MDR : forall v s, I s -> I (set_memory_data_register v s);
  closed_FL : forall v s, byte v -> I s -> I (set_flags v s);
  closed_PC : forall v s, byte v -> I s -> I (set_program_counter v s);
  closed_reg : forall i v s, byte v -> I s ->
    I (set_reg (<[i := v]> (_reg s)) s);
  closed_ram : forall i v s, byte v -> I s ->
    I (set_ram (<[i := v]> (_ram s)) s);
  closed_assert : forall msg, Ex (AssertionError msg)
}.

(** [LDI R7,200; IRET]: an IRET whose pops all pass the setters. *)
Definition iret_deep_program : string :=
  ls8 ["10000010 # LDI R7,200"; "00000111"; "11001000";
       "00010011 # IRET"]%string.

(** A method that keeps the object well formed however it ends. *)
Definition keeps_wf {A} (m : M A) : Prop :=
  triple well_formed (fun _ => True) m (fun _ => True).

(** The object [run] ends with, however it ends. *)
Definition final_state (o : outcome) : CPU :=
  match o with
  | Exited s | Raised _ s | OutOfFuel s => s
  end.

(** The result each ALU operation is specified to have on unbounded
    integers, before the reduction to the word: the binary operations on
    [x] and [y], the unary ones ([y] absent) on [x] alone.  CMP writes no
    register and a zero divisor has no result. *)
Definition alu_specified (op : string) (x : Z) (y : option Z) : option Z :=
  match y with
  | Some y =>
      if String.eqb op "ADD" then Some (x + y)
      else if String.eqb op "SUB" then Some (x - y)
      else if String.eqb op "MUL" then Some (x * y)
      else if String.eqb op "DIV" then
        (if y =? 0 then None else Some (x / y))
      else if String.eqb op "MOD" then
        (if y =? 0 then None else Some (x mod y))
      else if String.eqb op "AND" then Some (Z.land x y)
      else if String.eqb op "OR" then Some (Z.lor x y)
      else if String.eqb op "XOR" then Some (Z.lxor x y)
      else if String.eqb op "SHL" then Some (x * 2 ^ y)
      else if String.eqb op "SHR" then Some (x / 2 ^ y)
      else None
  | None =>
      if String.eqb op "INC" then Some (x + 1)
      else if String.eqb op "DEC" then Some (x - 1)
      else if String.eqb op "NOT" then Some (2 ^ BITS - 1 - x)
      else None
  end.

(** The value [alu] reads for its second operand: the register [reg_b]
    names, or None when the instruction has one operand. *)
Definition operand_b_value (s : CPU) (reg_b : option Z) (y : option Z)
  : Prop :=
  match reg_b with
  | Some b => exists v, getitem (_reg s) b = inr v /\ y = Some v
  | None => y = None
  end.

(** Memory as a function of the address. *)
Definition memory (s : CPU) (address : Z) : Z :=
  default 0 (_ram s !! Z.to_nat address).

(** An object about to execute [ADDI R0,250] with R0 = 8, and one about
    to execute IRET at the null handler on the frame the dispatch of
    [pending_timer] pushed. *)
Definition adding : CPU :=
  set_operand_b (Some 250)
    (set_operand_a (Some 0) (set_reg [8; 9; 0; 0; 0; 0; 0; 244] new_CPU)).

Definition returning : CPU :=
  set_instruction_register IRET_OPCODE (fst (check_interrupts pending_timer)).

(** ** The checks [IRET] meets before it reads [_old_IM] *)

(** The stack pointer after [k] executions of [SP += 1]: the setter
    stores each sum masked to the word. *)
Fixpoint SP_after (k : nat) (sp : Z) : Z :=
  match k with
  | O => sp
  | S k' => mask (SP_after k' sp + 1)
  end.

(** The two assertions of [SP.fset] on the value [v], where [pc] is
    [PC + (IR >> 6)], and the assertion of [PC.fset] on the value [v]
    when the stack pointer reads [sp]. *)
Definition SP_check (pc v : Z) : bool :=
  (0 <=? mask v) && (mask v <=? STACK_BASE)
  && ((pc <? mask v) || (pc =? NULL_INTERRUPT)).

Definition PC_check (v sp : Z) : bool :=
  ((0 <=? mask v) && (mask v <? sp)) || (mask v =? NULL_INTERRUPT).

(** Every check on the way of [IRET] passes, from an object whose stack
    pointer reads [sp]: the eight [SP += 1] after the pops of R6..R0 and
    of FL, made with PC as it is; the write to PC of the byte then at
    the top of the stack; and the ninth [SP += 1], made with the new
    PC. *)
Definition IRET_pops_pass (s : CPU) (sp : Z) : bool :=
  let n := Z.shiftr (_instruction_register s) 6 in
  let ret := mask (memory s (mask (SP_after 8 sp))) in
  forallb (fun k => SP_check (_program_counter s + n) (SP_after k sp + 1))
          (seq 0 8)
  && PC_check ret (SP_after 8 sp)
  && SP_check (ret + n) (SP_after 8 sp + 1).

(** The assertion failures of the two setters: of [SP.fset], which
    has two assertions, and of [PC.fset] on the value [v] when the stack
    pointer reads [sp]. *)
Definition SP_refusal (e : exception) : Prop :=
  e = AssertionError "stack pointer out of range" \/
  e = AssertionError "stack cannot overlap executing code".

Definition PC_refusal (v sp : Z) (e : exception) : Prop :=
  e = AssertionError ("invalid program counter: " ++ str v
                      ++ ", stack: " ++ str sp).

(** An object in the middle of the pops of [IRET] started on [s]: the
    stack pointer reads [c], and memory, PC and IR are those of [s]. *)
Definition popping (s : CPU) (c : Z) (t : CPU) : Prop :=
  length (_reg t) = Z.to_nat REGISTERS /\
  length (_ram t) = Z.to_nat MAX_MEM /\
  _old_IM t = None /\
  _ram t = _ram s /\
  _program_counter t = _program_counter s /\
  _instruction_register t = _instruction_register s /\
  _reg t !! 7%nat = Some c.

(** ** Decoding and the failures of a run *)

(** The keys of [ALU] and of [OPCODES]. *)
Definition ALU_codes : list Z :=
  [160; 168; 167; 102; 163; 101; 164; 162; 105; 170; 172; 173; 161; 171].

Definition OPCODES_codes : list Z :=
  [80; 1; 82; 19; 85; 90; 87; 89; 88; 84; 86; 131; 130; 0; 70; 72; 71; 69;
   17; 132; 128].

(** The number of operand bytes the setter of IR fetches for an opcode. *)
Definition operands_fetched (code : Z) : Z :=
  if negb (Z.land code (Z.shiftl 1 (BITS - 2)) =? 0) then 1
  else if negb (Z.land code (Z.shiftl 1 (BITS - 1)) =? 0) then 2
  else 0.

(** What a failed decode leaves behind. *)
Definition decode_failed (s s' : CPU) (value : Z) : Prop :=
  _reg s' = _reg s /\ _ram s' = _ram s /\
  _program_counter s' = _program_counter s /\ _flags s' = _flags s /\
  _running s' = _running s /\ _old_IM s' = _old_IM s /\
  _operand_b s' = _operand_b s /\
  _instruction_register s' = value.

(** What a decode that returns has done: the opcode is in IR and the
    operands are the bytes that follow it in memory. *)
Definition decode_done (s s' : CPU) (value : Z) : Prop :=
  _reg s' = _reg s /\ _ram s' = _ram s /\
  _program_counter s' = _program_counter s /\ _flags s' = _flags s /\
  _running s' = _running s /\ _old_IM s' = _old_IM s /\
  _instruction_register s' = value /\
  _operand_a s' =
    (if 0 <? operands_fetched value
     then Some (mask (memory s (mask (_program_counter s + 1))))
     else None) /\
  _operand_b s' =
    (if operands_fetched value =? 2
     then Some (mask (memory s (mask (_program_counter s + 2))))
     else None).

(** The operands fit the opcode: as many as its two high bits say, the
    first a register number, the second a register number for an ALU
    opcode and a word otherwise. *)
Definition decoded_as (ir : Z) (oa ob : option Z) : Prop :=
  is_opcode ir = true /\
  (0 < operands_fetched ir -> exists a, oa = Some a /\ 0 <= a < REGISTERS) /\
  (operands_fetched ir = 0 -> oa = None) /\
  (operands_fetched ir = 2 ->
   exists b, ob = Some b /\
     0 <= b < (if Z.land ir ALU_MASK =? 0 then MAX_MEM else REGISTERS)) /\
  (operands_fetched ir < 2 -> ob = None).

Definition decoded (s : CPU) : Prop :=
  decoded_as (_instruction_register s) (_operand_a s) (_operand_b s).

(** The failures a program can provoke: a failed assertion, or the
    attribute error of IRET on an object that had no [_old_IM] at the
    start. *)
Definition checked_failure (old : option Z) (e : exception) : Prop :=
  (exists msg, e = AssertionError msg) \/
  (old = None /\
   e = AttributeError "'CPU' object has no attribute '_old_IM'").

(** A well-formed object that still has [_old_IM] if it had it at the
    start, and such an object while the instruction with the given opcode
    and operands executes. *)
Definition steady (old : option Z) (s : CPU) : Prop :=
  well_formed s /\ (old <> None -> _old_IM s <> None).

Definition executing (old : option Z) (ir : Z) (oa ob : option Z) (s : CPU)
  : Prop :=
  steady old s /\ _instruction_register s = ir /\
  _operand_a s = oa /\ _operand_b s = ob.

(** A method never changes what [f] reads from the object, however it
    ends. *)
Definition preserves {A B} (f : CPU -> B) (m : M A) : Prop :=
  forall s, f (fst (m s)) = f s.

(** A text of ASCII characters only.  Python's [print] can write such a
    text on every standard output; a character from 128 on it can write
    only if the encoding of the output has it. *)
Definition ascii_only (text : string) : bool :=
  forallb (fun c => (nat_of_ascii c <? 128)%nat) (list_ascii_of_string text).

(** * Properties *)

(** ** Words and Python lists *)

Lemma mask_mod v : mask v = v mod 256.
Proof.
  unfold mask. change (MAX_MEM - 1) with (Z.ones 8).
  apply Z.land_ones. lia.
Qed.

Lemma mask_bounds v : 0 <= mask v < 256.
Proof. rewrite mask_mod. apply Z.mod_pos_bound. lia. Qed.

Lemma mask_small v : 0 <= v < 256 -> mask v = v.
Proof. intros. rewrite mask_mod. apply Z.mod_small. lia. Qed.

Lemma mask_byte v : byte (mask v).
Proof. exact (mask_bounds v). Qed.

Lemma index_ok (l : list Z) i :
  0 <= i < Z.of_nat (length l) -> index l i = Some (Z.to_nat i).
Proof.
  intros Hi. unfold index.
  destruct (Z.ltb_spec i 0); [lia|].
  destruct (Z.leb_spec 0 i); [|lia].
  destruct (Z.ltb_spec i (Z.of_nat (length l))); [done|lia].
Qed.

Lemma getitem_ok (l : list Z) i v :
  0 <= i -> l !! Z.to_nat i = Some v -> getitem l i = inr v.
Proof.
  intros Hi Hl. unfold getitem.
  pose proof (lookup_lt_Some _ _ _ Hl) as Hlt.
  rewrite index_ok by lia. now rewrite Hl.
Qed.

Lemma setitem_ok (l : list Z) i v :
  0 <= i < Z.of_nat (length l) ->
  setitem l i v = inr (<[Z.to_nat i := v]> l).
Proof. intros Hi. unfold setitem. now rewrite index_ok. Qed.

(** ** The program-counter setter *)

Lemma PC_fset_cases (s : CPU) (v sp : Z) :
  getitem (_reg s) SP_REG = inr sp ->
  (~ (sp <= mask v /\ mask v <> NULL_INTERRUPT) /\
   PC_fset v s = (set_program_counter (mask v) s, inr tt)) \/
  ((sp <= mask v /\ mask v <> NULL_INTERRUPT) /\
   rejected (PC_fset v s) s).
Proof.
  intros Hsp. pose proof (mask_bounds v) as Hb.
  unfold rejected, PC_fset, bind, SP_fget, reg_getitem, ret, raise, modify.
  destruct (Z.leb_spec 0 (mask v)); [|lia].
  rewrite Hsp.
  destruct (Z.ltb_spec (mask v) sp) as [Hlt|Hge]; cbn [orb].
  - left. split; [lia | reflexivity].
  - destruct (Z.eqb_spec (mask v) NULL_INTERRUPT) as [He|Hne].
    + left. split; [lia | reflexivity].
    + right. rewrite Hsp. split; [lia | eexists; reflexivity].
Qed.

(** C7. The setter of PC refuses a value exactly when, masked to the word,
    it is at or above the stack pointer and is not the null-interrupt
    address; a refused write leaves the object, so PC, as it was, and
    every other write stores the masked value. *)
Theorem PC_setter_rejects_iff (s : CPU) (v sp : Z)
  (Hsp : getitem (_reg s) SP_REG = inr sp) :
  (rejected (PC_fset v s) s <-> sp <= mask v /\ mask v <> NULL_INTERRUPT) /\
  (~ (sp <= mask v /\ mask v <> NULL_INTERRUPT) ->
   PC_fset v s = (set_program_counter (mask v) s, inr tt)).
Proof.
  destruct (PC_fset_cases s v sp Hsp) as [[Hn Hok]|[Hc Hr]].
  - split; [|intros _; exact Hok].
    split; [|intros Hc; contradiction].
    intros [msg Hmsg]. rewrite Hok in Hmsg.
    apply (f_equal snd) in Hmsg. discriminate Hmsg.
  - split; [tauto|]. intros Hn. contradiction.
Qed.

Lemma PC_setter_rejects_iff_witness :
  (rejected (PC_fset 250 new_CPU) new_CPU <->
     244 <= mask 250 /\ mask 250 <> NULL_INTERRUPT) /\
  (~ (244 <= mask 250 /\ mask 250 <> NULL_INTERRUPT) ->
   PC_fset 250 new_CPU = (set_program_counter (mask 250) new_CPU, inr tt)).
Proof. apply (PC_setter_rejects_iff new_CPU 250 244). reflexivity. Defined.

(** ** The stack-pointer setter *)

Lemma SP_fset_cases (s : CPU) (v : Z) :
  length (_reg s) = Z.to_nat REGISTERS ->
  (SP_condition v s /\ SP_accepted v s) \/
  (~ SP_condition v s /\ rejected (SP_fset v s) s).
Proof.
  intros Hlen. unfold SP_condition, SP_accepted, rejected.
  unfold SP_fset, bind, assert, PC_fget, IR_fget, gets, ret, raise,
    reg_setitem.
  pose proof (mask_bounds v) as Hb.
  destruct (Z.leb_spec 0 (mask v)); [|lia].
  destruct (Z.leb_spec (mask v) STACK_BASE) as [Hle|Hgt]; cbn [andb].
  2:{ right. split; [lia | eexists; reflexivity]. }
  set (pc := _program_counter s + Z.shiftr (_instruction_register s) 6).
  destruct (Z.ltb_spec pc (mask v)) as [Hlt|Hge]; cbn [orb].
  - left. split; [lia|]. rewrite setitem_ok.
    + reflexivity.
    + rewrite Hlen. vm_compute. split; [discriminate | reflexivity].
  - destruct (Z.eqb_spec pc NULL_INTERRUPT) as [He|Hne].
    + left. split; [lia|]. rewrite setitem_ok.
      * reflexivity.
      * rewrite Hlen. vm_compute. split; [discriminate | reflexivity].
    + right. split; [lia | eexists; reflexivity].
Qed.

(** C3, as the code has it.  The setter of SP stores the masked value
    exactly when it lies in [0, STACK_BASE] and the address
    PC + (IR >> 6) is below it or is itself the null-interrupt address;
    every other write is refused and leaves the object unchanged. *)
Theorem SP_setter_accepts_iff (s : CPU) (v : Z)
  (Hlen : length (_reg s) = Z.to_nat REGISTERS) :
  (SP_accepted v s <-> SP_condition v s) /\
  (~ SP_condition v s -> rejected (SP_fset v s) s).
Proof.
  destruct (SP_fset_cases s v Hlen) as [[Hc Ha]|[Hc Hr]].
  - split; [tauto|]. intros Hn. contradiction.
  - split; [|intros _; exact Hr].
    split; [|intros Hc'; contradiction].
    intros Ha. exfalso. destruct Hr as [msg Hmsg].
    unfold SP_accepted in Ha. rewrite Hmsg in Ha. discriminate.
Qed.

Lemma SP_setter_accepts_iff_witness :
  (SP_accepted 243 new_CPU <-> SP_condition 243 new_CPU) /\
  (~ SP_condition 243 new_CPU -> rejected (SP_fset 243 new_CPU) new_CPU).
Proof. apply (SP_setter_accepts_iff new_CPU 243). reflexivity. Defined.

(** C3, as the specification words it, fails: after [LDI R0,247; JMP R0]
    PC is the null-interrupt address while IR still holds the one-operand
    [JMP], so the waiver as specified applies, yet the setter compares
    PC + 1 with the sentinel and refuses 243. *)
Lemma SP_setter_waiver_counterexample :
  _program_counter jumped_to_null = NULL_INTERRUPT /\
  _instruction_register jumped_to_null = 84 /\
  getitem (_reg jumped_to_null) SP_REG = inr STACK_BASE /\
  SP_condition_as_specified 243 jumped_to_null /\
  rejected (SP_fset 243 jumped_to_null) jumped_to_null /\
  ~ SP_accepted 243 jumped_to_null.
Proof.
  assert (Hr : rejected (SP_fset 243 jumped_to_null) jumped_to_null).
  { eexists. vm_compute. reflexivity. }
  split; [vm_compute; reflexivity|].
  split; [vm_compute; reflexivity|].
  split; [vm_compute; reflexivity|].
  split; [|split].
  - split; [vm_compute; split; discriminate | right; vm_compute; reflexivity].
  - exact Hr.
  - intros Ha. destruct Hr as [msg Hmsg]. unfold SP_accepted in Ha.
    rewrite Hmsg in Ha. apply (f_equal snd) in Ha. discriminate Ha.
Qed.

(** ** The ALU *)

(** C6. CMP on two registers holding [x] and [y] stores in FL exactly one
    of 1 (equal), 2 (greater) and 4 (less), changes nothing else, and a
    register compared with itself gives 1. *)
Theorem CMP_sets_exactly_one_flag (s : CPU) (a b x y : Z)
  (Ha : getitem (_reg s) a = inr x) (Hb : getitem (_reg s) b = inr y) :
  exists fl,
    alu "CMP" (Some a) (Some b) s = (set_flags fl s, inr tt) /\
    ((fl = 1 /\ x = y) \/ (fl = 2 /\ x > y) \/ (fl = 4 /\ x < y)) /\
    (a = b -> fl = 1).
Proof.
  unfold alu, try_except, alu_try, bind, reg_getitem, ret, lift.
  rewrite Ha, Hb. cbn.
  destruct (Z.eqb_spec x y) as [He|Hne].
  - exists 1. split; [reflexivity|]. split; [left; split; [reflexivity|exact He]|].
    reflexivity.
  - destruct (x >? y) eqn:Hgt.
    + exists 2. split; [reflexivity|]. split.
      * right; left. split; [reflexivity|]. apply Z.gtb_lt in Hgt. lia.
      * intros ->. rewrite Ha in Hb. congruence.
    + exists 4. split; [reflexivity|]. split.
      * right; right. split; [reflexivity|].
        pose proof (Zgt_cases x y) as Hc. rewrite Hgt in Hc. lia.
      * intros ->. rewrite Ha in Hb. congruence.
Qed.

Lemma CMP_sets_exactly_one_flag_witness :
  exists fl,
    alu "CMP" (Some 0) (Some 7) new_CPU = (set_flags fl new_CPU, inr tt) /\
    ((fl = 1 /\ 0 = 244) \/ (fl = 2 /\ 0 > 244) \/ (fl = 4 /\ 0 < 244)) /\
    (0 = 7 -> fl = 1).
Proof.
  apply (CMP_sets_exactly_one_flag new_CPU 0 7 0 244); reflexivity.
Defined.

(** What [alu] does on a zero divisor: it prints the diagnostic and
    creates the attribute [__running__]; this is the whole effect. *)
Lemma alu_zero_divisor (s : CPU) (op : string) (a b x : Z) :
  op = "DIV"%string \/ op = "MOD"%string ->
  getitem (_reg s) a = inr x ->
  getitem (_reg s) b = inr 0 ->
  alu op (Some a) (Some b) s =
    (set_dunder_running false
       (write_stdout ("ALU ERROR: " ++ op ++ " by 0 at "
                      ++ str (_program_counter s) ++ newline) s),
     inr tt).
Proof.
  intros Hop Ha Hb.
  unfold alu, try_except, alu_try, bind, reg_getitem, ret, lift.
  rewrite Ha, Hb. destruct Hop as [-> | ->]; reflexivity.
Qed.

(** The flag the loop tests is not the one [alu] clears. *)
Lemma alu_zero_divisor_running (s : CPU) (op : string) (a b x : Z) :
  op = "DIV"%string \/ op = "MOD"%string ->
  getitem (_reg s) a = inr x ->
  getitem (_reg s) b = inr 0 ->
  _running (fst (alu op (Some a) (Some b) s)) = _running s /\
  __running__ (fst (alu op (Some a) (Some b) s)) = Some false.
Proof.
  intros Hop Ha Hb. rewrite (alu_zero_divisor s op a b x Hop Ha Hb).
  split; reflexivity.
Qed.

(** C9. DIV or MOD with a zero divisor returns without raising and leaves
    every register (the destination and the stack pointer among them),
    FL, PC and memory as they were. *)
Theorem zero_divisor_keeps_state (s : CPU) (op : string) (a b x : Z)
  (Hop : op = "DIV"%string \/ op = "MOD"%string)
  (Ha : getitem (_reg s) a = inr x)
  (Hb : getitem (_reg s) b = inr 0) :
  exists s',
    alu op (Some a) (Some b) s = (s', inr tt) /\
    _reg s' = _reg s /\
    getitem (_reg s') a = inr x /\
    getitem (_reg s') SP_REG = getitem (_reg s) SP_REG /\
    _flags s' = _flags s /\
    _program_counter s' = _program_counter s /\
    _ram s' = _ram s.
Proof.
  eexists. split; [apply (alu_zero_divisor s op a b x Hop Ha Hb)|].
  cbn. repeat split; assumption || reflexivity.
Qed.

Lemma zero_divisor_keeps_state_witness :
  exists s',
    alu "DIV" (Some 7) (Some 1) new_CPU = (s', inr tt) /\
    _reg s' = _reg new_CPU /\
    getitem (_reg s') 7 = inr 244 /\
    getitem (_reg s') SP_REG = getitem (_reg new_CPU) SP_REG /\
    _flags s' = _flags new_CPU /\
    _program_counter s' = _program_counter new_CPU /\
    _ram s' = _ram new_CPU.
Proof.
  apply (zero_divisor_keeps_state new_CPU "DIV" 7 1 244);
    [left; reflexivity | reflexivity | reflexivity].
Defined.

(** ** Whole runs *)

Lemma while_running_more_fuel (fuel extra : nat) devices s s' :
  while_running fuel devices s = Exited s' ->
  while_running (fuel + extra) devices s = Exited s'.
Proof.
  revert devices s. induction fuel as [|fuel IH]; intros devices s.
  - cbn [while_running]. destruct (_running s) eqn:Hr; [discriminate|].
    intros H. destruct extra; cbn [while_running Nat.add]; now rewrite Hr.
  - cbn [while_running Nat.add]. destruct (_running s); [|trivial].
    destruct (cycle (hd quiet devices) s) as [s1 [e|u]]; [discriminate|].
    apply IH.
Qed.

(** C4. Loading [LDI R0,8; LDI R1,9; ADD R0,R1; PRN R0; HLT] and running
    it with silent devices prints the one line 17, leaves the loop after
    the fifth cycle through HLT with no exception, and ends with R0 = 17
    and R1 = 9. *)
Theorem add_program_prints_17 :
  exists s0 s,
    load add_program blank = (s0, inr tt) /\
    (forall extra, run (5 + extra) [] s0 = Exited s) /\
    _instruction_register s = 1 /\
    stdout s = ["17" ++ newline]%string /\
    _running s = false /\
    getitem (_reg s) 0 = inr 17 /\
    getitem (_reg s) 1 = inr 9.
Proof.
  eexists. eexists. split; [vm_compute; reflexivity|].
  split.
  - intros extra. unfold run. apply while_running_more_fuel.
    vm_compute. reflexivity.
  - split; [vm_compute; reflexivity|].
    split; [vm_compute; reflexivity|].
    split; [vm_compute; reflexivity|].
    split; vm_compute; reflexivity.
Qed.

(** C1, at [div_program].  The first cycle divides by zero: the
    diagnostic is printed and the attribute [__running__] is created, but
    [_running], the flag the loop tests, stays true: the loop goes on to
    the next instruction and ends only at HLT. *)
Theorem zero_divisor_does_not_stop_the_loop :
  exists s0 s1 s,
    load div_program blank = (s0, inr tt) /\
    getitem (_reg s0) 1 = inr 0 /\
    cycle quiet (set_running true s0) = (s1, inr tt) /\
    stdout s1 = ["ALU ERROR: DIV by 0 at 0" ++ newline]%string /\
    __running__ s1 = Some false /\
    _running s1 = true /\
    _program_counter s1 = 3 /\
    run 4 [] s0 = Exited s /\
    stdout s = ["ALU ERROR: DIV by 0 at 0" ++ newline;
                "42" ++ newline]%string.
Proof.
  do 3 eexists.
  split; [vm_compute; reflexivity|].
  split; [vm_compute; reflexivity|].
  split; [vm_compute; reflexivity|].
  split; [vm_compute; reflexivity|].
  split; [vm_compute; reflexivity|].
  split; [vm_compute; reflexivity|].
  split; [vm_compute; reflexivity|].
  split; vm_compute; reflexivity.
Qed.

(** ** Equations for the methods on a well-shaped object *)

Lemma bind_step {A B} (m : M A) (k : A -> M B) s s' a r :
  m s = (s', inr a) -> k a s' = r -> bind m k s = r.
Proof. intros Hm Hk. unfold bind. now rewrite Hm. Qed.

Lemma lookup_getitem (l : list Z) i v :
  getitem l i = inr v -> 0 <= i -> l !! Z.to_nat i = Some v.
Proof.
  unfold getitem, index. intros H Hi.
  destruct (Z.ltb_spec i 0); [lia|].
  destruct ((0 <=? i) && (i <? Z.of_nat (length l))); [|discriminate].
  destruct (l !! Z.to_nat i); [congruence|discriminate].
Qed.

Lemma reg_getitem_ok s i v :
  0 <= i -> _reg s !! Z.to_nat i = Some v ->
  reg_getitem (Some i) s = (s, inr v).
Proof. intros Hi Hl. unfold reg_getitem. now rewrite (getitem_ok _ _ _ Hi Hl). Qed.

Lemma reg_setitem_ok s i v :
  0 <= i < Z.of_nat (length (_reg s)) ->
  reg_setitem (Some i) v s = (set_reg (<[Z.to_nat i := v]> (_reg s)) s, inr tt).
Proof. intros Hi. unfold reg_setitem. now rewrite setitem_ok. Qed.

Lemma SP_fget_ok s sp :
  _reg s !! 7%nat = Some sp -> SP_fget s = (s, inr sp).
Proof. intros H. apply reg_getitem_ok; [vm_compute; discriminate | exact H]. Qed.

Lemma ram_read_ok s a v :
  _ram s !! Z.to_nat (mask a) = Some v ->
  ram_read a s =
    (set_memory_data_register (mask v)
       (set_memory_address_register (mask a) s), inr (mask v)).
Proof.
  intros H. unfold ram_read, bind, MAR_fset, MAR_fget, MDR_fset, MDR_fget,
    modify, gets. cbn.
  rewrite (getitem_ok _ _ _ (proj1 (mask_bounds a)) H). reflexivity.
Qed.

Lemma ram_write_ok s a v :
  length (_ram s) = Z.to_nat MAX_MEM ->
  ram_write a v s =
    (set_ram (<[Z.to_nat (mask a) := mask v]> (_ram s))
       (set_memory_data_register (mask v)
          (set_memory_address_register (mask a) s)), inr tt).
Proof.
  intros H. unfold ram_write, bind, MAR_fset, MAR_fget, MDR_fset, MDR_fget,
    modify, gets. cbn.
  rewrite setitem_ok; [reflexivity|].
  rewrite H. pose proof (mask_bounds a). change (Z.to_nat MAX_MEM) with 256%nat. lia.
Qed.

Lemma SP_fset_ok s v :
  length (_reg s) = Z.to_nat REGISTERS ->
  SP_condition v s ->
  SP_fset v s = (set_reg (<[7%nat := mask v]> (_reg s)) s, inr tt).
Proof.
  intros Hlen Hc. destruct (SP_fset_cases s v Hlen) as [[_ Ha]|[Hn _]].
  - exact Ha.
  - contradiction.
Qed.

Lemma PC_fset_ok s v sp :
  _reg s !! 7%nat = Some sp ->
  mask v < sp \/ mask v = NULL_INTERRUPT ->
  PC_fset v s = (set_program_counter (mask v) s, inr tt).
Proof.
  intros Hsp Hv.
  assert (Hg : getitem (_reg s) SP_REG = inr sp).
  { apply getitem_ok; [vm_compute; discriminate | exact Hsp]. }
  destruct (PC_fset_cases s v sp Hg) as [[_ Hok]|[Hc _]]; [exact Hok | lia].
Qed.

(** The setter takes a word within [0, STACK_BASE] that lies above the
    decoded instruction, or any such word while PC + (IR >> 6) is the
    null-interrupt address. *)
Lemma SP_condition_above s v :
  0 <= v <= STACK_BASE ->
  _program_counter s + Z.shiftr (_instruction_register s) 6 < v \/
  _program_counter s + Z.shiftr (_instruction_register s) 6
    = NULL_INTERRUPT ->
  SP_condition v s.
Proof.
  intros Hv Hpc. unfold SP_condition.
  rewrite mask_small
    by (change STACK_BASE with 244 in Hv; change MAX_MEM with 256; lia).
  split; [exact Hv | exact Hpc].
Qed.

Ltac proj :=
  cbn [_running __running__ _reg _program_counter _instruction_register
       _memory_address_register _memory_data_register _flags _operand_a
       _operand_b _ram _old_IM stdout
       set_running set_dunder_running set_reg set_program_counter
       set_instruction_register set_memory_address_register
       set_memory_data_register set_flags set_operand_a set_operand_b
       set_ram set_old_IM write_stdout pushed popped].

Lemma SP_isub_ok s sp :
  length (_reg s) = Z.to_nat REGISTERS ->
  _reg s !! 7%nat = Some sp ->
  0 <= sp - 1 <= STACK_BASE ->
  _program_counter s + Z.shiftr (_instruction_register s) 6 < sp - 1 \/
  _program_counter s + Z.shiftr (_instruction_register s) 6
    = NULL_INTERRUPT ->
  SP_isub 1 s = (set_reg (<[7%nat := sp - 1]> (_reg s)) s, inr tt).
Proof.
  intros Hlen Hsp Hr Hpc. unfold SP_isub.
  eapply bind_step; [apply SP_fget_ok; exact Hsp|].
  rewrite SP_fset_ok; [|exact Hlen|apply SP_condition_above; assumption].
  rewrite mask_small; [reflexivity|]. change STACK_BASE with 244 in Hr. lia.
Qed.

Lemma SP_iadd_ok s sp :
  length (_reg s) = Z.to_nat REGISTERS ->
  _reg s !! 7%nat = Some sp ->
  0 <= sp + 1 <= STACK_BASE ->
  _program_counter s + Z.shiftr (_instruction_register s) 6 < sp + 1 \/
  _program_counter s + Z.shiftr (_instruction_register s) 6
    = NULL_INTERRUPT ->
  SP_iadd 1 s = (set_reg (<[7%nat := sp + 1]> (_reg s)) s, inr tt).
Proof.
  intros Hlen Hsp Hr Hpc. unfold SP_iadd.
  eapply bind_step; [apply SP_fget_ok; exact Hsp|].
  rewrite SP_fset_ok; [|exact Hlen|apply SP_condition_above; assumption].
  rewrite mask_small; [reflexivity|]. change STACK_BASE with 244 in Hr. lia.
Qed.

(** ** PUSH and POP *)

Lemma PUSH_ok s a sp x :
  length (_reg s) = Z.to_nat REGISTERS ->
  length (_ram s) = Z.to_nat MAX_MEM ->
  _operand_a s = Some a -> 0 <= a ->
  _reg s !! 7%nat = Some sp ->
  <[7%nat := sp - 1]> (_reg s) !! Z.to_nat a = Some x ->
  0 <= sp - 1 <= STACK_BASE ->
  _program_counter s + Z.shiftr (_instruction_register s) 6 < sp - 1 \/
  _program_counter s + Z.shiftr (_instruction_register s) 6
    = NULL_INTERRUPT ->
  PUSH s =
    (set_ram (<[Z.to_nat (sp - 1) := mask x]> (_ram s))
       (set_memory_data_register (mask x)
          (set_memory_address_register (sp - 1)
             (set_reg (<[7%nat := sp - 1]> (_reg s)) s))), inr tt).
Proof.
  intros Hlen Hram Ha Ha0 Hsp Hx Hr Hpc. unfold PUSH.
  eapply bind_step; [apply (SP_isub_ok s sp); assumption|].
  eapply bind_step.
  { apply SP_fget_ok. proj. apply list_lookup_insert_eq.
    rewrite Hlen. vm_compute. lia. }
  unfold OP_A_fget, gets, bind at 1. proj. rewrite Ha.
  eapply bind_step; [apply reg_getitem_ok; [exact Ha0|proj; exact Hx]|].
  rewrite ram_write_ok by (proj; exact Hram). proj.
  rewrite (mask_small (sp - 1))
    by (change STACK_BASE with 244 in Hr; change MAX_MEM with 256; lia).
  reflexivity.
Qed.

Lemma POP_ok s a sp m sp' :
  length (_reg s) = Z.to_nat REGISTERS ->
  _operand_a s = Some a -> 0 <= a < REGISTERS ->
  _reg s !! 7%nat = Some sp -> 0 <= sp < MAX_MEM ->
  _ram s !! Z.to_nat sp = Some m ->
  <[Z.to_nat a := mask m]> (_reg s) !! 7%nat = Some sp' ->
  0 <= sp' + 1 <= STACK_BASE ->
  _program_counter s + Z.shiftr (_instruction_register s) 6 < sp' + 1 \/
  _program_counter s + Z.shiftr (_instruction_register s) 6
    = NULL_INTERRUPT ->
  POP s =
    (set_reg (<[7%nat := sp' + 1]> (<[Z.to_nat a := mask m]> (_reg s)))
       (set_memory_data_register (mask m)
          (set_memory_address_register sp s)), inr tt).
Proof.
  intros Hlen Ha Ha0 Hsp Hspr Hm Hsp' Hr Hpc. unfold POP.
  eapply bind_step; [apply SP_fget_ok; exact Hsp|].
  eapply bind_step.
  { apply ram_read_ok. rewrite (mask_small sp) by exact Hspr. exact Hm. }
  rewrite (mask_small sp) by exact Hspr.
  unfold OP_A_fget, gets, bind at 1. proj. rewrite Ha.
  eapply bind_step.
  { apply reg_setitem_ok. proj. rewrite Hlen.
    change (Z.of_nat (Z.to_nat REGISTERS)) with REGISTERS. exact Ha0. }
  proj.
  rewrite (SP_iadd_ok _ sp'); proj;
    [reflexivity | now rewrite length_insert | exact Hsp' | exact Hr | exact Hpc].
Qed.

Lemma byte_lookup (l : list Z) (i : nat) v :
  Forall byte l -> l !! i = Some v -> 0 <= v < 256.
Proof. intros Hl Hi. exact (proj1 (Forall_lookup byte l) Hl i v Hi). Qed.

Ltac consts :=
  change STACK_BASE with 244 in *; change MAX_MEM with 256 in *;
  change REGISTERS with 8 in *; change SP_REG with 7 in *;
  change NULL_INTERRUPT with 247 in *; change IM_REG with 5 in *;
  change IS_REG with 6 in *; change INTERRUPTS with 8 in *;
  change IRET_OPCODE with 19 in *.

Ltac arith := consts; lia.

(** C5. With room on the stack (the decoded instruction ends below
    SP - 1 and SP is at most STACK_BASE), PUSH of register [a] followed
    by POP into [a] both complete and leave the register and the stack
    pointer as they were.  Conversely, with one entry on the stack, POP
    into [a] followed by PUSH of [a] both complete and leave the byte at
    the popped address as it was. *)
Theorem PUSH_POP_inverse (s : CPU) (a sp x : Z)
  (Hwf : well_formed s)
  (Ha : _operand_a s = Some a) (Hrange : 0 <= a < REGISTERS)
  (Hsp : getitem (_reg s) SP_REG = inr sp)
  (Hx : getitem (_reg s) a = inr x) :
  let pc := _program_counter s + Z.shiftr (_instruction_register s) 6 in
  (pc < sp - 1 -> sp <= STACK_BASE ->
   exists s1 s2,
     PUSH s = (s1, inr tt) /\ POP s1 = (s2, inr tt) /\
     getitem (_reg s2) a = inr x /\
     getitem (_reg s2) SP_REG = inr sp) /\
  (forall m, getitem (_ram s) sp = inr m ->
   let top := if a =? SP_REG then m else sp in
   pc < top -> top < STACK_BASE ->
   exists s1 s2,
     POP s = (s1, inr tt) /\ PUSH s1 = (s2, inr tt) /\
     getitem (_ram s2) sp = inr m).
Proof.
  destruct Hwf as [Hlen Hbytes Hrlen Hrbytes Bpc Bir _ _].
  assert (Hsp7 : _reg s !! 7%nat = Some sp).
  { apply (lookup_getitem _ SP_REG); [exact Hsp | vm_compute; discriminate]. }
  assert (Hxa : _reg s !! Z.to_nat a = Some x).
  { apply lookup_getitem; [exact Hx | lia]. }
  pose proof (byte_lookup _ _ _ Hbytes Hsp7) as Bsp.
  pose proof (byte_lookup _ _ _ Hbytes Hxa) as Bx.
  assert (Hlen8 : length (_reg s) = 8%nat) by exact Hlen.
  assert (Hlen256 : length (_ram s) = 256%nat) by exact Hrlen.
  assert (Hpc0 : 0 <= _program_counter s
                      + Z.shiftr (_instruction_register s) 6).
  { pose proof (proj2 (Z.shiftr_nonneg (_instruction_register s) 6)
                  (proj1 Bir)). destruct Bpc. lia. }
  change REGISTERS with 8 in Hrange.
  intros pc. subst pc. split.
  - (* PUSH then POP *)
    intros Hpc Htop. change STACK_BASE with 244 in Htop.
    set (x' := if a =? 7 then sp - 1 else x).
    assert (Bx' : 0 <= x' < 256) by (subst x'; destruct (a =? 7); lia).
    assert (Hx' : <[7%nat := sp - 1]> (_reg s) !! Z.to_nat a = Some x').
    { subst x'. destruct (Z.eqb_spec a 7) as [->|Hne].
      - apply list_lookup_insert_eq. rewrite Hlen8. lia.
      - rewrite list_lookup_insert_ne by lia. exact Hxa. }
    eexists. eexists.
    split.
    { apply (PUSH_ok s a sp x');
        solve [assumption | arith | left; arith]. }
    split.
    { apply (POP_ok _ a (sp - 1) (mask x') (sp - 1)); proj;
        try solve [assumption | arith | left; arith].
      - rewrite length_insert. exact Hlen.
      - apply list_lookup_insert_eq. rewrite Hlen8. lia.
      - apply list_lookup_insert_eq. rewrite Hlen256. lia.
      - rewrite !mask_small by (rewrite ?mask_small; assumption).
        subst x'. destruct (Z.eqb_spec a 7) as [->|Hne].
        + apply list_lookup_insert_eq. rewrite length_insert, Hlen8. lia.
        + rewrite list_lookup_insert_ne by lia.
          apply list_lookup_insert_eq. rewrite Hlen8. lia. }
    proj. replace (sp - 1 + 1) with sp by lia.
    rewrite !mask_small by (rewrite ?mask_small; assumption).
    split.
    + apply getitem_ok; [lia|]. subst x'.
      destruct (Z.eqb_spec a 7) as [->|Hne].
      * rewrite list_lookup_insert_eq
          by (rewrite !length_insert, Hlen8; lia).
        change (Z.to_nat 7) with 7%nat in Hxa. congruence.
      * rewrite list_lookup_insert_ne by lia.
        apply list_lookup_insert_eq. rewrite length_insert, Hlen8. lia.
    + apply getitem_ok; [vm_compute; discriminate|].
      apply list_lookup_insert_eq. rewrite !length_insert, Hlen8.
      vm_compute. lia.
  - (* POP then PUSH *)
    intros m Hm top Hpc Htop. change STACK_BASE with 244 in Htop.
    assert (Hmsp : _ram s !! Z.to_nat sp = Some m).
    { apply lookup_getitem; [exact Hm | lia]. }
    pose proof (byte_lookup _ _ _ Hrbytes Hmsp) as Bm.
    assert (Btop : 0 <= top < 244) by (subst top; destruct (a =? SP_REG); lia).
    assert (Htop' : <[Z.to_nat a := mask m]> (_reg s) !! 7%nat = Some top).
    { subst top. rewrite (mask_small m) by exact Bm.
      destruct (Z.eqb_spec a SP_REG) as [->|Hne].
      - apply list_lookup_insert_eq. rewrite Hlen8. vm_compute. lia.
      - rewrite list_lookup_insert_ne; [exact Hsp7|].
        change SP_REG with 7 in Hne. lia. }
    eexists. eexists.
    split.
    { apply (POP_ok s a sp m top);
        solve [assumption | arith | left; arith]. }
    split.
    { apply (PUSH_ok _ a (top + 1) m); proj;
        try solve [assumption | arith | left; arith].
      - rewrite !length_insert. exact Hlen.
      - apply list_lookup_insert_eq. rewrite length_insert, Hlen8. lia.
      - replace (top + 1 - 1) with top by lia.
        rewrite list_insert_insert_eq. rewrite (mask_small m) by exact Bm.
        subst top. destruct (Z.eqb_spec a SP_REG) as [->|Hne].
        + apply list_lookup_insert_eq. rewrite length_insert, Hlen8.
          vm_compute. lia.
        + rewrite list_lookup_insert_ne by arith.
          apply list_lookup_insert_eq. rewrite Hlen8. lia. }
    proj. replace (top + 1 - 1) with top by lia.
    rewrite (mask_small m) by exact Bm.
    apply getitem_ok; [lia|].
    destruct (Z.eq_dec top sp) as [->|Hne].
    + apply list_lookup_insert_eq. rewrite Hlen256. lia.
    + rewrite list_lookup_insert_ne by lia. exact Hmsp.
Qed.

(** ** Interrupts *)

Lemma land_bit_testbit m n :
  0 <= n -> (Z.land m (Z.shiftl 1 n) =? 0) = negb (Z.testbit m n).
Proof.
  intros Hn. rewrite Z.shiftl_1_l.
  destruct (Z.testbit m n) eqn:Hb; cbn [negb].
  - apply Z.eqb_neq. intros H0.
    assert (Hc : Z.testbit (Z.land m (2 ^ n)) n = true).
    { rewrite Z.land_spec, Hb, Z.pow2_bits_true by lia. reflexivity. }
    rewrite H0, Z.bits_0 in Hc. discriminate.
  - apply Z.eqb_eq. apply Z.bits_inj'. intros k Hk.
    rewrite Z.land_spec, Z.bits_0, Z.pow2_bits_eqb by lia.
    destruct (Z.eqb_spec n k) as [->|Hne]; [now rewrite Hb|].
    apply andb_false_r.
Qed.

Lemma clear_pending_bit v n :
  0 <= v < 256 -> 0 <= n < 8 ->
  mask (Z.land v (Z.lxor 255 (Z.shiftl 1 n))) = Z.clearbit v n.
Proof.
  intros Hv Hn.
  assert (Hhigh : forall k, 8 <= k -> Z.testbit v k = false).
  { intros k Hk. destruct (Z.eq_dec v 0) as [->|Hne]; [apply Z.bits_0|].
    apply Z.bits_above_log2; [lia|].
    apply Z.log2_lt_pow2; [lia|].
    apply Z.lt_le_trans with (2 ^ 8); [lia|].
    apply Z.pow_le_mono_r; lia. }
  unfold mask. change (MAX_MEM - 1) with (Z.ones 8).
  apply Z.bits_inj'. intros k Hk.
  rewrite Z.clearbit_eqb, !Z.land_spec, Z.lxor_spec, Z.shiftl_1_l,
    Z.pow2_bits_eqb by lia.
  destruct (Z.ltb_spec k 8) as [Hlt|Hge].
  - rewrite Z.ones_spec_low by lia.
    change 255 with (Z.ones 8). rewrite Z.ones_spec_low by lia.
    rewrite andb_true_r. cbn [xorb]. reflexivity.
  - rewrite (Hhigh k Hge). reflexivity.
Qed.

Lemma first_interrupt_lowest masked n :
  0 <= n < 8 ->
  Z.testbit masked n = true ->
  (forall k, 0 <= k < n -> Z.testbit masked k = false) ->
  first_interrupt masked (map Z.of_nat (seq 0 8)) = dispatch n.
Proof.
  intros Hn Hbit Hlow.
  assert (Hcases : n = 0 \/ n = 1 \/ n = 2 \/ n = 3 \/ n = 4 \/ n = 5 \/
                   n = 6 \/ n = 7) by lia.
  change (map Z.of_nat (seq 0 8)) with [0; 1; 2; 3; 4; 5; 6; 7].
  cbn [first_interrupt].
  repeat match goal with
         | |- context [Z.land masked (Z.shiftl 1 ?k) =? 0] =>
             rewrite (land_bit_testbit masked k) by lia
         end.
  destruct Hcases as [->|[->|[->|[->|[->|[->|[->| ->]]]]]]];
    rewrite ?Hlow by lia; rewrite Hbit; reflexivity.
Qed.

Section Stack.
Variable s : CPU.
Variable sp : Z.
Hypothesis Hlen : length (_reg s) = Z.to_nat REGISTERS.
Hypothesis Hram : length (_ram s) = Z.to_nat MAX_MEM.
Hypothesis Hsp : _reg s !! 7%nat = Some sp.

Let pc := _program_counter s + Z.shiftr (_instruction_register s) 6.

Lemma push_then {B} (G : M Z) (K : M B) v r :
  0 <= sp - 1 <= STACK_BASE ->
  pc < sp - 1 \/ pc = NULL_INTERRUPT ->
  (let s' := set_reg (<[7%nat := sp - 1]> (_reg s)) s in
   G s' = (s', inr v)) ->
  K (pushed sp v s) = r ->
  (SP_isub 1 ;; SP <- SP_fget ;; x <- G ;; ram_write SP x ;; K) s = r.
Proof.
  intros Hr Hpc HG HK.
  eapply bind_step; [apply (SP_isub_ok s sp); assumption|].
  eapply bind_step.
  { apply SP_fget_ok. proj. apply list_lookup_insert_eq.
    rewrite Hlen. vm_compute. lia. }
  eapply bind_step; [exact HG|].
  eapply bind_step; [apply ram_write_ok; proj; exact Hram|].
  proj. rewrite (mask_small (sp - 1)) by arith. exact HK.
Qed.

Lemma push_ok (G : M Z) v :
  0 <= sp - 1 <= STACK_BASE ->
  pc < sp - 1 \/ pc = NULL_INTERRUPT ->
  (let s' := set_reg (<[7%nat := sp - 1]> (_reg s)) s in
   G s' = (s', inr v)) ->
  (SP_isub 1 ;; SP <- SP_fget ;; x <- G ;; ram_write SP x) s
    = (pushed sp v s, inr tt).
Proof.
  intros Hr Hpc HG.
  eapply bind_step; [apply (SP_isub_ok s sp); assumption|].
  eapply bind_step.
  { apply SP_fget_ok. proj. apply list_lookup_insert_eq.
    rewrite Hlen. vm_compute. lia. }
  eapply bind_step; [exact HG|].
  rewrite ram_write_ok by (proj; exact Hram).
  proj. rewrite (mask_small (sp - 1)) by arith. reflexivity.
Qed.

Lemma pop_ok i m :
  0 <= i < SP_REG -> 0 <= sp < MAX_MEM ->
  _ram s !! Z.to_nat sp = Some m ->
  0 <= sp + 1 <= STACK_BASE ->
  pc < sp + 1 \/ pc = NULL_INTERRUPT ->
  (SP <- SP_fget ;; v <- ram_read SP ;; reg_setitem (Some i) v ;;
   SP_iadd 1) s = (popped i sp m s, inr tt).
Proof.
  intros Hi Hspr Hm Hr Hpc.
  eapply bind_step; [apply SP_fget_ok; exact Hsp|].
  eapply bind_step.
  { apply ram_read_ok. rewrite (mask_small sp) by exact Hspr. exact Hm. }
  rewrite (mask_small sp) by exact Hspr.
  eapply bind_step.
  { apply reg_setitem_ok. proj. rewrite Hlen. arith. }
  rewrite (SP_iadd_ok _ sp); proj;
    [ reflexivity | now rewrite length_insert | | exact Hr | exact Hpc ].
  rewrite list_lookup_insert_ne by arith. exact Hsp.
Qed.
End Stack.

Ltac regs :=
  consts;
  change (Z.to_nat 0) with 0%nat; change (Z.to_nat 1) with 1%nat;
  change (Z.to_nat 2) with 2%nat; change (Z.to_nat 3) with 3%nat;
  change (Z.to_nat 4) with 4%nat; change (Z.to_nat 5) with 5%nat;
  change (Z.to_nat 6) with 6%nat; change (Z.to_nat 7) with 7%nat;
  proj; cbn [insert list_insert lookup list_lookup]; proj.

Lemma for_each_step body i rest s s' r :
  body i s = (s', inr tt) -> for_each rest body s' = r ->
  for_each (i :: rest) body s = r.
Proof. intros Hb Hr. cbn [for_each]. eapply bind_step; eassumption. Qed.

Lemma lookup_insert_same (l : list Z) (i j : nat) v :
  i = j -> (i < length l)%nat -> <[i := v]> l !! j = Some v.
Proof. intros <- Hi. now apply list_lookup_insert_eq. Qed.

Lemma clearbit_byte v n : 0 <= v < 256 -> 0 <= n < 8 ->
  0 <= Z.clearbit v n < 256.
Proof.
  intros Hv Hn. rewrite <- (clear_pending_bit v n Hv Hn). apply mask_bounds.
Qed.

Lemma IR_fset_IRET s :
  IR_fset IRET_OPCODE s =
    (set_operand_b None
       (set_operand_a None (set_instruction_register IRET_OPCODE s)),
     inr tt).
Proof. reflexivity. Qed.

Lemma execute_IRET s :
  _instruction_register s = IRET_OPCODE -> execute s = IRET s.
Proof.
  intros H. unfold execute, bind, IR_fget, gets. rewrite H. reflexivity.
Qed.

Lemma advance_IRET s :
  _instruction_register s = IRET_OPCODE -> advance s = (s, inr tt).
Proof.
  intros H. unfold advance, bind, IR_fget, gets. rewrite H. reflexivity.
Qed.

Ltac stack_lookup :=
  proj;
  repeat (rewrite list_lookup_insert_ne by lia);
  first [ rewrite lookup_insert_same by (rewrite ?length_insert; lia);
          reflexivity
        | eassumption ].

(** C2, as the code has it.  When line [n] is the lowest enabled and
    pending interrupt, the decoded instruction ends more than nine bytes
    below SP and the handler's first instruction is IRET, the cycle
    dispatches the interrupt and returns from it, and afterwards R0..R4,
    the interrupt mask, FL, PC and SP equal their values before the
    dispatch, while the interrupt-state register is its old value with
    bit [n] cleared. *)
Theorem dispatch_IRET_restores (s : CPU) (n imask istate sp h : Z)
  (Hwf : well_formed s)
  (Him : getitem (_reg s) IM_REG = inr imask)
  (His : getitem (_reg s) IS_REG = inr istate)
  (Hsp : getitem (_reg s) SP_REG = inr sp)
  (Hn : 0 <= n < INTERRUPTS)
  (Hbit : Z.testbit (Z.land imask istate) n = true)
  (Hlow : forall k, 0 <= k < n -> Z.testbit (Z.land imask istate) k = false)
  (Hroom : _program_counter s + Z.shiftr (_instruction_register s) 6
           < sp - 9)
  (Htop : sp <= STACK_BASE)
  (Hh : getitem (_ram s) (MAX_MEM - INTERRUPTS + n) = inr h)
  (Hh_ok : h < sp - 9 \/ h = NULL_INTERRUPT)
  (Hiret : getitem (_ram s) h = inr IRET_OPCODE) :
  exists s1 s2,
    check_interrupts s = (s1, inr tt) /\
    _program_counter s1 = h /\
    _old_IM s1 = Some imask /\
    fetch_execute s = (s2, inr tt) /\
    (forall i, 0 <= i < IM_REG ->
               getitem (_reg s2) i = getitem (_reg s) i) /\
    getitem (_reg s2) IM_REG = inr imask /\
    getitem (_reg s2) IS_REG = inr (Z.clearbit istate n) /\
    getitem (_reg s2) SP_REG = inr sp /\
    _flags s2 = _flags s /\
    _program_counter s2 = _program_counter s.
Proof.
  destruct Hwf as [Hlen Hbytes Hrlen Hrbytes Bpc Bir Bfl _].
  destruct s as [run drun regs pc ir mar mdr fl opa opb ram old out].
  cbn [_reg _ram _program_counter _instruction_register _flags] in *.
  destruct regs as [|r0 [|r1 [|r2 [|r3 [|r4 [|r5 [|r6 [|r7 [|]]]]]]]]];
    try discriminate Hlen.
  assert (r5 = imask) by (vm_compute in Him; congruence).
  assert (r6 = istate) by (vm_compute in His; congruence).
  assert (r7 = sp) by (vm_compute in Hsp; congruence).
  subst r5 r6 r7. clear Him His Hsp.
  repeat match goal with
         | H : Forall byte (_ :: _) |- _ =>
             apply Forall_cons in H; destruct H as [? H]
         end.
  unfold byte in *.
  assert (Hshift : 0 <= Z.shiftr ir 6) by (apply Z.shiftr_nonneg; lia).
  set (s0 := mkCPU run drun [r0; r1; r2; r3; r4; imask; istate; sp] pc ir mar
                 mdr fl opa opb ram old out).
  consts.
  assert (Hh' : ram !! Z.to_nat (256 - 8 + n) = Some h)
    by (apply lookup_getitem; [exact Hh | lia]).
  pose proof (byte_lookup _ _ _ Hrbytes Hh') as Bh.
  assert (Hiret' : ram !! Z.to_nat h = Some 19)
    by (apply lookup_getitem; [exact Hiret | lia]).
  eassert (Hd : check_interrupts s0 = (_, inr tt)).
  { unfold check_interrupts, IM_fget, IS_fget.
    eapply bind_step; [apply reg_getitem_ok; [arith | reflexivity]|].
    eapply bind_step; [apply reg_getitem_ok; [arith | reflexivity]|].
    rewrite (first_interrupt_lowest _ n) by assumption.
    unfold dispatch, IM_fget, IS_fget, IM_fset, IS_fset.
    eapply bind_step; [apply reg_getitem_ok; [arith | reflexivity]|].
    eapply bind_step; [reflexivity|].
    eapply bind_step; [apply reg_setitem_ok; vm_compute; split; congruence|].
    eapply bind_step; [apply reg_getitem_ok; [arith | reflexivity]|].
    eapply bind_step; [apply reg_setitem_ok; vm_compute; split; congruence|].
    subst s0. regs.
    rewrite clear_pending_bit by (assumption || lia).
    change (mask 0) with 0.
    eapply push_then;
      [ reflexivity | exact Hrlen | proj; reflexivity | proj; arith
      | proj; left; arith | proj; reflexivity | regs ].
    eapply push_then;
      [ reflexivity | proj; rewrite ?length_insert; exact Hrlen
      | proj; reflexivity | proj; arith
      | proj; left; arith | proj; reflexivity | regs ].
    change (map Z.of_nat (seq 0 (Z.to_nat (8 - 1))))
      with [0; 1; 2; 3; 4; 5; 6].
    eapply bind_step.
    { repeat (eapply for_each_step;
        [ cbv beta; eapply push_ok;
          [ regs; reflexivity
          | regs; rewrite ?length_insert; exact Hrlen
          | regs; reflexivity
          | arith
          | proj; left; arith
          | cbv zeta; apply reg_getitem_ok; [lia | regs; reflexivity] ]
        | ]).
      reflexivity. }
    eapply bind_step.
    { cbv beta. proj. erewrite getitem_ok;
        [ reflexivity | lia
        | rewrite !list_lookup_insert_ne by lia; exact Hh' ]. }
    rewrite (PC_fset_ok _ h (sp - 9));
      [ rewrite (mask_small h) by lia; reflexivity
      | regs; f_equal; lia
      | rewrite (mask_small h) by lia; arith ]. }
  assert (Bclear := clearbit_byte istate n ltac:(lia) ltac:(lia)).
  eassert (Hf : fetch_execute s0 = (_, inr tt)).
  { unfold fetch_execute.
    eapply bind_step; [exact Hd|].
    eapply bind_step; [reflexivity|]. proj.
    eapply bind_step.
    { apply ram_read_ok. rewrite (mask_small h) by lia. stack_lookup. }
    change (mask 19) with IRET_OPCODE.
    eapply bind_step; [apply IR_fset_IRET|].
    eapply bind_step.
    { rewrite execute_IRET by reflexivity.
      unfold IRET.
      eapply bind_step.
      { repeat (eapply for_each_step;
          [ cbv beta; eapply pop_ok;
            [ regs; reflexivity
            | regs; rewrite ?length_insert; exact Hrlen
            | regs; reflexivity
            | arith
            | arith
            | stack_lookup
            | arith
            | proj; change (Z.shiftr IRET_OPCODE 6) with 0; arith ]
          | ]).
        reflexivity. }
      eapply bind_step; [apply SP_fget_ok; regs; reflexivity|].
      eapply bind_step; [apply ram_read_ok; rewrite mask_small by lia; stack_lookup|].
      eapply bind_step; [reflexivity|].
      eapply bind_step.
      { eapply SP_iadd_ok;
          [ regs; reflexivity | regs; reflexivity | arith
          | proj; change (Z.shiftr IRET_OPCODE 6) with 0; arith ]. }
      eapply bind_step; [apply SP_fget_ok; regs; reflexivity|].
      eapply bind_step; [apply ram_read_ok; rewrite mask_small by lia; stack_lookup|].
      rewrite !(mask_small pc) by lia.
      eapply bind_step.
      { eapply PC_fset_ok; [regs; reflexivity | rewrite (mask_small pc) by lia; arith]. }
      eapply bind_step.
      { eapply SP_iadd_ok;
          [ regs; reflexivity | regs; reflexivity | arith
          | proj; change (Z.shiftr IRET_OPCODE 6) with 0;
            rewrite (mask_small pc) by lia; arith ]. }
      unfold IM_restore. proj. unfold IM_fset.
      apply reg_setitem_ok. regs. vm_compute. split; congruence. }
    apply advance_IRET. proj. reflexivity. }
  eexists. eexists.
  split; [exact Hd|].
  split; [reflexivity|].
  split; [reflexivity|].
  split; [exact Hf|].
  regs.
  rewrite !(mask_small r0) by lia.
  rewrite !(mask_small r1) by lia.
  rewrite !(mask_small r2) by lia.
  rewrite !(mask_small r3) by lia.
  rewrite !(mask_small r4) by lia.
  rewrite !(mask_small imask) by lia.
  rewrite !(mask_small fl) by lia.
  rewrite !(mask_small pc) by lia.
  rewrite !(mask_small (Z.clearbit istate n)) by lia.
  split.
  { intros i Hi.
    assert (Hc : i = 0 \/ i = 1 \/ i = 2 \/ i = 3 \/ i = 4) by lia.
    destruct Hc as [->|[->|[->|[->| ->]]]]; reflexivity. }
  split; [reflexivity|].
  split; [reflexivity|].
  split; [apply getitem_ok; [lia | regs; f_equal; lia]|].
  split; reflexivity.
Qed.

(** ** Concrete objects *)

Lemma is_byte_ok v : is_byte v = true -> byte v.
Proof.
  unfold is_byte, byte. intros H. apply andb_true_iff in H.
  destruct H as [H1 H2]. apply Z.leb_le in H1. apply Z.ltb_lt in H2. lia.
Qed.

Lemma forallb_is_byte l : forallb is_byte l = true -> Forall byte l.
Proof.
  intros H. apply Forall_forall. intros v Hv.
  apply is_byte_ok. apply (proj1 (forallb_forall is_byte l) H).
  now apply list_elem_of_In.
Qed.

Lemma well_formedb_ok s : well_formedb s = true -> well_formed s.
Proof.
  unfold well_formedb. intros H.
  repeat (apply andb_true_iff in H; destruct H as [H ?]).
  constructor.
  - now apply Nat.eqb_eq.
  - now apply forallb_is_byte.
  - now apply Nat.eqb_eq.
  - now apply forallb_is_byte.
  - now apply is_byte_ok.
  - now apply is_byte_ok.
  - now apply is_byte_ok.
  - intros v Hv. rewrite Hv in *. now apply is_byte_ok.
Qed.

Lemma PUSH_POP_inverse_witness :
  (exists s1 s2,
     PUSH stacked = (s1, inr tt) /\ POP s1 = (s2, inr tt) /\
     getitem (_reg s2) 0 = inr 8 /\
     getitem (_reg s2) SP_REG = inr 243) /\
  (exists s1 s2,
     POP stacked = (s1, inr tt) /\ PUSH s1 = (s2, inr tt) /\
     getitem (_ram s2) 243 = inr 8).
Proof.
  assert (Hwf : well_formed stacked)
    by (apply well_formedb_ok; vm_compute; reflexivity).
  destruct (PUSH_POP_inverse stacked 0 243 8 Hwf)
    as [Hpush Hpop]; try (vm_compute; reflexivity).
  - vm_compute. split; congruence.
  - split.
    + apply Hpush; vm_compute; congruence.
    + apply (Hpop 8); vm_compute; congruence.
Defined.

Lemma dispatch_IRET_restores_witness :
  exists s1 s2,
    check_interrupts pending_timer = (s1, inr tt) /\
    _program_counter s1 = 247 /\
    _old_IM s1 = Some 1 /\
    fetch_execute pending_timer = (s2, inr tt) /\
    (forall i, 0 <= i < IM_REG ->
               getitem (_reg s2) i = getitem (_reg pending_timer) i) /\
    getitem (_reg s2) IM_REG = inr 1 /\
    getitem (_reg s2) IS_REG = inr (Z.clearbit 1 0) /\
    getitem (_reg s2) SP_REG = inr 244 /\
    _flags s2 = _flags pending_timer /\
    _program_counter s2 = _program_counter pending_timer.
Proof.
  apply (dispatch_IRET_restores pending_timer 0 1 1 244 247);
    try (vm_compute; reflexivity).
  - apply well_formedb_ok; vm_compute; reflexivity.
  - vm_compute. split; congruence.
  - intros k Hk. lia.
  - vm_compute. congruence.
  - right. reflexivity.
Defined.

(** C2, as the specification words it, fails: at the top of the second
    cycle of [timer_program] the interrupt-state register R6 holds 1; the
    cycle dispatches line 0 to the null handler, whose IRET returns, and
    R6 then holds 0, not its value before the dispatch. *)
Lemma dispatch_IRET_pending_bit_counterexample :
  exists s2,
    fetch_execute pending_timer = (s2, inr tt) /\
    _instruction_register s2 = IRET_OPCODE /\
    getitem (_reg pending_timer) IS_REG = inr 1 /\
    getitem (_reg s2) IS_REG = inr 0 /\
    getitem (_reg s2) IS_REG <> getitem (_reg pending_timer) IS_REG.
Proof.
  eexists.
  split; [vm_compute; reflexivity|].
  split; [vm_compute; reflexivity|].
  split; [vm_compute; reflexivity|].
  split; [vm_compute; reflexivity|].
  vm_compute. congruence.
Qed.

(** ** Methods keep an invariant *)

Section Invariant.
Variable Inv : CPU -> Prop.
Variable Ex : exception -> Prop.
Hypothesis HI : closed Inv Ex.

Lemma triple_ret {A} (a : A) (Q : A -> Prop) : Q a -> triple Inv Ex (ret a) Q.
Proof. intros Ha s Hs. cbn. auto. Qed.

Lemma triple_raise {A} (e : exception) (Q : A -> Prop) :
  Ex e -> triple Inv Ex (raise e) Q.
Proof. intros He s Hs. cbn. auto. Qed.

Lemma triple_bind {A B} (m : M A) (k : A -> M B) R Q :
  triple Inv Ex m R -> (forall a, R a -> triple Inv Ex (k a) Q) ->
  triple Inv Ex (bind m k) Q.
Proof.
  intros Hm Hk s Hs. unfold bind. specialize (Hm s Hs).
  destruct (m s) as [s' [e|a]]; [exact Hm|].
  destruct Hm as [Hs' Ha]. exact (Hk a Ha s' Hs').
Qed.

Lemma triple_weaken {A} (m : M A) (Q R : A -> Prop) :
  triple Inv Ex m Q -> (forall a, Q a -> R a) -> triple Inv Ex m R.
Proof.
  intros Hm HQ s Hs. specialize (Hm s Hs).
  destruct (m s) as [s' [e|a]]; [exact Hm|]. destruct Hm; auto.
Qed.

Lemma triple_gets {A} (f : CPU -> A) :
  triple Inv Ex (gets f) (fun _ => True).
Proof. intros s Hs. cbn. auto. Qed.

Lemma triple_modify (f : CPU -> CPU) :
  (forall s, Inv s -> Inv (f s)) -> triple Inv Ex (modify f) (fun _ => True).
Proof. intros Hf s Hs. cbn. auto. Qed.

Lemma triple_assert cond msg :
  triple Inv Ex (assert cond msg) (fun _ => cond = true).
Proof.
  intros s Hs. unfold assert. destruct cond; cbn; [auto|].
  split; [exact Hs | apply (closed_assert _ _ HI)].
Qed.

Lemma triple_reg_getitem i :
  0 <= i < REGISTERS -> triple Inv Ex (reg_getitem (Some i)) (fun _ => True).
Proof.
  intros Hi s Hs. destruct (closed_shape _ _ HI s Hs) as [Hlen _].
  destruct (lookup_lt_is_Some_2 (_reg s) (Z.to_nat i)) as [v Hv].
  { rewrite Hlen. change REGISTERS with 8 in *. lia. }
  rewrite (reg_getitem_ok s i v); [auto | lia | exact Hv].
Qed.

Lemma triple_reg_setitem i v :
  0 <= i < REGISTERS -> byte v ->
  triple Inv Ex (reg_setitem (Some i) v) (fun _ => True).
Proof.
  intros Hi Hv s Hs. destruct (closed_shape _ _ HI s Hs) as [Hlen _].
  rewrite reg_setitem_ok.
  - split; [|trivial]. now apply (closed_reg _ _ HI).
  - rewrite Hlen. change REGISTERS with 8 in *. lia.
Qed.

Lemma triple_SP_fget : triple Inv Ex SP_fget (fun _ => True).
Proof. apply triple_reg_getitem. vm_compute. split; congruence. Qed.

Lemma triple_ram_read address : triple Inv Ex (ram_read address) byte.
Proof.
  intros s Hs. destruct (closed_shape _ _ HI s Hs) as [_ Hlen].
  destruct (lookup_lt_is_Some_2 (_ram s) (Z.to_nat (mask address)))
    as [v Hv].
  { rewrite Hlen. pose proof (mask_bounds address).
    change (Z.to_nat MAX_MEM) with 256%nat. lia. }
  rewrite (ram_read_ok s address v Hv). split; [|apply mask_byte].
  apply (closed_MDR _ _ HI), (closed_MAR _ _ HI), Hs.
Qed.

Lemma triple_ram_write address v :
  triple Inv Ex (ram_write address v) (fun _ => True).
Proof.
  intros s Hs. destruct (closed_shape _ _ HI s Hs) as [_ Hlen].
  rewrite (ram_write_ok s address v Hlen). split; [|trivial].
  apply (closed_ram _ _ HI (Z.to_nat (mask address)) (mask v)
           (set_memory_data_register (mask v)
              (set_memory_address_register (mask address) s))).
  - apply mask_byte.
  - apply (closed_MDR _ _ HI), (closed_MAR _ _ HI), Hs.
Qed.

Lemma triple_SP_fset v : triple Inv Ex (SP_fset v) (fun _ => True).
Proof.
  intros s Hs. destruct (closed_shape _ _ HI s Hs) as [Hlen _].
  destruct (SP_fset_cases s v Hlen) as [[_ Ha]|[_ [msg Hr]]].
  - unfold SP_accepted in Ha. rewrite Ha. split; [|trivial].
    apply (closed_reg _ _ HI); [apply mask_byte | exact Hs].
  - rewrite Hr. split; [exact Hs | apply (closed_assert _ _ HI)].
Qed.

Lemma triple_PC_fset v : triple Inv Ex (PC_fset v) (fun _ => True).
Proof.
  intros s Hs. destruct (closed_shape _ _ HI s Hs) as [Hlen _].
  destruct (lookup_lt_is_Some_2 (_reg s) 7) as [sp Hsp].
  { rewrite Hlen. vm_compute. lia. }
  assert (Hg : getitem (_reg s) SP_REG = inr sp).
  { apply getitem_ok; [vm_compute; discriminate | exact Hsp]. }
  destruct (PC_fset_cases s v sp Hg) as [[_ Hok]|[_ [msg Hr]]].
  - rewrite Hok. split; [|trivial].
    apply (closed_PC _ _ HI); [apply mask_byte | exact Hs].
  - rewrite Hr. split; [exact Hs | apply (closed_assert _ _ HI)].
Qed.

Lemma triple_FL_fset v : triple Inv Ex (FL_fset v) (fun _ => True).
Proof.
  apply triple_modify. intros s Hs.
  apply (closed_FL _ _ HI); [apply mask_byte | exact Hs].
Qed.

Lemma triple_IM_fset v : triple Inv Ex (IM_fset v) (fun _ => True).
Proof.
  apply triple_reg_setitem; [vm_compute; split; congruence | apply mask_byte].
Qed.

Lemma triple_IS_fset v : triple Inv Ex (IS_fset v) (fun _ => True).
Proof.
  apply triple_reg_setitem; [vm_compute; split; congruence | apply mask_byte].
Qed.

Lemma triple_SP_iadd n : triple Inv Ex (SP_iadd n) (fun _ => True).
Proof.
  eapply triple_bind; [apply triple_SP_fget|]. intros SP _.
  apply triple_SP_fset.
Qed.

Lemma triple_SP_isub n : triple Inv Ex (SP_isub n) (fun _ => True).
Proof.
  eapply triple_bind; [apply triple_SP_fget|]. intros SP _.
  apply triple_SP_fset.
Qed.

Lemma triple_PC_iadd n : triple Inv Ex (PC_iadd n) (fun _ => True).
Proof.
  eapply triple_bind; [apply triple_gets|]. intros PC _.
  apply triple_PC_fset.
Qed.

Lemma triple_for_each (l : list Z) (body : Z -> M unit) :
  (forall i, In i l -> triple Inv Ex (body i) (fun _ => True)) ->
  triple Inv Ex (for_each l body) (fun _ => True).
Proof.
  induction l as [|i rest IH]; intros Hbody; cbn [for_each].
  - now apply triple_ret.
  - eapply triple_bind; [apply Hbody; now left|].
    intros _ _. apply IH. intros j Hj. apply Hbody. now right.
Qed.

(** [IRET] keeps the invariant up to its last step, the restoring of the
    interrupt mask, which decides how it ends. *)
Lemma triple_IRET (Q : unit -> Prop) :
  triple Inv Ex IM_restore Q -> triple Inv Ex IRET Q.
Proof.
  intros Hlast. unfold IRET.
  eapply triple_bind.
  { apply triple_for_each. intros i Hi.
    eapply triple_bind; [apply triple_SP_fget|]. intros SP _.
    eapply triple_bind; [apply triple_ram_read|]. intros v Hv.
    eapply triple_bind.
    { apply triple_reg_setitem; [|exact Hv].
      change REGISTERS with 8. cbn [In] in Hi. lia. }
    intros _ _. apply triple_SP_iadd. }
  intros _ _.
  eapply triple_bind; [apply triple_SP_fget|]. intros SP _.
  eapply triple_bind; [apply triple_ram_read|]. intros v Hv.
  eapply triple_bind; [apply triple_FL_fset|]. intros _ _.
  eapply triple_bind; [apply triple_SP_iadd|]. intros _ _.
  eapply triple_bind; [apply triple_SP_fget|]. intros SP' _.
  eapply triple_bind; [apply triple_ram_read|]. intros v' Hv'.
  eapply triple_bind; [apply triple_PC_fset|]. intros _ _.
  eapply triple_bind; [apply triple_SP_iadd|]. intros _ _.
  exact Hlast.
Qed.
End Invariant.

(** ** IRET before any dispatch *)

(** C10, as stated, fails: the program that is the single instruction
    IRET, run from the reset state with no interrupt dispatched, ends in
    the assertion failure of the SP setter at the first pop, not in an
    attribute-lookup error. *)
Lemma IRET_assertion_counterexample :
  exists s0 s,
    load iret_program blank = (s0, inr tt) /\
    _old_IM s0 = None /\
    run 1 [] s0 = Raised (AssertionError "stack pointer out of range") s /\
    _instruction_register s = IRET_OPCODE /\
    _old_IM s = None.
Proof.
  do 2 eexists.
  split; [vm_compute; reflexivity|].
  split; [vm_compute; reflexivity|].
  split; [vm_compute; reflexivity|].
  split; vm_compute; reflexivity.
Qed.

(** The attribute-lookup error does occur when the pops pass: after
    [LDI R7,200] the nine pops stay within the stack bounds. *)
Example IRET_attribute_error :
  exists s0 s,
    load iret_deep_program blank = (s0, inr tt) /\
    run 2 [] s0 =
      Raised (AttributeError "'CPU' object has no attribute '_old_IM'") s /\
    getitem (_reg s) SP_REG = inr 209.
Proof.
  do 2 eexists.
  split; [vm_compute; reflexivity|].
  split; vm_compute; reflexivity.
Qed.

(** ** Every method keeps the object well formed *)

Ltac wf_tac :=
  match goal with
  | H : well_formed _ |- well_formed _ =>
      destruct H as [Hrl Hrb Hml Hmb Hpc Hir Hfl Hob];
      constructor; cbn;
      rewrite ?length_insert, ?length_replicate;
      auto using Forall_insert, Forall_replicate
  end.

Lemma wf_closed : closed well_formed (fun _ => True).
Proof.
  constructor; try (intros; wf_tac; fail).
  - intros s Hs. destruct Hs; auto.
  - trivial.
Qed.

Lemma wf_set_running b s : well_formed s -> well_formed (set_running b s).
Proof. intros H. wf_tac. Qed.

Lemma wf_set_dunder_running b s :
  well_formed s -> well_formed (set_dunder_running b s).
Proof. intros H. wf_tac. Qed.

Lemma wf_write_stdout t s : well_formed s -> well_formed (write_stdout t s).
Proof. intros H. wf_tac. Qed.

Lemma wf_set_operand_a v s : well_formed s -> well_formed (set_operand_a v s).
Proof. intros H. wf_tac. Qed.

Lemma wf_set_operand_b o s :
  (forall v, o = Some v -> byte v) ->
  well_formed s -> well_formed (set_operand_b o s).
Proof. intros Ho H. wf_tac. Qed.

Lemma wf_set_instruction_register v s :
  byte v -> well_formed s -> well_formed (set_instruction_register v s).
Proof. intros Hv H. wf_tac. Qed.

Lemma wf_set_old_IM v s : well_formed s -> well_formed (set_old_IM v s).
Proof. intros H. wf_tac. Qed.

Lemma wf_set_reg r s :
  length r = Z.to_nat REGISTERS -> Forall byte r ->
  well_formed s -> well_formed (set_reg r s).
Proof. intros Hl Hb H. wf_tac. Qed.

Lemma wf_set_ram m s :
  length m = Z.to_nat MAX_MEM -> Forall byte m ->
  well_formed s -> well_formed (set_ram m s).
Proof. intros Hl Hb H. wf_tac. Qed.

Lemma wf_new_CPU : well_formed new_CPU.
Proof. apply well_formedb_ok. vm_compute. reflexivity. Qed.

Lemma wf_PC_fget : triple well_formed (fun _ => True) PC_fget (fun _ => True).
Proof. apply triple_gets. Qed.

Lemma wf_IR_fget : triple well_formed (fun _ => True) IR_fget (fun _ => True).
Proof. apply triple_gets. Qed.

Lemma wf_FL_fget : triple well_formed (fun _ => True) FL_fget (fun _ => True).
Proof. apply triple_gets. Qed.

Lemma wf_OP_A_fget :
  triple well_formed (fun _ => True) OP_A_fget (fun _ => True).
Proof. apply triple_gets. Qed.

Lemma wf_OP_B_fget :
  triple well_formed (fun _ => True) OP_B_fget
    (fun o => forall v, o = Some v -> byte v).
Proof. intros s Hs. cbn. split; [exact Hs | apply (wf_OP_B s Hs)]. Qed.

Lemma getitem_byte (l : list Z) i v :
  Forall byte l -> getitem l i = inr v -> byte v.
Proof.
  intros Hl. unfold getitem. destruct (index l i) as [j|]; [|discriminate].
  destruct (l !! j) as [w|] eqn:Hw; [|discriminate].
  intros [= <-]. exact (proj1 (Forall_lookup byte l) Hl j w Hw).
Qed.

Lemma wf_reg_getitem oi :
  triple well_formed (fun _ => True) (reg_getitem oi) byte.
Proof.
  intros s Hs. unfold reg_getitem. destruct oi as [i|]; [|auto].
  destruct (getitem (_reg s) i) as [e|v] eqn:Hg; [auto|].
  split; [exact Hs|]. exact (getitem_byte _ _ _ (wf_reg_bytes s Hs) Hg).
Qed.

Lemma wf_reg_setitem oi v :
  byte v -> triple well_formed (fun _ => True) (reg_setitem oi v)
              (fun _ => True).
Proof.
  intros Hv s Hs. unfold reg_setitem, setitem. destruct oi as [i|]; [|auto].
  destruct (index (_reg s) i) as [j|]; [|auto].
  split; [|trivial]. wf_tac.
Qed.

Lemma wf_print text :
  triple well_formed (fun _ => True) (print text) (fun _ => True).
Proof. apply triple_modify. intros s. apply wf_write_stdout. Qed.

Create HintDb wf_methods.

#[local] Hint Resolve wf_closed mask_byte
  triple_SP_fget triple_ram_read triple_ram_write triple_SP_fset
  triple_PC_fset triple_FL_fset triple_IM_fset triple_IS_fset
  triple_SP_iadd triple_SP_isub triple_PC_iadd triple_assert
  wf_PC_fget wf_IR_fget wf_FL_fget wf_OP_A_fget wf_OP_B_fget
  wf_reg_getitem wf_reg_setitem wf_print : wf_methods.

Ltac chain :=
  unfold keeps_wf;
  repeat first
    [ solve [eauto with wf_methods]
    | apply triple_ret; solve [trivial]
    | apply triple_raise; solve [trivial]
    | eapply triple_bind; [ solve [eauto with wf_methods] | intros ? ? ]
    | match goal with
      | |- triple _ _ (if ?c then _ else _) _ => destruct c
      | |- triple _ _ (match ?o with Some _ => _ | None => _ end) _ =>
          destruct o
      end ];
  try solve [eauto with wf_methods].

Lemma wf_IS_ior v :
  triple well_formed (fun _ => True) (IS_ior v) (fun _ => True).
Proof.
  unfold IS_ior, IS_fget. chain.
Qed.

Lemma wf_jump_to_reg :
  triple well_formed (fun _ => True) jump_to_reg (fun _ => True).
Proof. unfold jump_to_reg. chain. Qed.

Lemma wf_IS_set_bit n :
  triple well_formed (fun _ => True) (IS_set_bit n) (fun _ => True).
Proof.
  unfold IS_set_bit. destruct (n <? 0);
    [now apply triple_raise | apply wf_IS_ior].
Qed.

#[local] Hint Resolve wf_IS_ior wf_IS_set_bit wf_jump_to_reg : wf_methods.

Lemma wf_CALL : keeps_wf CALL.
Proof. unfold CALL. chain. Qed.

Lemma wf_HLT : keeps_wf HLT.
Proof. apply triple_modify. intros s. apply wf_set_running. Qed.

Lemma wf_INT : keeps_wf INT.
Proof. unfold INT. chain. Qed.

Lemma wf_IM_restore : keeps_wf IM_restore.
Proof.
  intros s Hs. unfold IM_restore. destruct (_old_IM s) as [im|]; [|auto].
  apply (triple_IM_fset _ _ wf_closed im s Hs).
Qed.

Lemma wf_IRET : keeps_wf IRET.
Proof. apply (triple_IRET _ _ wf_closed). apply wf_IM_restore. Qed.

Lemma wf_JEQ : keeps_wf JEQ.
Proof. unfold JEQ. chain. Qed.

Lemma wf_JGE : keeps_wf JGE.
Proof. unfold JGE. chain. Qed.

Lemma wf_JGT : keeps_wf JGT.
Proof. unfold JGT. chain. Qed.

Lemma wf_JLE : keeps_wf JLE.
Proof. unfold JLE. chain. Qed.

Lemma wf_JLT : keeps_wf JLT.
Proof. unfold JLT. chain. Qed.

Lemma wf_JMP : keeps_wf JMP.
Proof. apply wf_jump_to_reg. Qed.

Lemma wf_JNE : keeps_wf JNE.
Proof. unfold JNE. chain. Qed.

Lemma wf_assert_register_b :
  triple well_formed (fun _ => True) assert_register_b (fun _ => True).
Proof.
  unfold assert_register_b.
  eapply triple_bind; [apply wf_OP_B_fget|]. intros o Ho.
  destruct o as [b|]; [|now apply triple_raise].
  eapply triple_bind; [apply triple_gets|]. intros n _.
  eapply triple_bind; [apply (triple_assert _ _ wf_closed)|]. intros _ _.
  now apply triple_ret.
Qed.

#[local] Hint Resolve wf_assert_register_b : wf_methods.

Lemma wf_LD : keeps_wf LD.
Proof. unfold LD. chain. Qed.

Lemma wf_LDI : keeps_wf LDI.
Proof. unfold LDI. chain. Qed.

Lemma wf_NOP : keeps_wf NOP.
Proof. unfold NOP. chain. Qed.

Lemma wf_POP : keeps_wf POP.
Proof. unfold POP. chain. Qed.

Lemma wf_PRA : keeps_wf PRA.
Proof.
  unfold PRA, keeps_wf.
  eapply triple_bind; [apply wf_OP_A_fget|]. intros OP_A _.
  eapply triple_bind; [apply wf_reg_getitem|]. intros v _.
  apply (triple_bind _ _ _ _ (fun _ => True)); [|intros _ _; apply wf_print].
  destruct ((v <? 0) || (1114111 <? v));
    [now apply triple_raise | now apply triple_ret].
Qed.

Lemma wf_PRN : keeps_wf PRN.
Proof. unfold PRN. chain. Qed.

Lemma wf_PUSH : keeps_wf PUSH.
Proof. unfold PUSH. chain. Qed.

Lemma wf_RET : keeps_wf RET.
Proof. unfold RET. chain. Qed.

Lemma wf_ST : keeps_wf ST.
Proof. unfold ST. chain. Qed.

(** [reg[i] = v; reg[i] &= MAX_MEM - 1]: the unmasked value is never
    seen, since nothing can fail between the two statements. *)
Lemma masked_write_eq oi v s :
  (reg_setitem oi v ;;
   r <- reg_getitem oi ;;
   reg_setitem oi (Z.land r (MAX_MEM - 1))) s =
  match oi with
  | None => (s, inl TypeError)
  | Some i =>
      match index (_reg s) i with
      | Some j => (set_reg (<[j := mask v]> (_reg s)) s, inr tt)
      | None => (s, inl IndexError)
      end
  end.
Proof.
  unfold bind, reg_setitem, reg_getitem, setitem, getitem.
  destruct oi as [i|]; [|reflexivity].
  destruct (index (_reg s) i) as [j|] eqn:Hj; [|reflexivity].
  cbn [_reg set_reg].
  assert (Hj' : index (<[j := v]> (_reg s)) i = Some j).
  { unfold index in *. now rewrite length_insert. }
  rewrite Hj'.
  assert (Hlt : (j < length (_reg s))%nat).
  { unfold index in Hj.
    destruct ((0 <=? (if i <? 0 then i + Z.of_nat (length (_reg s)) else i))
              && ((if i <? 0 then i + Z.of_nat (length (_reg s)) else i)
                  <? Z.of_nat (length (_reg s)))) eqn:Hc; [|discriminate].
    apply andb_true_iff in Hc. destruct Hc as [Hc1 Hc2].
    apply Z.leb_le in Hc1. apply Z.ltb_lt in Hc2.
    injection Hj as <-. lia. }
  rewrite list_lookup_insert_eq by exact Hlt.
  cbn [_reg set_reg]. rewrite list_insert_insert_eq. reflexivity.
Qed.

Lemma wf_masked_write oi v :
  triple well_formed (fun _ => True)
    (reg_setitem oi v ;;
     r <- reg_getitem oi ;;
     reg_setitem oi (Z.land r (MAX_MEM - 1)))
    (fun _ => True).
Proof.
  intros s Hs. rewrite masked_write_eq.
  destruct oi as [i|]; [|auto].
  destruct (index (_reg s) i) as [j|]; [|auto].
  split; [|trivial]. pose proof (mask_byte v). wf_tac.
Qed.

#[local] Hint Resolve wf_masked_write : wf_methods.

Lemma wf_ADDI : keeps_wf ADDI.
Proof.
  unfold ADDI, keeps_wf.
  eapply triple_bind; [apply wf_OP_A_fget|]. intros OP_A _.
  eapply triple_bind; [apply wf_reg_getitem|]. intros x _.
  eapply triple_bind; [apply wf_OP_B_fget|]. intros OP_B _.
  destruct OP_B as [imm|]; [|now apply triple_raise].
  apply wf_masked_write.
Qed.

Ltac wf_handler :=
  solve [ auto using wf_CALL, wf_HLT, wf_INT, wf_IRET, wf_JEQ, wf_JGE,
            wf_JGT, wf_JLE, wf_JLT, wf_JMP, wf_JNE, wf_LD, wf_LDI, wf_NOP,
            wf_POP, wf_PRA, wf_PRN, wf_PUSH, wf_RET, wf_ST, wf_ADDI ].

Lemma wf_OPCODES code handler :
  OPCODES code = Some handler -> keeps_wf handler.
Proof.
  intros H. unfold OPCODES in H.
  destruct code as [|p|p]; try discriminate H;
    [ injection H as <-; wf_handler | ].
  do 8 (try (destruct p as [p|p|]; try discriminate H));
    injection H as <-; wf_handler.
Qed.

Lemma wf_alu_try op reg_a reg_b : keeps_wf (alu_try op reg_a reg_b).
Proof.
  unfold alu_try, keeps_wf.
  eapply triple_bind; [apply wf_reg_getitem|]. intros x _.
  apply (triple_bind _ _ _ _ (fun _ => True)).
  { destruct reg_b as [b|]; [|now apply triple_ret].
    eapply triple_bind; [apply wf_reg_getitem|]. intros v _.
    now apply triple_ret. }
  intros y _. destruct (ALU_OP op) as [f|]; [|now apply triple_raise].
  apply (triple_bind _ _ _ _ (fun _ => True)).
  { intros s Hs. unfold lift. destruct (f x y); auto. }
  intros result _. destruct (String.eqb op "CMP").
  - apply (triple_FL_fset _ _ wf_closed).
  - apply wf_masked_write.
Qed.

Lemma wf_alu op reg_a reg_b : keeps_wf (alu op reg_a reg_b).
Proof.
  intros s Hs. unfold alu, try_except.
  pose proof (wf_alu_try op reg_a reg_b s Hs) as Hbody.
  destruct (alu_try op reg_a reg_b s) as [s' [e|[]]]; [|exact Hbody].
  destruct Hbody as [Hs' _].
  destruct e; cbn; split; trivial.
  apply wf_set_dunder_running, wf_write_stdout, Hs'.
Qed.

Lemma wf_OP_A_fset o :
  triple well_formed (fun _ => True) (OP_A_fset o) (fun _ => True).
Proof.
  unfold OP_A_fset. destruct o as [v|].
  - destruct ((0 <=? mask v) && (mask v <? REGISTERS));
      [|now apply triple_raise].
    apply triple_modify. intros s. apply wf_set_operand_a.
  - apply triple_modify. intros s. apply wf_set_operand_a.
Qed.

Lemma wf_OP_B_fset o :
  triple well_formed (fun _ => True) (OP_B_fset o) (fun _ => True).
Proof.
  unfold OP_B_fset. destruct o as [v|].
  - eapply triple_bind; [apply wf_IR_fget|]. intros IR _.
    destruct (mask v <? (if Z.land IR ALU_MASK =? 0 then MAX_MEM
                         else REGISTERS));
      [|now apply triple_raise].
    apply triple_modify. intros s. apply wf_set_operand_b.
    intros w [= <-]. apply mask_byte.
  - apply triple_modify. intros s. apply wf_set_operand_b. discriminate.
Qed.

#[local] Hint Resolve wf_OP_A_fset wf_OP_B_fset : wf_methods.

Lemma wf_IR_fset value : keeps_wf (IR_fset value).
Proof.
  unfold IR_fset, keeps_wf.
  apply (triple_bind _ _ _ _ (fun _ => True)).
  { destruct (is_opcode (mask value)); [now apply triple_ret|].
    eapply triple_bind; [apply wf_PC_fget|]. intros PC _.
    now apply triple_raise. }
  intros _ _.
  apply (triple_bind _ _ _ _ (fun _ => True)).
  { apply triple_modify. intros s.
    apply wf_set_instruction_register, mask_byte. }
  intros _ _.
  destruct (negb (Z.land (mask value) (Z.shiftl 1 (BITS - 2)) =? 0)).
  - chain.
  - destruct (negb (Z.land (mask value) (Z.shiftl 1 (BITS - 1)) =? 0));
      chain.
Qed.

Lemma wf_execute : keeps_wf execute.
Proof.
  unfold execute, keeps_wf.
  eapply triple_bind; [apply wf_IR_fget|]. intros IR _.
  destruct (negb (Z.land IR ALU_MASK =? 0)).
  - destruct (ALU IR) as [op|]; [|now apply triple_raise].
    eapply triple_bind; [apply wf_OP_A_fget|]. intros OP_A _.
    eapply triple_bind; [apply wf_OP_B_fget|]. intros OP_B _.
    apply wf_alu.
  - destruct (OPCODES IR) as [handler|] eqn:Hh; [|now apply triple_raise].
    exact (wf_OPCODES IR handler Hh).
Qed.

Lemma wf_advance : keeps_wf advance.
Proof. unfold advance. chain. Qed.

Lemma wf_interrupt n : keeps_wf (interrupt n).
Proof. unfold interrupt. chain. Qed.

Lemma wf_dispatch n : keeps_wf (dispatch n).
Proof.
  unfold dispatch, keeps_wf.
  eapply triple_bind; [apply wf_reg_getitem|]. intros IM _.
  apply (triple_bind _ _ _ _ (fun _ => True)).
  { apply triple_modify. intros s. apply wf_set_old_IM. }
  intros _ _.
  eapply triple_bind; [apply (triple_IM_fset _ _ wf_closed)|]. intros _ _.
  eapply triple_bind; [apply wf_reg_getitem|]. intros IS _.
  eapply triple_bind; [apply (triple_IS_fset _ _ wf_closed)|]. intros _ _.
  eapply triple_bind; [apply (triple_SP_isub _ _ wf_closed)|]. intros _ _.
  eapply triple_bind; [apply (triple_SP_fget _ _ wf_closed)|]. intros SP _.
  eapply triple_bind; [apply wf_PC_fget|]. intros PC _.
  eapply triple_bind; [apply (triple_ram_write _ _ wf_closed)|]. intros _ _.
  eapply triple_bind; [apply (triple_SP_isub _ _ wf_closed)|]. intros _ _.
  eapply triple_bind; [apply (triple_SP_fget _ _ wf_closed)|]. intros SP' _.
  eapply triple_bind; [apply wf_FL_fget|]. intros FL _.
  eapply triple_bind; [apply (triple_ram_write _ _ wf_closed)|]. intros _ _.
  eapply triple_bind.
  { apply triple_for_each. intros i _. chain. }
  intros _ _.
  apply (triple_bind _ _ _ _ (fun _ => True)).
  { intros s Hs. destruct (getitem (_ram s) (MAX_MEM - INTERRUPTS + n)); auto. }
  intros handler _. apply (triple_PC_fset _ _ wf_closed).
Qed.

Lemma wf_first_interrupt masked l : keeps_wf (first_interrupt masked l).
Proof.
  induction l as [|n rest IH]; cbn [first_interrupt].
  - unfold keeps_wf. now apply triple_ret.
  - destruct (negb (Z.land masked (Z.shiftl 1 n) =? 0));
      [apply wf_dispatch | exact IH].
Qed.

Lemma wf_check_interrupts : keeps_wf check_interrupts.
Proof.
  unfold check_interrupts, keeps_wf.
  eapply triple_bind; [apply wf_reg_getitem|]. intros IM _.
  eapply triple_bind; [apply wf_reg_getitem|]. intros IS _.
  apply wf_first_interrupt.
Qed.

Lemma wf_fetch_execute : keeps_wf fetch_execute.
Proof.
  unfold fetch_execute, keeps_wf.
  eapply triple_bind; [apply wf_check_interrupts|]. intros _ _.
  eapply triple_bind; [apply wf_PC_fget|]. intros PC _.
  eapply triple_bind; [apply (triple_ram_read _ _ wf_closed)|].
  intros opcode _.
  eapply triple_bind; [apply wf_IR_fset|]. intros _ _.
  eapply triple_bind; [apply wf_execute|]. intros _ _.
  apply wf_advance.
Qed.

Lemma wf_cycle d : keeps_wf (cycle d).
Proof.
  unfold cycle, keeps_wf.
  apply (triple_bind _ _ _ _ (fun _ => True)).
  { destruct (timer_elapsed d); [apply wf_interrupt | now apply triple_ret]. }
  intros _ _. destruct (keypress d) as [c|]; [|apply wf_fetch_execute].
  destruct (c =? 27).
  - apply triple_modify. intros s. apply wf_set_running.
  - eapply triple_bind; [apply (triple_ram_write _ _ wf_closed)|].
    intros _ _.
    eapply triple_bind; [apply wf_interrupt|]. intros _ _.
    apply wf_fetch_execute.
Qed.

Lemma wf_while_running fuel devices s :
  well_formed s -> well_formed (final_state (while_running fuel devices s)).
Proof.
  revert devices s. induction fuel as [|fuel IH]; intros devices s Hs;
    cbn [while_running]; destruct (_running s); try exact Hs.
  pose proof (wf_cycle (hd quiet devices) s Hs) as Hc.
  destruct (cycle (hd quiet devices) s) as [s' [e|[]]].
  - exact (proj1 Hc).
  - apply IH. exact (proj1 Hc).
Qed.

(** ** IRET on a full frame *)

(** With nine bytes [m0 .. m8] on the stack from SP upwards, IRET run by
    the loop (IR holds its opcode) loads R6..R0 from the first seven, FL
    and PC from the next two, moves SP up by nine and restores the
    interrupt mask saved by the last dispatch. *)
Lemma IRET_ok (s : CPU) (sp im m0 m1 m2 m3 m4 m5 m6 m7 m8 : Z) :
  length (_reg s) = Z.to_nat REGISTERS ->
  length (_ram s) = Z.to_nat MAX_MEM ->
  _reg s !! 7%nat = Some sp ->
  _instruction_register s = IRET_OPCODE ->
  _old_IM s = Some im ->
  0 <= sp -> sp + 9 <= STACK_BASE ->
  _program_counter s < sp + 1 \/ _program_counter s = NULL_INTERRUPT ->
  _ram s !! Z.to_nat sp = Some m0 ->
  _ram s !! Z.to_nat (sp + 1) = Some m1 ->
  _ram s !! Z.to_nat (sp + 2) = Some m2 ->
  _ram s !! Z.to_nat (sp + 3) = Some m3 ->
  _ram s !! Z.to_nat (sp + 4) = Some m4 ->
  _ram s !! Z.to_nat (sp + 5) = Some m5 ->
  _ram s !! Z.to_nat (sp + 6) = Some m6 ->
  _ram s !! Z.to_nat (sp + 7) = Some m7 ->
  _ram s !! Z.to_nat (sp + 8) = Some m8 ->
  mask m8 < sp + 8 \/ mask m8 = NULL_INTERRUPT ->
  exists s',
    IRET s = (s', inr tt) /\
    _reg s' = [mask m6; mask m5; mask m4; mask m3; mask m2; mask im;
               mask m0; sp + 9] /\
    _flags s' = mask m7 /\
    _program_counter s' = mask m8 /\
    _ram s' = _ram s /\
    _instruction_register s' = IRET_OPCODE.
Proof.
  intros Hlen Hram Hsp Hir Hold Hsp0 Hsp9 Hpc H0 H1 H2 H3 H4 H5 H6 H7 H8 Hm8.
  destruct s as [run drun regs pc ir mar mdr fl opa opb ram old out].
  cbn [_reg _ram _program_counter _instruction_register _old_IM] in *.
  destruct regs as [|r0 [|r1 [|r2 [|r3 [|r4 [|r5 [|r6 [|r7 [|]]]]]]]]];
    try discriminate Hlen.
  cbn in Hsp. injection Hsp as ->. subst ir old.
  pose proof (mask_bounds m8) as Bm8.
  consts.
  assert (Hx : forall k, sp + 1 + k = sp + (1 + k)) by (intros; lia).
  match goal with
  | |- exists s', IRET ?S = _ /\ _ => eassert (Hf : IRET S = (_, inr tt))
  end.
  { unfold IRET.
    eapply bind_step.
    { repeat (eapply for_each_step;
        [ cbv beta; eapply pop_ok;
          [ regs; reflexivity
          | regs; exact Hram
          | regs; reflexivity
          | arith
          | arith
          | proj;
            first [ exact H0
                  | replace (sp + 1) with (sp + 1) by lia; eassumption
                  | match goal with
                    | |- _ !! Z.to_nat ?e = _ =>
                        first
                          [ replace e with (sp + 2) by lia; exact H2
                          | replace e with (sp + 3) by lia; exact H3
                          | replace e with (sp + 4) by lia; exact H4
                          | replace e with (sp + 5) by lia; exact H5
                          | replace e with (sp + 6) by lia; exact H6 ]
                    end ]
          | arith
          | proj; change (Z.shiftr 19 6) with 0; arith ]
        | ]).
      reflexivity. }
    eapply bind_step; [apply SP_fget_ok; regs; reflexivity|].
    eapply bind_step.
    { apply ram_read_ok. rewrite mask_small by arith. proj.
      match goal with
      | |- _ !! Z.to_nat ?e = _ => replace e with (sp + 7) by lia
      end. exact H7. }
    eapply bind_step; [reflexivity|].
    eapply bind_step.
    { eapply SP_iadd_ok;
        [ regs; reflexivity | regs; reflexivity | arith
        | proj; change (Z.shiftr 19 6) with 0; arith ]. }
    eapply bind_step; [apply SP_fget_ok; regs; reflexivity|].
    eapply bind_step.
    { apply ram_read_ok. rewrite mask_small by arith. proj.
      match goal with
      | |- _ !! Z.to_nat ?e = _ => replace e with (sp + 8) by lia
      end. exact H8. }
    eapply bind_step.
    { eapply PC_fset_ok; [regs; reflexivity|].
      rewrite !(mask_small (mask m8)) by lia. arith. }
    eapply bind_step.
    { eapply SP_iadd_ok;
        [ regs; reflexivity | regs; reflexivity | arith
        | proj; change (Z.shiftr 19 6) with 0;
          rewrite !(mask_small (mask m8)) by lia; arith ]. }
    unfold IM_restore. proj. unfold IM_fset.
    apply reg_setitem_ok. regs. vm_compute. split; congruence. }
  eexists. split; [exact Hf|]. regs.
  repeat match goal with
         | |- context [mask (mask ?x)] =>
             rewrite (mask_small (mask x)) by apply mask_bounds
         end.
  split; [do 7 apply f_equal; apply (f_equal (fun x => [x])); lia|].
  repeat split; reflexivity.
Qed.

(** ** Register writes *)

Lemma alu_write_eq s op a reg_b x y f r :
  0 <= a < Z.of_nat (length (_reg s)) ->
  getitem (_reg s) a = inr x ->
  operand_b_value s reg_b y ->
  ALU_OP op = Some f ->
  f x y = inr r ->
  String.eqb op "CMP" = false ->
  alu op (Some a) reg_b s =
    (set_reg (<[Z.to_nat a := mask r]> (_reg s)) s, inr tt).
Proof.
  intros Ha Hx Hy Hf Hr Hcmp.
  assert (Hbody : alu_try op (Some a) reg_b s =
            (set_reg (<[Z.to_nat a := mask r]> (_reg s)) s, inr tt)).
  { unfold alu_try.
    eapply bind_step; [unfold reg_getitem; rewrite Hx; reflexivity|].
    eapply bind_step with (a := y) (s' := s).
    { destruct reg_b as [b|]; cbn in Hy.
      - destruct Hy as (v & Hv & ->). unfold bind, reg_getitem, ret.
        now rewrite Hv.
      - subst y. reflexivity. }
    rewrite Hf.
    eapply bind_step; [unfold lift; rewrite Hr; reflexivity|].
    rewrite Hcmp. rewrite masked_write_eq, index_ok by exact Ha.
    reflexivity. }
  unfold alu, try_except. now rewrite Hbody.
Qed.

Lemma mask_lnot x : mask (Z.lnot x) = (2 ^ BITS - 1 - x) mod 2 ^ BITS.
Proof.
  rewrite mask_mod. change (2 ^ BITS) with 256.
  replace (256 - 1 - x) with (Z.lnot x + 1 * 256)
    by (unfold Z.lnot; lia).
  now rewrite Z_mod_plus_full.
Qed.

(** What the table [ALU_OP] computes, masked, is the specified result
    reduced modulo the word. *)
Lemma ALU_OP_specified op x y r :
  (forall v, y = Some v -> 0 <= v) ->
  alu_specified op x y = Some r ->
  exists f r0,
    ALU_OP op = Some f /\ f x y = inr r0 /\
    String.eqb op "CMP" = false /\ mask r0 = r mod 2 ^ BITS.
Proof.
  intros Hy H. unfold alu_specified in H.
  destruct y as [y|].
  - specialize (Hy y eq_refl).
    repeat match type of H with
           | (if String.eqb op ?name then _ else _) = _ =>
               destruct (String.eqb_spec op name) as [->|_]
           end; try discriminate H;
      try (injection H as <-; do 2 eexists;
           split; [reflexivity|]; split; [reflexivity|];
           split; [reflexivity|]; apply mask_mod).
    + destruct (Z.eqb_spec y 0) as [->|Hne]; [discriminate|].
      injection H as <-. do 2 eexists.
      split; [reflexivity|]. cbn [with_y].
      destruct (Z.eqb_spec y 0); [contradiction|].
      split; [reflexivity|]. split; [reflexivity|]. apply mask_mod.
    + destruct (Z.eqb_spec y 0) as [->|Hne]; [discriminate|].
      injection H as <-. do 2 eexists.
      split; [reflexivity|]. cbn [with_y].
      destruct (Z.eqb_spec y 0); [contradiction|].
      split; [reflexivity|]. split; [reflexivity|]. apply mask_mod.
    + injection H as <-. do 2 eexists.
      split; [reflexivity|]. cbn [with_y].
      destruct (Z.ltb_spec y 0); [lia|].
      split; [reflexivity|]. split; [reflexivity|].
      rewrite Z.shiftl_mul_pow2 by exact Hy. apply mask_mod.
    + injection H as <-. do 2 eexists.
      split; [reflexivity|]. cbn [with_y].
      destruct (Z.ltb_spec y 0); [lia|].
      split; [reflexivity|]. split; [reflexivity|].
      rewrite Z.shiftr_div_pow2 by exact Hy. apply mask_mod.
  - repeat match type of H with
           | (if String.eqb op ?name then _ else _) = _ =>
               destruct (String.eqb_spec op name) as [->|_]
           end; try discriminate H;
      injection H as <-; do 2 eexists;
      (split; [reflexivity|]); (split; [reflexivity|]);
      (split; [reflexivity|]);
      first [apply mask_mod | apply mask_lnot].
Qed.

Lemma memory_lookup s address :
  length (_ram s) = Z.to_nat MAX_MEM -> 0 <= address < MAX_MEM ->
  _ram s !! Z.to_nat address = Some (memory s address).
Proof.
  intros Hlen Ha. unfold memory.
  destruct (lookup_lt_is_Some_2 (_ram s) (Z.to_nat address)) as [v Hv].
  { rewrite Hlen. change MAX_MEM with 256 in *. lia. }
  now rewrite Hv.
Qed.

Lemma memory_byte s address :
  well_formed s -> 0 <= address < MAX_MEM -> byte (memory s address).
Proof.
  intros Hwf Ha.
  pose proof (memory_lookup s address (wf_ram_length s Hwf) Ha) as Hl.
  exact (proj1 (Forall_lookup byte _) (wf_ram_bytes s Hwf) _ _ Hl).
Qed.

Lemma mod_word v : v mod 2 ^ BITS = mask v.
Proof. symmetry. apply mask_mod. Qed.

Lemma LDI_eq s a imm :
  well_formed s ->
  _operand_a s = Some a -> 0 <= a < REGISTERS -> _operand_b s = Some imm ->
  LDI s = (set_reg (<[Z.to_nat a := imm mod 2 ^ BITS]> (_reg s)) s, inr tt).
Proof.
  intros Hwf Ha Hr Hb. unfold LDI, bind, OP_B_fget, OP_A_fget, gets.
  rewrite Hb, Ha. rewrite reg_setitem_ok.
  - rewrite mod_word, mask_small; [reflexivity|]. exact (wf_OP_B s Hwf imm Hb).
  - rewrite (wf_reg_length s Hwf). arith.
Qed.

Lemma LD_eq s a b address :
  well_formed s ->
  _operand_a s = Some a -> 0 <= a < REGISTERS ->
  _operand_b s = Some b -> 0 <= b < REGISTERS ->
  getitem (_reg s) b = inr address ->
  exists s',
    LD s = (s', inr tt) /\
    _reg s' = <[Z.to_nat a := memory s address mod 2 ^ BITS]> (_reg s).
Proof.
  intros Hwf Ha Hra Hb Hrb Hg.
  pose proof (getitem_byte _ _ _ (wf_reg_bytes s Hwf) Hg) as Baddr.
  eexists. split.
  - unfold LD.
    eapply bind_step with (a := b) (s' := s).
    { unfold assert_register_b, bind, OP_B_fget, gets, assert, ret.
      rewrite Hb, (wf_reg_length s Hwf).
      change (Z.of_nat (Z.to_nat REGISTERS)) with 8.
      destruct (Z.geb_spec b 0); [|lia].
      destruct (Z.ltb_spec b 8); [reflexivity | arith]. }
    eapply bind_step; [unfold reg_getitem; rewrite Hg; reflexivity|].
    eapply bind_step.
    { apply ram_read_ok. rewrite mask_small by exact Baddr.
      apply memory_lookup; [apply (wf_ram_length s Hwf) | exact Baddr]. }
    unfold bind at 1, OP_A_fget, gets. proj. rewrite Ha.
    apply reg_setitem_ok. proj. rewrite (wf_reg_length s Hwf). arith.
  - proj. now rewrite mod_word.
Qed.

Lemma ADDI_eq s a imm x :
  well_formed s ->
  _operand_a s = Some a -> 0 <= a < REGISTERS ->
  _operand_b s = Some imm ->
  getitem (_reg s) a = inr x ->
  ADDI s =
    (set_reg (<[Z.to_nat a := (x + imm) mod 2 ^ BITS]> (_reg s)) s, inr tt).
Proof.
  intros Hwf Ha Hr Hb Hx. unfold ADDI.
  unfold bind at 1, OP_A_fget, gets. rewrite Ha.
  eapply bind_step; [unfold reg_getitem; rewrite Hx; reflexivity|].
  unfold bind at 1, OP_B_fget, gets. rewrite Hb.
  change (Z.shiftl 1 BITS - 1) with (MAX_MEM - 1).
  rewrite masked_write_eq, index_ok, mod_word; [reflexivity|].
  rewrite (wf_reg_length s Hwf). arith.
Qed.

Lemma POP_eq s a sp sp' :
  well_formed s ->
  _operand_a s = Some a -> 0 <= a < REGISTERS ->
  getitem (_reg s) SP_REG = inr sp ->
  getitem (<[Z.to_nat a := memory s sp mod 2 ^ BITS]> (_reg s)) SP_REG
    = inr sp' ->
  sp' + 1 <= STACK_BASE ->
  _program_counter s + Z.shiftr (_instruction_register s) 6 < sp' + 1 ->
  exists s',
    POP s = (s', inr tt) /\
    _reg s' = <[7%nat := sp' + 1]>
                (<[Z.to_nat a := memory s sp mod 2 ^ BITS]> (_reg s)).
Proof.
  intros Hwf Ha Hr Hsp Hsp' Htop Hpc.
  pose proof (getitem_byte _ _ _ (wf_reg_bytes s Hwf) Hsp) as Bsp.
  rewrite mod_word in *.
  assert (Bsp' : 0 <= sp').
  { assert (Hb : byte sp'); [|exact (proj1 Hb)].
    apply (getitem_byte _ _ _ (Forall_insert _ _ _ _ (wf_reg_bytes s Hwf) (mask_byte (memory s sp))) Hsp'). }
  eexists. split.
  - apply (POP_ok s a sp (memory s sp) sp'); try assumption.
    + apply (wf_reg_length s Hwf).
    + apply (lookup_getitem _ SP_REG); [exact Hsp | arith].
    + apply memory_lookup; [apply (wf_ram_length s Hwf) | exact Bsp].
    + apply (lookup_getitem _ SP_REG); [exact Hsp' | arith].
    + arith.
    + left. exact Hpc.
  - reflexivity.
Qed.

Lemma IRET_eq s sp im :
  well_formed s ->
  getitem (_reg s) SP_REG = inr sp ->
  _instruction_register s = IRET_OPCODE ->
  _old_IM s = Some im ->
  sp + 9 <= STACK_BASE ->
  _program_counter s < sp + 1 \/ _program_counter s = NULL_INTERRUPT ->
  memory s (sp + 8) < sp + 8 \/ memory s (sp + 8) = NULL_INTERRUPT ->
  exists s',
    IRET s = (s', inr tt) /\
    _reg s' = [memory s (sp + 6) mod 2 ^ BITS; memory s (sp + 5) mod 2 ^ BITS;
               memory s (sp + 4) mod 2 ^ BITS; memory s (sp + 3) mod 2 ^ BITS;
               memory s (sp + 2) mod 2 ^ BITS; im mod 2 ^ BITS;
               memory s sp mod 2 ^ BITS; sp + 9].
Proof.
  intros Hwf Hsp Hir Hold Htop Hpc Hm8.
  pose proof (getitem_byte _ _ _ (wf_reg_bytes s Hwf) Hsp) as Bsp.
  pose proof (wf_ram_length s Hwf) as Hram.
  assert (Hin : forall k, 0 <= k <= 8 -> 0 <= sp + k < MAX_MEM)
    by (unfold byte in Bsp; arith).
  pose proof (memory_byte s (sp + 8) Hwf (Hin 8 ltac:(lia))) as B8.
  destruct (IRET_ok s sp im (memory s sp) (memory s (sp + 1))
              (memory s (sp + 2)) (memory s (sp + 3)) (memory s (sp + 4))
              (memory s (sp + 5)) (memory s (sp + 6)) (memory s (sp + 7))
              (memory s (sp + 8)))
    as (s' & Hrun & Hreg & _);
    try first
      [ assumption
      | apply memory_lookup; [exact Hram | apply Hin; lia]
      | apply memory_lookup;
        [exact Hram | replace sp with (sp + 0) by lia; apply Hin; lia]
      | apply (wf_reg_length s Hwf)
      | apply (lookup_getitem _ SP_REG); [exact Hsp | arith]
      | exact (proj1 Bsp)
      | rewrite mask_small by exact B8; exact Hm8 ].
  exists s'. split; [exact Hrun|]. rewrite !mod_word. exact Hreg.
Qed.

(** C8. On a well-formed object every instruction that writes a register
    stores the specified result reduced modulo 2^BITS: the ALU operations
    other than CMP, LDI, LD, ADDI, POP and IRET; and every register is a
    word after every cycle of the loop and at the end of every run,
    however the cycle or the run ends. *)
Theorem register_writes_are_words (s : CPU) (Hwf : well_formed s) :
  (forall op a reg_b x y r,
     0 <= a < REGISTERS ->
     getitem (_reg s) a = inr x ->
     operand_b_value s reg_b y ->
     alu_specified op x y = Some r ->
     alu op (Some a) reg_b s =
       (set_reg (<[Z.to_nat a := r mod 2 ^ BITS]> (_reg s)) s, inr tt)) /\
  (forall a imm,
     _operand_a s = Some a -> 0 <= a < REGISTERS ->
     _operand_b s = Some imm ->
     LDI s =
       (set_reg (<[Z.to_nat a := imm mod 2 ^ BITS]> (_reg s)) s, inr tt)) /\
  (forall a b address,
     _operand_a s = Some a -> 0 <= a < REGISTERS ->
     _operand_b s = Some b -> 0 <= b < REGISTERS ->
     getitem (_reg s) b = inr address ->
     exists s',
       LD s = (s', inr tt) /\
       _reg s' = <[Z.to_nat a := memory s address mod 2 ^ BITS]> (_reg s)) /\
  (forall a imm x,
     _operand_a s = Some a -> 0 <= a < REGISTERS ->
     _operand_b s = Some imm ->
     getitem (_reg s) a = inr x ->
     ADDI s =
       (set_reg (<[Z.to_nat a := (x + imm) mod 2 ^ BITS]> (_reg s)) s,
        inr tt)) /\
  (forall a sp sp',
     _operand_a s = Some a -> 0 <= a < REGISTERS ->
     getitem (_reg s) SP_REG = inr sp ->
     getitem (<[Z.to_nat a := memory s sp mod 2 ^ BITS]> (_reg s)) SP_REG
       = inr sp' ->
     sp' + 1 <= STACK_BASE ->
     _program_counter s + Z.shiftr (_instruction_register s) 6 < sp' + 1 ->
     exists s',
       POP s = (s', inr tt) /\
       _reg s' = <[7%nat := sp' + 1]>
                   (<[Z.to_nat a := memory s sp mod 2 ^ BITS]> (_reg s))) /\
  (forall sp im,
     getitem (_reg s) SP_REG = inr sp ->
     _instruction_register s = IRET_OPCODE ->
     _old_IM s = Some im ->
     sp + 9 <= STACK_BASE ->
     _program_counter s < sp + 1 \/ _program_counter s = NULL_INTERRUPT ->
     memory s (sp + 8) < sp + 8 \/ memory s (sp + 8) = NULL_INTERRUPT ->
     exists s',
       IRET s = (s', inr tt) /\
       _reg s' =
         [memory s (sp + 6) mod 2 ^ BITS; memory s (sp + 5) mod 2 ^ BITS;
          memory s (sp + 4) mod 2 ^ BITS; memory s (sp + 3) mod 2 ^ BITS;
          memory s (sp + 2) mod 2 ^ BITS; im mod 2 ^ BITS;
          memory s sp mod 2 ^ BITS; sp + 9]) /\
  (forall d, Forall byte (_reg (fst (cycle d s)))) /\
  (forall fuel devices,
     Forall byte (_reg (final_state (run fuel devices s)))).
Proof.
  split.
  { intros op a reg_b x y r Ha Hx Hy Hspec.
    destruct (ALU_OP_specified op x y r) as (f & r0 & Hf & Hr & Hcmp & Hm).
    - intros v ->. destruct reg_b as [b|]; cbn in Hy.
      + destruct Hy as (w & Hw & [= <-]).
        exact (proj1 (getitem_byte _ _ _ (wf_reg_bytes s Hwf) Hw)).
      + discriminate Hy.
    - exact Hspec.
    - rewrite <- Hm. apply (alu_write_eq s op a reg_b x y f r0);
        try assumption.
      rewrite (wf_reg_length s Hwf). arith. }
  split; [intros; now apply LDI_eq|].
  split; [intros a b address ? ? ? ? ?; now apply (LD_eq s a b address)|].
  split; [intros; now apply ADDI_eq|].
  split; [intros; now apply (POP_eq s a sp sp')|].
  split; [intros; now apply IRET_eq|].
  split.
  - intros d. pose proof (wf_cycle d s Hwf) as H.
    destruct (cycle d s) as [s' [e|[]]]; apply wf_reg_bytes, H.
  - intros fuel devices. apply wf_reg_bytes. unfold run.
    apply wf_while_running, wf_set_running, Hwf.
Qed.

Lemma register_writes_are_words_witness :
  alu "ADD" (Some 0) (Some 1) adding =
    (set_reg (<[Z.to_nat 0 := (8 + 9) mod 2 ^ BITS]> (_reg adding)) adding,
     inr tt) /\
  alu "NOT" (Some 0) None adding =
    (set_reg (<[Z.to_nat 0 := (2 ^ BITS - 1 - 8) mod 2 ^ BITS]>
                (_reg adding)) adding, inr tt) /\
  ADDI adding =
    (set_reg (<[Z.to_nat 0 := (8 + 250) mod 2 ^ BITS]> (_reg adding)) adding,
     inr tt) /\
  Forall byte (_reg (fst (cycle quiet adding))) /\
  (exists s',
     IRET returning = (s', inr tt) /\
     _reg s' =
       [memory returning (235 + 6) mod 2 ^ BITS;
        memory returning (235 + 5) mod 2 ^ BITS;
        memory returning (235 + 4) mod 2 ^ BITS;
        memory returning (235 + 3) mod 2 ^ BITS;
        memory returning (235 + 2) mod 2 ^ BITS; 1 mod 2 ^ BITS;
        memory returning 235 mod 2 ^ BITS; 235 + 9]).
Proof.
  assert (Hwf : well_formed adding)
    by (apply well_formedb_ok; vm_compute; reflexivity).
  assert (Hwf' : well_formed returning)
    by (apply well_formedb_ok; vm_compute; reflexivity).
  destruct (register_writes_are_words adding Hwf)
    as (Halu & _ & _ & Haddi & _ & _ & Hcycle & _).
  destruct (register_writes_are_words returning Hwf')
    as (_ & _ & _ & _ & _ & Hiret & _).
  split.
  { apply (Halu "ADD"%string 0 (Some 1) 8 (Some 9)); try reflexivity.
    - vm_compute. split; congruence.
    - exists 9. split; reflexivity. }
  split.
  { apply (Halu "NOT"%string 0 None 8 None); try reflexivity.
    vm_compute. split; congruence. }
  split.
  { apply (Haddi 0 250 8); try reflexivity. vm_compute. split; congruence. }
  split; [apply Hcycle|].
  apply (Hiret 235 1); try (vm_compute; reflexivity).
  - vm_compute. congruence.
  - right. vm_compute. reflexivity.
  - left. vm_compute. reflexivity.
Defined.

(** ** Loading gives a well-formed object *)

Lemma wf_init s :
  byte (_instruction_register s) ->
  (forall v, _operand_b s = Some v -> byte v) ->
  well_formed (fst (__init__ s)).
Proof.
  intros Hir Hob.
  set (st := set_ram (replicate (Z.to_nat MAX_MEM) 0)
               (set_flags 0 (set_program_counter 0
                  (set_reg [0; 0; 0; 0; 0; 0; 0; STACK_BASE]
                     (set_running false s))))).
  set (rest := (IM_fdel ;; IS_fdel ;;
                ram_write NULL_INTERRUPT IRET_OPCODE ;;
                for_each (map Z.of_nat (seq 0 (Z.to_nat INTERRUPTS)))
                  (fun i =>
                     ram_write (MAX_MEM - INTERRUPTS + i) NULL_INTERRUPT))).
  assert (Heq : __init__ s = rest st) by reflexivity.
  assert (Hs : well_formed st).
  { constructor; cbn; try assumption; try reflexivity;
      try (apply forallb_is_byte; vm_compute; reflexivity);
      vm_compute; split; congruence. }
  assert (Hrest : keeps_wf rest).
  { unfold keeps_wf, rest, IM_fdel, IS_fdel.
    eapply triple_bind.
    { apply wf_reg_setitem. vm_compute. split; congruence. }
    intros _ _. eapply triple_bind.
    { apply wf_reg_setitem. vm_compute. split; congruence. }
    intros _ _.
    eapply triple_bind; [apply (triple_ram_write _ _ wf_closed)|].
    intros _ _. apply triple_for_each. intros i _.
    apply (triple_ram_write _ _ wf_closed). }
  rewrite Heq. specialize (Hrest st Hs).
  destruct (rest st) as [s' [e|[]]]; exact (proj1 Hrest).
Qed.

Lemma wf_load_words address words : keeps_wf (load_words address words).
Proof.
  revert address. induction words as [|w rest IH]; intros address;
    cbn [load_words]; unfold keeps_wf.
  - now apply triple_ret.
  - eapply triple_bind; [apply (triple_assert _ _ wf_closed)|]. intros _ _.
    eapply triple_bind; [apply (triple_ram_write _ _ wf_closed)|].
    intros _ _. apply IH.
Qed.

(** Whatever the program text, the loaded object is well formed, and so
    is every object a run from it ends with. *)
Lemma wf_load program fuel devices :
  well_formed (fst (load program blank)) /\
  well_formed (final_state (run fuel devices (fst (load program blank)))).
Proof.
  assert (Hload : well_formed (fst (load program blank))).
  { unfold load, bind.
    assert (Hinit : well_formed (fst (__init__ blank))).
    { apply wf_init; [vm_compute; split; congruence|].
      intros v [= <-]. vm_compute. split; congruence. }
    destruct (__init__ blank) as [s0 [e|[]]]; cbn [fst] in *; [exact Hinit|].
    pose proof (wf_load_words 0 (finditer program) s0 Hinit) as Hw.
    destruct (load_words 0 (finditer program) s0) as [s1 [e|[]]];
      exact (proj1 Hw). }
  split; [exact Hload|].
  unfold run. apply wf_while_running, wf_set_running, Hload.
Qed.

(** The attribute [_old_IM] outlives [load]: on an object that has
    dispatched an interrupt before, the IRET of a freshly loaded program
    finds it and returns. *)
Example IRET_after_reload :
  exists s1 s2 s,
    fetch_execute pending_timer = (s1, inr tt) /\
    load iret_deep_program s1 = (s2, inr tt) /\
    _old_IM s2 = Some 1 /\
    run 2 [] s2 = OutOfFuel s /\
    _instruction_register s = IRET_OPCODE /\
    getitem (_reg s) IM_REG = inr 1.
Proof.
  do 3 eexists.
  split; [vm_compute; reflexivity|].
  split; [vm_compute; reflexivity|].
  split; [vm_compute; reflexivity|].
  split; [vm_compute; reflexivity|].
  split; vm_compute; reflexivity.
Qed.
(** ** IRET before any dispatch, check by check *)

Lemma SP_check_iff t v :
  SP_check (_program_counter t + Z.shiftr (_instruction_register t) 6) v
    = true <-> SP_condition v t.
Proof.
  unfold SP_check, SP_condition.
  rewrite !andb_true_iff, orb_true_iff, Z.leb_le, Z.leb_le, Z.ltb_lt,
    Z.eqb_eq.
  tauto.
Qed.

Lemma bind_eq {A C} (m : M A) (k : A -> M C) s :
  bind m k s = match m s with
               | (s', inr a) => k a s'
               | (s', inl e) => (s', inl e)
               end.
Proof. reflexivity. Qed.

Lemma SP_fset_refusal t v :
  ~ SP_condition v t ->
  exists e, SP_fset v t = (t, inl e) /\ SP_refusal e.
Proof.
  unfold SP_condition, SP_refusal, SP_fset, bind, assert, PC_fget, IR_fget,
    gets, ret, raise.
  intros Hno. pose proof (mask_bounds v) as Hb.
  destruct (Z.leb_spec 0 (mask v)); [|lia].
  destruct (Z.leb_spec (mask v) STACK_BASE) as [Hle|Hgt]; cbn [andb].
  2:{ eexists. split; [reflexivity | left; reflexivity]. }
  set (pc := _program_counter t + Z.shiftr (_instruction_register t) 6) in *.
  destruct (Z.ltb_spec pc (mask v)); [exfalso; apply Hno; lia|].
  destruct (Z.eqb_spec pc NULL_INTERRUPT); [exfalso; apply Hno; lia|].
  cbn [orb]. eexists. split; [reflexivity | right; reflexivity].
Qed.

Lemma PC_fset_refusal t v sp :
  getitem (_reg t) SP_REG = inr sp ->
  sp <= mask v /\ mask v <> NULL_INTERRUPT ->
  exists e, PC_fset v t = (t, inl e) /\ PC_refusal (mask v) sp e.
Proof.
  intros Hsp [Hge Hne]. pose proof (mask_bounds v) as Hb.
  unfold PC_refusal, PC_fset, bind, SP_fget, reg_getitem, ret, raise, modify.
  destruct (Z.leb_spec 0 (mask v)); [|lia].
  rewrite Hsp.
  destruct (Z.ltb_spec (mask v) sp); [lia|].
  destruct (Z.eqb_spec (mask v) NULL_INTERRUPT); [contradiction|].
  cbn [orb]. rewrite Hsp. eexists. split; reflexivity.
Qed.

(** [SP += 1] either stores the masked sum or leaves the object as it
    was and fails an assertion of the setter, as [SP_check] says. *)
Lemma SP_iadd_decide t c :
  length (_reg t) = Z.to_nat REGISTERS ->
  _reg t !! 7%nat = Some c ->
  let pc := _program_counter t + Z.shiftr (_instruction_register t) 6 in
  (SP_check pc (c + 1) = true /\
   SP_iadd 1 t = (set_reg (<[7%nat := mask (c + 1)]> (_reg t)) t, inr tt)) \/
  (SP_check pc (c + 1) = false /\
   exists e, SP_iadd 1 t = (t, inl e) /\ SP_refusal e).
Proof.
  intros Hlen Hc pc. subst pc. unfold SP_iadd.
  rewrite (bind_step SP_fget _ t t c _ (SP_fget_ok t c Hc) eq_refl).
  destruct (SP_fset_cases t (c + 1) Hlen) as [[Hyes Hacc]|[Hno _]].
  - left. split; [apply SP_check_iff, Hyes | exact Hacc].
  - right. split; [|exact (SP_fset_refusal t (c + 1) Hno)].
    destruct (SP_check _ (c + 1)) eqn:E; [|reflexivity].
    apply SP_check_iff in E. contradiction.
Qed.

(** One pop of the loop of [IRET]. *)
Lemma pop_decide s c i t :
  popping s c t -> 0 <= i < SP_REG ->
  let pc := _program_counter s + Z.shiftr (_instruction_register s) 6 in
  exists t' r,
    (SP <- SP_fget ;; v <- ram_read SP ;; reg_setitem (Some i) v ;;
     SP_iadd 1) t = (t', r) /\
    (SP_check pc (c + 1) = true ->
     r = inr tt /\ popping s (mask (c + 1)) t' /\ _flags t' = _flags t) /\
    (SP_check pc (c + 1) = false ->
     (exists e, r = inl e /\ SP_refusal e) /\ _old_IM t' = None).
Proof.
  intros (Hlen & Hram & Hold & Hm & Hpc & Hir & Hc) Hi pc. subst pc.
  change SP_REG with 7 in Hi.
  assert (Hlen8 : length (_reg t) = 8%nat) by exact Hlen.
  set (m := mask (memory t (mask c))).
  set (t1 := set_memory_data_register m
               (set_memory_address_register (mask c) t)).
  set (t2 := set_reg (<[Z.to_nat i := m]> (_reg t)) t1).
  assert (Hbody : forall K : M unit,
            (SP <- SP_fget ;; v <- ram_read SP ;; reg_setitem (Some i) v ;;
             K) t = K t2).
  { intros K.
    eapply bind_step; [apply SP_fget_ok; exact Hc|].
    eapply bind_step.
    { apply ram_read_ok. apply memory_lookup; [exact Hram|].
      apply mask_bounds. }
    eapply bind_step; [|reflexivity].
    apply reg_setitem_ok. unfold t1. proj. rewrite Hlen8. lia. }
  rewrite Hbody.
  assert (Hlen2 : length (_reg t2) = Z.to_nat REGISTERS).
  { unfold t2. proj. now rewrite length_insert. }
  assert (Hc2 : _reg t2 !! 7%nat = Some c).
  { unfold t2. proj. rewrite list_lookup_insert_ne by lia. exact Hc. }
  assert (Hpc2 : _program_counter t2
                 + Z.shiftr (_instruction_register t2) 6
                 = _program_counter s + Z.shiftr (_instruction_register s) 6).
  { unfold t2, t1. proj. now rewrite Hpc, Hir. }
  destruct (SP_iadd_decide t2 c Hlen2 Hc2) as [[Hyes E]|[Hno (e & E & He)]];
    rewrite Hpc2 in *; rewrite E.
  - do 2 eexists. split; [reflexivity|]. split; [|congruence].
    intros _. split; [reflexivity|]. split; [|reflexivity].
    unfold popping, t2, t1. proj. rewrite !length_insert.
    repeat split; try assumption.
    apply list_lookup_insert_eq. rewrite length_insert, Hlen8. lia.
  - do 2 eexists. split; [reflexivity|]. split; [congruence|].
    intros _. split; [exists e; split; [reflexivity | exact He] | exact Hold].
Qed.

(** The pops of a list of registers: all of them pass, or the first
    refused [SP += 1] ends the loop. *)
Lemma pops_decide s sp l :
  forall k t,
  popping s (SP_after k sp) t ->
  (forall i, In i l -> 0 <= i < SP_REG) ->
  let pc := _program_counter s + Z.shiftr (_instruction_register s) 6 in
  exists t' r,
    for_each l (fun i =>
      SP <- SP_fget ;; v <- ram_read SP ;; reg_setitem (Some i) v ;;
      SP_iadd 1) t = (t', r) /\
    (forallb (fun j => SP_check pc (SP_after j sp + 1)) (seq k (length l))
       = true ->
     r = inr tt /\ popping s (SP_after (k + length l) sp) t') /\
    (forallb (fun j => SP_check pc (SP_after j sp + 1)) (seq k (length l))
       = false ->
     (exists e, r = inl e /\ SP_refusal e) /\ _old_IM t' = None).
Proof.
  induction l as [|i rest IH]; intros k t Ht Hl pc; subst pc.
  - cbn [for_each length seq forallb]. do 2 eexists.
    split; [reflexivity|]. split; [|discriminate].
    intros _. split; [reflexivity|]. now rewrite Nat.add_0_r.
  - cbn [for_each length seq forallb]. rewrite bind_eq.
    destruct (pop_decide s (SP_after k sp) i t Ht (Hl i (or_introl eq_refl)))
      as (t1 & r1 & E1 & Hyes & Hno).
    rewrite E1.
    destruct (SP_check _ (SP_after k sp + 1)) eqn:C; cbn [andb].
    + destruct (Hyes eq_refl) as (-> & Ht1 & _).
      destruct (IH (S k) t1 Ht1 (fun j Hj => Hl j (or_intror Hj)))
        as (t2 & r2 & E2 & Hyes2 & Hno2).
      exists t2, r2. split; [exact E2|]. split.
      * intros Hall. destruct (Hyes2 Hall) as [-> Ht2].
        split; [reflexivity|].
        now replace (k + S (length rest))%nat
          with (S k + length rest)%nat by lia.
      * exact Hno2.
    + destruct (Hno eq_refl) as ((e & -> & He) & Ho).
      exists t1. eexists. split; [reflexivity|]. split; [discriminate|].
      intros _. split; [exists e; split; [reflexivity | exact He] | exact Ho].
Qed.

Lemma PC_check_iff v sp :
  PC_check v sp = true <-> ~ (sp <= mask v /\ mask v <> NULL_INTERRUPT).
Proof.
  unfold PC_check. pose proof (mask_bounds v).
  rewrite orb_true_iff, andb_true_iff, Z.leb_le, Z.ltb_lt, Z.eqb_eq. lia.
Qed.

Lemma IRET_pops_pass_eq s sp :
  IRET_pops_pass s sp =
    forallb (fun k => SP_check (_program_counter s
                                + Z.shiftr (_instruction_register s) 6)
                        (SP_after k sp + 1)) (seq 0 7)
    && SP_check (_program_counter s + Z.shiftr (_instruction_register s) 6)
         (SP_after 7 sp + 1)
    && PC_check (mask (memory s (mask (SP_after 8 sp)))) (SP_after 8 sp)
    && SP_check (mask (memory s (mask (SP_after 8 sp)))
                 + Z.shiftr (_instruction_register s) 6)
         (SP_after 8 sp + 1).
Proof.
  unfold IRET_pops_pass. cbv zeta.
  change (seq 0 8) with (seq 0 7 ++ [7%nat]).
  rewrite forallb_app. cbn [forallb]. now rewrite andb_true_r.
Qed.

(** After [k >= 1] increments the stack pointer is [sp + k] modulo the
    word. *)
Lemma SP_after_mod k sp :
  (0 < k)%nat -> SP_after k sp = (sp + Z.of_nat k) mod 256.
Proof.
  induction k as [|k IH]; [lia|]. intros _. cbn [SP_after].
  destruct k as [|k].
  - cbn [SP_after]. now rewrite mask_mod.
  - rewrite IH by lia. rewrite mask_mod, Zplus_mod_idemp_l.
    f_equal. lia.
Qed.

(** C10, as the code has it.  On an object on which no interrupt has
    been dispatched the attribute [_old_IM] is absent, and IRET never
    returns.  It pops nine bytes through the setters of SP and PC before
    it reads the attribute: when every one of these checks passes it
    ends in the attribute-lookup error, with the stack pointer moved up
    by nine and PC already overwritten by the popped byte; when one of
    them fails it ends there, in the assertion failure of the setter
    that refuses: of the PC setter when the eight increments before it
    pass and the popped byte does not, of the SP setter otherwise.
    Either way [_old_IM] is still absent. *)
Theorem IRET_before_dispatch_raises (s : CPU) (sp : Z)
  (Hreg : length (_reg s) = Z.to_nat REGISTERS)
  (Hram : length (_ram s) = Z.to_nat MAX_MEM)
  (Hold : _old_IM s = None)
  (Hsp : getitem (_reg s) SP_REG = inr sp) :
  let pc := _program_counter s + Z.shiftr (_instruction_register s) 6 in
  let ret := mask (memory s (mask (SP_after 8 sp))) in
  exists s' e,
    IRET s = (s', inl e) /\
    _old_IM s' = None /\
    (IRET_pops_pass s sp = true ->
     e = AttributeError "'CPU' object has no attribute '_old_IM'" /\
     getitem (_reg s') SP_REG = inr (SP_after 9 sp) /\
     _program_counter s' = ret) /\
    (IRET_pops_pass s sp = false ->
     if forallb (fun k => SP_check pc (SP_after k sp + 1)) (seq 0 8)
        && negb (PC_check ret (SP_after 8 sp))
     then PC_refusal ret (SP_after 8 sp) e
     else SP_refusal e).
Proof.
  intros pc ret.
  assert (Hsp7 : _reg s !! 7%nat = Some sp).
  { apply (lookup_getitem _ SP_REG); [exact Hsp | vm_compute; discriminate]. }
  assert (H0 : popping s (SP_after 0 sp) s) by (repeat split; assumption).
  rewrite IRET_pops_pass_eq.
  change (seq 0 8) with (seq 0 7 ++ [7%nat]).
  rewrite forallb_app. cbn [forallb]. rewrite andb_true_r.
  fold pc. fold ret.
  unfold IRET. rewrite bind_eq.
  destruct (pops_decide s sp [6; 5; 4; 3; 2; 1; 0] 0 s H0) as
    (t & r & E & Hyes & Hno).
  { intros i Hi. change SP_REG with 7. cbn [In] in Hi. lia. }
  cbn [length] in Hyes, Hno. fold pc in Hyes, Hno. rewrite E. clear E.
  destruct (forallb _ (seq 0 7)) eqn:C06; cbn [andb].
  2:{ destruct (Hno eq_refl) as ((e & -> & He) & Ho).
      exists t, e. split; [reflexivity|]. split; [exact Ho|].
      split; [discriminate | intros _; exact He]. }
  destruct (Hyes eq_refl) as (-> & Ht). clear Hyes Hno.
  cbn [Nat.add] in Ht.
  (* the pop of FL *)
  destruct Ht as (Hlen & Hm & Ho & Hmem & Hpc & Hir & Hc).
  set (c7 := SP_after 7 sp) in *.
  set (t2 := set_flags (mask (mask (memory t (mask c7))))
               (set_memory_data_register (mask (memory t (mask c7)))
                  (set_memory_address_register (mask c7) t))).
  assert (Hfl : forall K : M unit,
            (SP <- SP_fget ;; v <- ram_read SP ;; FL_fset v ;; K) t = K t2).
  { intros K.
    eapply bind_step; [apply SP_fget_ok; exact Hc|].
    eapply bind_step.
    { apply ram_read_ok. apply memory_lookup; [exact Hm | apply mask_bounds]. }
    eapply bind_step; reflexivity. }
  rewrite Hfl. rewrite bind_eq.
  assert (Hpc2 : _program_counter t2
                 + Z.shiftr (_instruction_register t2) 6 = pc).
  { unfold t2, pc. proj. now rewrite Hpc, Hir. }
  destruct (SP_iadd_decide t2 c7 Hlen Hc) as [[C7 E]|[C7 (e & E & He)]];
    rewrite Hpc2 in C7; rewrite E, C7; cbn [andb]; clear E.
  2:{ exists t2, e. split; [reflexivity|]. split; [exact Ho|].
      split; [discriminate | intros _; exact He]. }
  (* the pop of PC *)
  change (mask (c7 + 1)) with (SP_after 8 sp). set (c8 := SP_after 8 sp) in *.
  set (t3 := set_reg (<[7%nat := c8]> (_reg t2)) t2).
  assert (Hlen8 : length (_reg t) = 8%nat) by exact Hlen.
  assert (Hc3 : _reg t3 !! 7%nat = Some c8).
  { unfold t3, t2. proj. apply list_lookup_insert_eq. lia. }
  assert (Hret : mask (memory t3 (mask c8)) = ret).
  { unfold ret. f_equal. unfold memory. f_equal.
    unfold t3, t2. proj. now rewrite Hmem. }
  set (t4 := set_memory_data_register ret
               (set_memory_address_register (mask c8) t3)).
  assert (Hpop : forall K : Z -> M unit,
            (SP <- SP_fget ;; v <- ram_read SP ;; K v) t3 = K ret t4).
  { intros K.
    eapply bind_step; [apply SP_fget_ok; exact Hc3|].
    eapply bind_step; [|reflexivity].
    unfold t4. rewrite <- Hret. apply ram_read_ok. apply memory_lookup.
    - unfold t3, t2. proj. exact Hm.
    - apply mask_bounds. }
  rewrite Hpop. cbv beta. rewrite bind_eq.
  assert (Hg4 : getitem (_reg t4) SP_REG = inr c8).
  { apply getitem_ok; [vm_compute; discriminate | exact Hc3]. }
  assert (Hmr : mask ret = ret) by (apply mask_small, mask_bounds).
  destruct (PC_fset_cases t4 ret c8 Hg4) as [[CP E]|[CP _]].
  2:{ assert (CPf : PC_check ret c8 = false).
      { destruct (PC_check ret c8) eqn:X; [|reflexivity].
        apply PC_check_iff in X. contradiction. }
      destruct (PC_fset_refusal t4 ret c8 Hg4 CP) as (e & E & He).
      rewrite E, CPf. cbn [andb negb]. rewrite Hmr in He.
      exists t4, e. split; [reflexivity|]. split; [exact Ho|].
      split; [discriminate | intros _; exact He]. }
  rewrite E. clear E.
  apply PC_check_iff in CP. rewrite CP. cbn [andb negb].
  rewrite Hmr.
  set (t5 := set_program_counter ret t4).
  rewrite bind_eq.
  assert (Hpc5 : _program_counter t5
                 + Z.shiftr (_instruction_register t5) 6
                 = ret + Z.shiftr (_instruction_register s) 6).
  { unfold t5, t4, t3, t2. proj. now rewrite Hir. }
  assert (Hlen5 : length (_reg t5) = Z.to_nat REGISTERS).
  { unfold t5, t4, t3, t2. proj. rewrite length_insert. exact Hlen. }
  destruct (SP_iadd_decide t5 c8 Hlen5 Hc3) as [[C9 E]|[C9 (e & E & He)]];
    rewrite Hpc5 in C9; rewrite E, C9; clear E.
  2:{ exists t5, e. split; [reflexivity|]. split; [exact Ho|].
      split; [discriminate | intros _; exact He]. }
  unfold IM_restore.
  match goal with
  | |- context [match _old_IM ?st with _ => _ end] =>
      assert (Hold' : _old_IM st = None) by exact Ho; rewrite Hold'
  end.
  do 2 eexists. split; [reflexivity|]. split; [exact Ho|].
  split; [|discriminate]. intros _.
  split; [reflexivity|]. split; [|reflexivity].
  apply getitem_ok; [vm_compute; discriminate|].
  unfold t5, t4, t3, t2. proj. apply list_lookup_insert_eq.
  rewrite length_insert. lia.
Qed.

Lemma IRET_before_dispatch_raises_witness :
  let pc := _program_counter new_CPU
            + Z.shiftr (_instruction_register new_CPU) 6 in
  let ret := mask (memory new_CPU (mask (SP_after 8 244))) in
  exists s' e,
    IRET new_CPU = (s', inl e) /\
    _old_IM s' = None /\
    (IRET_pops_pass new_CPU 244 = true ->
     e = AttributeError "'CPU' object has no attribute '_old_IM'" /\
     getitem (_reg s') SP_REG = inr (SP_after 9 244) /\
     _program_counter s' = ret) /\
    (IRET_pops_pass new_CPU 244 = false ->
     if forallb (fun k => SP_check pc (SP_after k 244 + 1)) (seq 0 8)
        && negb (PC_check ret (SP_after 8 244))
     then PC_refusal ret (SP_after 8 244) e
     else SP_refusal e).
Proof.
  apply (IRET_before_dispatch_raises new_CPU 244); reflexivity.
Defined.

(** Both ends occur.  From the reset state the first [SP += 1] is
    refused; with the stack pointer at 200 every check passes and the
    attribute lookup fails, after SP and PC have been written. *)
Example IRET_both_ends :
  let deep := set_instruction_register IRET_OPCODE
                (final_state (run 1 [] (fst (load iret_deep_program blank))))
  in
  IRET_pops_pass new_CPU 244 = false /\
  snd (IRET new_CPU) = inl (AssertionError "stack pointer out of range") /\
  IRET_pops_pass deep 200 = true /\
  snd (IRET deep)
    = inl (AttributeError "'CPU' object has no attribute '_old_IM'") /\
  getitem (_reg (fst (IRET deep))) SP_REG = inr 209.
Proof.
  cbv zeta.
  split; [vm_compute; reflexivity|].
  split; [vm_compute; reflexivity|].
  split; [vm_compute; reflexivity|].
  split; vm_compute; reflexivity.
Qed.

(** * Further properties of the code *)

(** ** Memory *)

Lemma ram_read_any s address :
  length (_ram s) = Z.to_nat MAX_MEM ->
  ram_read address s =
    (set_memory_data_register (mask (memory s (mask address)))
       (set_memory_address_register (mask address) s),
     inr (mask (memory s (mask address)))).
Proof.
  intros Hlen. apply ram_read_ok.
  apply memory_lookup; [exact Hlen | apply mask_bounds].
Qed.

Lemma memory_insert s i v address :
  length (_ram s) = Z.to_nat MAX_MEM ->
  0 <= i < MAX_MEM -> 0 <= address < MAX_MEM ->
  memory (set_ram (<[Z.to_nat i := v]> (_ram s)) s) address =
    if i =? address then v else memory s address.
Proof.
  intros Hlen Hi Ha. unfold memory. cbn [_ram set_ram].
  destruct (Z.eqb_spec i address) as [->|Hne].
  - rewrite list_lookup_insert_eq; [reflexivity|].
    rewrite Hlen. change MAX_MEM with 256 in *. lia.
  - rewrite list_lookup_insert_ne by lia. reflexivity.
Qed.

(** X1. On a memory of [MAX_MEM] cells, [ram_write] followed by
    [ram_read] never raises, whatever the two addresses (negative or
    beyond the memory: they wrap modulo [MAX_MEM]); the read returns the
    written value masked to a word when the addresses agree modulo
    [MAX_MEM], and what the cell held before otherwise. *)
Theorem ram_write_then_read (s : CPU) (a a' v : Z)
  (Hlen : length (_ram s) = Z.to_nat MAX_MEM) :
  exists s1 s2,
    ram_write a v s = (s1, inr tt) /\
    ram_read a' s1 =
      (s2, inr (if a mod MAX_MEM =? a' mod MAX_MEM then v mod MAX_MEM
                else mask (memory s (a' mod MAX_MEM)))) /\
    _ram s2 = <[Z.to_nat (a mod MAX_MEM) := v mod MAX_MEM]> (_ram s) /\
    _reg s2 = _reg s /\
    _program_counter s2 = _program_counter s.
Proof.
  change MAX_MEM with 256. rewrite <- !mask_mod.
  eexists. eexists.
  split; [apply (ram_write_ok s a v Hlen)|].
  split.
  - rewrite ram_read_any by (proj; now rewrite length_insert).
    f_equal. f_equal. unfold memory. proj.
    destruct (Z.eqb_spec (mask a) (mask a')) as [->|Hne].
    + rewrite list_lookup_insert_eq.
      * cbn. apply mask_small, mask_bounds.
      * rewrite Hlen. pose proof (mask_bounds a').
        change (Z.to_nat MAX_MEM) with 256%nat. lia.
    + rewrite list_lookup_insert_ne; [reflexivity|].
      pose proof (mask_bounds a). pose proof (mask_bounds a'). lia.
  - proj. repeat split; reflexivity.
Qed.

Lemma ram_write_then_read_witness :
  exists s1 s2,
    ram_write (-1) 300 new_CPU = (s1, inr tt) /\
    ram_read 255 s1 =
      (s2, inr (if (-1) mod MAX_MEM =? 255 mod MAX_MEM then 300 mod MAX_MEM
                else mask (memory new_CPU (255 mod MAX_MEM)))) /\
    _ram s2 = <[Z.to_nat ((-1) mod MAX_MEM) := 300 mod MAX_MEM]>
                (_ram new_CPU) /\
    _reg s2 = _reg new_CPU /\
    _program_counter s2 = _program_counter new_CPU.
Proof. apply (ram_write_then_read new_CPU (-1) 255 300). reflexivity. Defined.

(** ** Raising and checking interrupts *)

Lemma mask_lor a b : mask (Z.lor a b) = Z.lor (mask a) (mask b).
Proof. unfold mask. apply Z.land_lor_distr_l. Qed.

Lemma mask_bit n : 0 <= n < 8 -> mask (Z.shiftl 1 n) = Z.shiftl 1 n.
Proof.
  intros Hn. apply mask_small. rewrite Z.shiftl_1_l. split.
  - apply Z.pow_nonneg. lia.
  - change 256 with (2 ^ 8). apply Z.pow_lt_mono_r; lia.
Qed.

Lemma lor_bit_testbit v n k :
  0 <= n -> 0 <= k ->
  Z.testbit (Z.lor v (Z.shiftl 1 n)) k = Z.testbit v k || (k =? n).
Proof.
  intros Hn Hk.
  rewrite Z.lor_spec, Z.shiftl_1_l, Z.pow2_bits_eqb by lia.
  now rewrite (Z.eqb_sym n k).
Qed.

(** X2. [interrupt(n)] for a line [0 <= n < INTERRUPTS] sets bit [n] of
    the interrupt-state register and changes no other bit and nothing
    else; raising a line twice is the same as raising it once.  A number
    at or above [INTERRUPTS] is refused by the assertion and a negative
    one ends in the ValueError of the shift, both leaving the object as
    it was. *)
Theorem interrupt_sets_one_bit (s : CPU) (n pending : Z)
  (Hlen : length (_reg s) = Z.to_nat REGISTERS)
  (Hpending : getitem (_reg s) IS_REG = inr pending)
  (Hbyte : byte pending) :
  (0 <= n < INTERRUPTS ->
   exists s1,
     interrupt n s = (s1, inr tt) /\
     s1 = set_reg (<[Z.to_nat IS_REG := Z.lor pending (Z.shiftl 1 n)]>
                     (_reg s)) s /\
     (forall k, 0 <= k ->
        Z.testbit (Z.lor pending (Z.shiftl 1 n)) k
          = Z.testbit pending k || (k =? n)) /\
     interrupt n s1 = (s1, inr tt)) /\
  (INTERRUPTS <= n -> rejected (interrupt n s) s) /\
  (n < 0 -> interrupt n s = (s, inl ValueError)).
Proof.
  assert (Hl6 : _reg s !! 6%nat = Some pending).
  { apply (lookup_getitem _ IS_REG); [exact Hpending | arith]. }
  assert (Hstep : forall s' p, length (_reg s') = Z.to_nat REGISTERS ->
            _reg s' !! 6%nat = Some p -> byte p -> 0 <= n < 8 ->
            interrupt n s' =
              (set_reg (<[6%nat := Z.lor p (Z.shiftl 1 n)]> (_reg s')) s',
               inr tt)).
  { intros s' p Hlen' Hp Bp Hn. unfold interrupt, assert.
    destruct (Z.ltb_spec n INTERRUPTS); [|arith].
    eapply bind_step; [reflexivity|].
    unfold IS_set_bit. destruct (Z.ltb_spec n 0); [lia|].
    unfold IS_ior, IS_fget, IS_fset.
    eapply bind_step; [apply reg_getitem_ok; [arith | exact Hp]|].
    rewrite reg_setitem_ok by (rewrite Hlen'; arith).
    rewrite mask_lor, mask_bit, (mask_small p) by (assumption || lia).
    reflexivity. }
  split; [|split].
  - intros Hn. change INTERRUPTS with 8 in Hn.
    eexists. split; [apply (Hstep s pending Hlen Hl6 Hbyte Hn)|].
    split; [reflexivity|].
    split; [intros k Hk; apply lor_bit_testbit; lia|].
    rewrite (Hstep _ (Z.lor pending (Z.shiftl 1 n))); proj.
    + rewrite list_insert_insert_eq.
      rewrite <- Z.lor_assoc, Z.lor_diag. reflexivity.
    + now rewrite length_insert.
    + apply list_lookup_insert_eq. rewrite Hlen. vm_compute. lia.
    + rewrite <- (mask_small pending), <- (mask_bit n), <- mask_lor
        by (assumption || lia).
      apply mask_byte.
    + exact Hn.
  - intros Hn. unfold interrupt, assert, rejected.
    destruct (Z.ltb_spec n INTERRUPTS); [lia|]. eexists. reflexivity.
  - intros Hn. unfold interrupt, assert.
    destruct (Z.ltb_spec n INTERRUPTS); [|arith].
    unfold bind, ret, IS_set_bit. cbn.
    destruct (Z.ltb_spec n 0); [reflexivity | lia].
Qed.

Lemma interrupt_sets_one_bit_witness :
  (exists s1,
     interrupt 1 new_CPU = (s1, inr tt) /\
     s1 = set_reg (<[Z.to_nat IS_REG := Z.lor 0 (Z.shiftl 1 1)]>
                     (_reg new_CPU)) new_CPU /\
     (forall k, 0 <= k ->
        Z.testbit (Z.lor 0 (Z.shiftl 1 1)) k = Z.testbit 0 k || (k =? 1)) /\
     interrupt 1 s1 = (s1, inr tt)) /\
  rejected (interrupt 8 new_CPU) new_CPU /\
  interrupt (-1) new_CPU = (new_CPU, inl ValueError).
Proof.
  assert (Hb : byte 0) by (vm_compute; split; congruence).
  destruct (interrupt_sets_one_bit new_CPU 1 0 eq_refl eq_refl Hb)
    as (H1 & _ & _).
  destruct (interrupt_sets_one_bit new_CPU 8 0 eq_refl eq_refl Hb)
    as (_ & H2 & _).
  destruct (interrupt_sets_one_bit new_CPU (-1) 0 eq_refl eq_refl Hb)
    as (_ & _ & H3).
  split; [apply H1; vm_compute; split; congruence|].
  split; [apply H2; vm_compute; congruence | apply H3; reflexivity].
Defined.

Lemma first_interrupt_none masked (l : list Z) s :
  (forall n, In n l -> 0 <= n /\ Z.testbit masked n = false) ->
  first_interrupt masked l s = (s, inr tt).
Proof.
  induction l as [|n rest IH]; intros Hl; cbn [first_interrupt].
  - reflexivity.
  - destruct (Hl n (or_introl eq_refl)) as [Hn Hb].
    rewrite land_bit_testbit, Hb by exact Hn. cbn [negb].
    apply IH. intros m Hm. apply Hl. now right.
Qed.

(** X3. When no line is both enabled and pending (the low eight bits of
    [IM & IS] are clear), [check_interrupts] does nothing at all: a
    pending line whose mask bit is clear is not dispatched and stays
    pending. *)
Theorem check_interrupts_idle (s : CPU) (enabled pending : Z)
  (Hmask : getitem (_reg s) IM_REG = inr enabled)
  (Hpending : getitem (_reg s) IS_REG = inr pending)
  (Hnone : forall n, 0 <= n < 8 ->
             Z.testbit (Z.land enabled pending) n = false) :
  check_interrupts s = (s, inr tt).
Proof.
  unfold check_interrupts, IM_fget, IS_fget, bind, reg_getitem.
  rewrite Hmask, Hpending. apply first_interrupt_none.
  intros n Hn. change (map Z.of_nat (seq 0 8)) with [0;1;2;3;4;5;6;7] in Hn.
  cbn [In] in Hn. split; [lia|]. apply Hnone. lia.
Qed.

Lemma check_interrupts_idle_witness :
  check_interrupts (fst (interrupt 1 new_CPU))
    = (fst (interrupt 1 new_CPU), inr tt).
Proof.
  apply (check_interrupts_idle (fst (interrupt 1 new_CPU)) 0 2);
    try reflexivity.
  intros n Hn. apply Z.testbit_0_l.
Defined.

Lemma check_interrupts_none s enabled pending :
  getitem (_reg s) IM_REG = inr enabled ->
  getitem (_reg s) IS_REG = inr pending ->
  (forall n, 0 <= n < 8 -> Z.testbit (Z.land enabled pending) n = false) ->
  check_interrupts s = (s, inr tt).
Proof.
  intros Hmask Hpending Hnone.
  unfold check_interrupts, IM_fget, IS_fget, bind, reg_getitem.
  rewrite Hmask, Hpending. apply first_interrupt_none.
  intros n Hn. change (map Z.of_nat (seq 0 8)) with [0;1;2;3;4;5;6;7] in Hn.
  cbn [In] in Hn. split; [lia|]. apply Hnone. lia.
Qed.

(** X4. The frame a dispatch builds.  When line [n] is the lowest enabled
    and pending line and the decoded instruction ends more than nine
    bytes below SP, [check_interrupts] pushes PC, FL and R0..R6 in this
    order (R5 already cleared and R6 already without bit [n]), touches no
    memory outside these nine bytes, leaves R0..R4 and FL as they were,
    saves the old mask in [_old_IM], clears the mask and keeps every
    other pending bit.  Its last step writes the vector of line [n] to
    PC: when the vector lies below the new stack pointer or is the
    null-interrupt address, PC is the vector and the method returns;
    otherwise the setter of PC refuses it and the method ends in an
    AssertionError with PC as it was and the frame already pushed.
    Either way a second [check_interrupts] does nothing. *)
Theorem dispatch_frame (s : CPU) (n imask istate sp h : Z)
  (Hwf : well_formed s)
  (Him : getitem (_reg s) IM_REG = inr imask)
  (His : getitem (_reg s) IS_REG = inr istate)
  (Hsp : getitem (_reg s) SP_REG = inr sp)
  (Hn : 0 <= n < INTERRUPTS)
  (Hbit : Z.testbit (Z.land imask istate) n = true)
  (Hlow : forall k, 0 <= k < n -> Z.testbit (Z.land imask istate) k = false)
  (Hroom : _program_counter s + Z.shiftr (_instruction_register s) 6
           < sp - 9)
  (Htop : sp <= STACK_BASE)
  (Hh : getitem (_ram s) (MAX_MEM - INTERRUPTS + n) = inr h) :
  exists s1 r,
    check_interrupts s = (s1, r) /\
    (h < sp - 9 \/ h = NULL_INTERRUPT ->
     r = inr tt /\ _program_counter s1 = h) /\
    (~ (h < sp - 9 \/ h = NULL_INTERRUPT) ->
     (exists msg, r = inl (AssertionError msg)) /\
     _program_counter s1 = _program_counter s) /\
    (forall i, 0 <= i < IM_REG ->
       getitem (_reg s1) i = getitem (_reg s) i /\
       getitem (_reg s) i = inr (memory s1 (sp - 3 - i))) /\
    getitem (_reg s1) IM_REG = inr 0 /\
    getitem (_reg s1) IS_REG = inr (Z.clearbit istate n) /\
    getitem (_reg s1) SP_REG = inr (sp - 9) /\
    memory s1 (sp - 1) = _program_counter s /\
    memory s1 (sp - 2) = _flags s /\
    memory s1 (sp - 8) = 0 /\
    memory s1 (sp - 9) = Z.clearbit istate n /\
    (forall a, a < sp - 9 \/ sp <= a -> memory s1 a = memory s a) /\
    _flags s1 = _flags s /\
    _old_IM s1 = Some imask /\
    (forall m, 0 <= m -> m <> n ->
       Z.testbit (Z.clearbit istate n) m = Z.testbit istate m) /\
    check_interrupts s1 = (s1, inr tt).
Proof.
  destruct Hwf as [Hlen Hbytes Hrlen Hrbytes Bpc Bir Bfl _].
  destruct s as [run drun regs pc ir mar mdr fl opa opb ram old out].
  cbn [_reg _ram _program_counter _instruction_register _flags] in *.
  destruct regs as [|r0 [|r1 [|r2 [|r3 [|r4 [|r5 [|r6 [|r7 [|]]]]]]]]];
    try discriminate Hlen.
  assert (r5 = imask) by (vm_compute in Him; congruence).
  assert (r6 = istate) by (vm_compute in His; congruence).
  assert (r7 = sp) by (vm_compute in Hsp; congruence).
  subst r5 r6 r7. clear Him His Hsp.
  repeat match goal with
         | H : Forall byte (_ :: _) |- _ =>
             apply Forall_cons in H; destruct H as [? H]
         end.
  unfold byte in *.
  assert (Hshift : 0 <= Z.shiftr ir 6) by (apply Z.shiftr_nonneg; lia).
  set (s0 := mkCPU run drun [r0; r1; r2; r3; r4; imask; istate; sp] pc ir mar
                 mdr fl opa opb ram old out).
  consts.
  assert (Hh' : ram !! Z.to_nat (256 - 8 + n) = Some h)
    by (apply lookup_getitem; [exact Hh | lia]).
  pose proof (byte_lookup _ _ _ Hrbytes Hh') as Bh.
  assert (Bclear := clearbit_byte istate n ltac:(lia) ltac:(lia)).
  eassert (Hd : check_interrupts s0 = PC_fset h _).
  { unfold check_interrupts, IM_fget, IS_fget.
    eapply bind_step; [apply reg_getitem_ok; [arith | reflexivity]|].
    eapply bind_step; [apply reg_getitem_ok; [arith | reflexivity]|].
    rewrite (first_interrupt_lowest _ n) by assumption.
    unfold dispatch, IM_fget, IS_fget, IM_fset, IS_fset.
    eapply bind_step; [apply reg_getitem_ok; [arith | reflexivity]|].
    eapply bind_step; [reflexivity|].
    eapply bind_step; [apply reg_setitem_ok; vm_compute; split; congruence|].
    eapply bind_step; [apply reg_getitem_ok; [arith | reflexivity]|].
    eapply bind_step; [apply reg_setitem_ok; vm_compute; split; congruence|].
    subst s0. regs.
    rewrite clear_pending_bit by (assumption || lia).
    change (mask 0) with 0.
    eapply push_then;
      [ reflexivity | exact Hrlen | proj; reflexivity | proj; arith
      | proj; left; arith | proj; reflexivity | regs ].
    eapply push_then;
      [ reflexivity | proj; rewrite ?length_insert; exact Hrlen
      | proj; reflexivity | proj; arith
      | proj; left; arith | proj; reflexivity | regs ].
    change (map Z.of_nat (seq 0 (Z.to_nat (8 - 1))))
      with [0; 1; 2; 3; 4; 5; 6].
    eapply bind_step.
    { repeat (eapply for_each_step;
        [ cbv beta; eapply push_ok;
          [ regs; reflexivity
          | regs; rewrite ?length_insert; exact Hrlen
          | regs; reflexivity
          | arith
          | proj; left; arith
          | cbv zeta; apply reg_getitem_ok; [lia | regs; reflexivity] ]
        | ]).
      reflexivity. }
    eapply bind_step; [|reflexivity].
    cbv beta. proj. erewrite getitem_ok;
      [ reflexivity | lia
      | rewrite !list_lookup_insert_ne by lia; exact Hh' ]. }
  match type of Hd with _ = PC_fset h ?st => set (sf := st) in * end.
  assert (Hfacts : forall s1,
            _reg s1 = _reg sf -> _ram s1 = _ram sf ->
            _flags s1 = _flags sf -> _old_IM s1 = _old_IM sf ->
            (forall i, 0 <= i < 5 ->
               getitem (_reg s1) i = getitem (_reg s0) i /\
               getitem (_reg s0) i = inr (memory s1 (sp - 3 - i))) /\
            getitem (_reg s1) 5 = inr 0 /\
            getitem (_reg s1) 6 = inr (Z.clearbit istate n) /\
            getitem (_reg s1) 7 = inr (sp - 9) /\
            memory s1 (sp - 1) = pc /\
            memory s1 (sp - 2) = fl /\
            memory s1 (sp - 8) = 0 /\
            memory s1 (sp - 9) = Z.clearbit istate n /\
            (forall a, a < sp - 9 \/ sp <= a -> memory s1 a = memory s0 a) /\
            _flags s1 = fl /\
            _old_IM s1 = Some imask /\
            (forall m, 0 <= m -> m <> n ->
               Z.testbit (Z.clearbit istate n) m = Z.testbit istate m) /\
            check_interrupts s1 = (s1, inr tt)).
  { intros s1 Er Em Ef Eo.
    assert (Hnone : check_interrupts s1 = (s1, inr tt)).
    { apply (check_interrupts_none _ 0 (Z.clearbit istate n));
        [ rewrite Er; subst sf; regs; reflexivity
        | rewrite Er; subst sf; regs; reflexivity
        | intros k Hk; apply Z.testbit_0_l ]. }
    unfold memory. rewrite Er, Em, Ef, Eo. subst sf s0. regs.
    rewrite ?(mask_small r0), ?(mask_small r1), ?(mask_small r2),
      ?(mask_small r3), ?(mask_small r4), ?(mask_small fl), ?(mask_small pc),
      ?(mask_small (Z.clearbit istate n)) by lia.
    change (mask 0) with 0.
    split.
    { intros i Hi.
      assert (Hc : i = 0 \/ i = 1 \/ i = 2 \/ i = 3 \/ i = 4) by lia.
      destruct Hc as [->|[->|[->|[->| ->]]]];
        (split; [reflexivity|]); cbn [getitem index]; cbn; f_equal;
        symmetry; stack_lookup. }
    split; [reflexivity|].
    split; [reflexivity|].
    split; [apply getitem_ok; [lia | regs; f_equal; lia]|].
    split; [stack_lookup|].
    split; [stack_lookup|].
    split; [stack_lookup|].
    split; [stack_lookup|].
    split.
    { intros a Ha. rewrite !list_lookup_insert_ne by lia. reflexivity. }
    split; [reflexivity|].
    split; [reflexivity|].
    split; [intros m Hm Hne; apply Z.clearbit_neq; lia|].
    exact Hnone. }
  assert (Hspf : getitem (_reg sf) 7 = inr (sp - 9)).
  { destruct (Hfacts sf eq_refl eq_refl eq_refl eq_refl)
      as (_ & _ & _ & H7 & _). exact H7. }
  destruct (PC_fset_cases sf h (sp - 9) Hspf) as [[Hok E]|[Hbad [msg E]]];
    rewrite E in Hd; clear E.
  - rewrite (mask_small h) in Hd, Hok by lia.
    exists (set_program_counter h sf), (inr tt).
    split; [exact Hd|].
    split; [intros _; split; reflexivity|].
    split; [intros Hno; exfalso; apply Hno; arith|].
    destruct (Hfacts (set_program_counter h sf) eq_refl eq_refl eq_refl eq_refl)
      as (F1 & F2 & F3 & F4 & F5 & F6 & F7 & F8 & F9 & F10 & F11 & F12 & F13).
    split; [exact F1|]. split; [exact F2|]. split; [exact F3|].
    split; [exact F4|]. split; [exact F5|]. split; [exact F6|].
    split; [exact F7|]. split; [exact F8|]. split; [exact F9|].
    split; [exact F10|]. split; [exact F11|]. split; [exact F12|].
    exact F13.
  - rewrite (mask_small h) in Hbad by lia.
    exists sf, (inl (AssertionError msg)).
    split; [exact Hd|].
    split; [intros Hyes; exfalso; arith|].
    split; [intros _; split; [exists msg; reflexivity | reflexivity]|].
    destruct (Hfacts sf eq_refl eq_refl eq_refl eq_refl)
      as (F1 & F2 & F3 & F4 & F5 & F6 & F7 & F8 & F9 & F10 & F11 & F12 & F13).
    split; [exact F1|]. split; [exact F2|]. split; [exact F3|].
    split; [exact F4|]. split; [exact F5|]. split; [exact F6|].
    split; [exact F7|]. split; [exact F8|]. split; [exact F9|].
    split; [exact F10|]. split; [exact F11|]. split; [exact F12|].
    exact F13.
Qed.

Lemma dispatch_frame_witness :
  exists s1 r,
    check_interrupts pending_timer = (s1, r) /\
    (247 < 244 - 9 \/ 247 = NULL_INTERRUPT ->
     r = inr tt /\ _program_counter s1 = 247) /\
    (~ (247 < 244 - 9 \/ 247 = NULL_INTERRUPT) ->
     (exists msg, r = inl (AssertionError msg)) /\
     _program_counter s1 = _program_counter pending_timer) /\
    (forall i, 0 <= i < IM_REG ->
       getitem (_reg s1) i = getitem (_reg pending_timer) i /\
       getitem (_reg pending_timer) i = inr (memory s1 (244 - 3 - i))) /\
    getitem (_reg s1) IM_REG = inr 0 /\
    getitem (_reg s1) IS_REG = inr (Z.clearbit 1 0) /\
    getitem (_reg s1) SP_REG = inr (244 - 9) /\
    memory s1 (244 - 1) = _program_counter pending_timer /\
    memory s1 (244 - 2) = _flags pending_timer /\
    memory s1 (244 - 8) = 0 /\
    memory s1 (244 - 9) = Z.clearbit 1 0 /\
    (forall a, a < 244 - 9 \/ 244 <= a ->
       memory s1 a = memory pending_timer a) /\
    _flags s1 = _flags pending_timer /\
    _old_IM s1 = Some 1 /\
    (forall m, 0 <= m -> m <> 0 ->
       Z.testbit (Z.clearbit 1 0) m = Z.testbit 1 m) /\
    check_interrupts s1 = (s1, inr tt).
Proof.
  apply (dispatch_frame pending_timer 0 1 1 244 247);
    try (vm_compute; reflexivity).
  - apply well_formedb_ok; vm_compute; reflexivity.
  - vm_compute. split; congruence.
  - intros k Hk. lia.
  - vm_compute. congruence.
Defined.

(** The refused vector occurs: with 250 stored in the vector of the
    timer, the dispatch of [pending_timer] pushes its frame, clears the
    mask and fails at the write to PC. *)
Example dispatch_refused_vector :
  let s := set_ram (<[248%nat := 250]> (_ram pending_timer)) pending_timer in
  snd (check_interrupts s)
    = inl (AssertionError "invalid program counter: 250, stack: 235") /\
  _program_counter (fst (check_interrupts s)) = _program_counter s /\
  getitem (_reg (fst (check_interrupts s))) SP_REG = inr 235 /\
  getitem (_reg (fst (check_interrupts s))) IM_REG = inr 0.
Proof.
  cbv zeta.
  split; [vm_compute; reflexivity|].
  split; [vm_compute; reflexivity|].
  split; vm_compute; reflexivity.
Qed.

(** ** Decoding *)

Lemma IR_fset_invalid s v :
  is_opcode (mask v) = false ->
  IR_fset v s =
    (s, inl (AssertionError ("CPU.IR: invalid opcode: " ++ bin8 (mask v)
                             ++ " at: " ++ str (_program_counter s)))).
Proof. intros H. unfold IR_fset, bind. rewrite H. reflexivity. Qed.

Lemma IR_fset_zero s v :
  is_opcode (mask v) = true ->
  Z.land (mask v) 64 = 0 -> Z.land (mask v) 128 = 0 ->
  IR_fset v s =
    (set_operand_b None
       (set_operand_a None (set_instruction_register (mask v) s)), inr tt).
Proof.
  intros Hop H64 H128. unfold IR_fset, bind. rewrite Hop. cbn [ret modify].
  change (Z.shiftl 1 (BITS - 2)) with 64.
  change (Z.shiftl 1 (BITS - 1)) with 128.
  rewrite H64, H128. reflexivity.
Qed.

Lemma IR_fset_one s v sp a :
  is_opcode (mask v) = true ->
  Z.land (mask v) 64 <> 0 ->
  length (_ram s) = Z.to_nat MAX_MEM ->
  _reg s !! 7%nat = Some sp ->
  _program_counter s + 1 < sp ->
  memory s (mask (_program_counter s + 1)) = a ->
  0 <= a < REGISTERS ->
  IR_fset v s =
    (set_operand_b None
       (set_operand_a (Some a)
          (set_memory_data_register a
             (set_memory_address_register (mask (_program_counter s + 1))
                (set_instruction_register (mask v) s)))), inr tt).
Proof.
  intros Hop H64 Hram Hsp Hpc Ha Hr.
  assert (Hma : mask a = a) by (apply mask_small; arith).
  unfold IR_fset. rewrite Hop.
  eapply bind_step; [reflexivity|].
  eapply bind_step; [reflexivity|].
  change (Z.shiftl 1 (BITS - 2)) with 64.
  destruct (Z.eqb_spec (Z.land (mask v) 64) 0) as [|_]; [contradiction|].
  cbn [negb].
  eapply bind_step; [reflexivity|]. proj.
  eapply bind_step; [apply SP_fget_ok; exact Hsp|].
  unfold assert. destruct (Z.ltb_spec (_program_counter s + 1) sp); [|lia].
  eapply bind_step; [reflexivity|].
  eapply bind_step; [apply ram_read_any; exact Hram|].
  unfold memory in *. proj. unfold memory in Ha. rewrite Ha, Hma.
  unfold OP_A_fset. rewrite Hma.
  destruct (Z.leb_spec 0 a); [|lia].
  destruct (Z.ltb_spec a REGISTERS); [|lia]. cbn [andb].
  reflexivity.
Qed.

Lemma IR_fset_two s v sp a b :
  is_opcode (mask v) = true ->
  Z.land (mask v) 64 = 0 -> Z.land (mask v) 128 <> 0 ->
  length (_ram s) = Z.to_nat MAX_MEM ->
  _reg s !! 7%nat = Some sp ->
  _program_counter s + 2 < sp ->
  memory s (mask (_program_counter s + 1)) = a ->
  0 <= a < REGISTERS ->
  memory s (mask (_program_counter s + 2)) = b ->
  0 <= b < (if Z.land (mask v) ALU_MASK =? 0 then MAX_MEM else REGISTERS) ->
  IR_fset v s =
    (set_operand_b (Some b)
       (set_memory_data_register b
          (set_memory_address_register (mask (_program_counter s + 2))
             (set_operand_a (Some a)
                (set_memory_data_register a
                   (set_memory_address_register
                      (mask (_program_counter s + 1))
                      (set_instruction_register (mask v) s)))))), inr tt).
Proof.
  intros Hop H64 H128 Hram Hsp Hpc Ha Hr Hb Hrb.
  assert (Hma : mask a = a) by (apply mask_small; arith).
  assert (Hmb : mask b = b).
  { apply mask_small.
    destruct (Z.land (mask v) ALU_MASK =? 0); arith. }
  unfold IR_fset. rewrite Hop.
  eapply bind_step; [reflexivity|].
  eapply bind_step; [reflexivity|].
  change (Z.shiftl 1 (BITS - 2)) with 64.
  change (Z.shiftl 1 (BITS - 1)) with 128.
  rewrite H64.
  destruct (Z.eqb_spec (Z.land (mask v) 128) 0) as [|_]; [contradiction|].
  cbn [negb Z.eqb].
  eapply bind_step; [reflexivity|]. proj.
  eapply bind_step; [apply SP_fget_ok; exact Hsp|].
  unfold assert. destruct (Z.ltb_spec (_program_counter s + 2) sp); [|lia].
  eapply bind_step; [reflexivity|].
  eapply bind_step; [apply ram_read_any; exact Hram|].
  unfold memory in *. proj. rewrite Ha, Hma.
  eapply bind_step.
  { unfold OP_A_fset. rewrite Hma.
    destruct (Z.leb_spec 0 a); [|lia].
    destruct (Z.ltb_spec a REGISTERS); [|lia]. reflexivity. }
  eapply bind_step; [apply ram_read_any; proj; exact Hram|].
  unfold memory. proj. rewrite Hb, Hmb.
  unfold OP_B_fset. rewrite Hmb.
  unfold bind at 1, IR_fget, gets. proj.
  destruct (Z.ltb_spec b (if Z.land (mask v) ALU_MASK =? 0 then MAX_MEM
                          else REGISTERS)); [reflexivity | lia].
Qed.

(** Every accepted byte is a key of one of the two tables. *)
Lemma is_opcode_In v :
  is_opcode v = true -> In v (ALU_codes ++ OPCODES_codes).
Proof.
  intros H. unfold is_opcode, OPCODES, ALU in H.
  destruct v as [|p|p]; try discriminate H; [cbn; tauto|].
  do 8 (try (destruct p as [p|p|]; try discriminate H));
    cbn; tauto.
Qed.

Ltac each_opcode H :=
  apply is_opcode_In in H; cbn [In ALU_codes OPCODES_codes app] in H;
  repeat (destruct H as [<-|H]); [..|contradiction].

(** X5. The two tables fit the bit tests of the loop.  Every byte the
    decoder accepts is a word; [code >> 6], by which the loop advances
    PC, is the number of operand bytes the decoder fetches (0, 1 or 2);
    a byte with the ALU bit set is a key of [ALU] only, has at least one
    operand and names an operation of [ALU_OP], and a byte without it is
    a key of [OPCODES] only: the table look-ups of [run] never miss. *)
Theorem tables_consistent (v : Z) (H : is_opcode v = true) :
  0 <= v < MAX_MEM /\
  Z.shiftr v 6 = operands_fetched v /\
  ((Z.land v ALU_MASK <> 0 /\ OPCODES v = None /\
    0 < operands_fetched v /\
    exists op f, ALU v = Some op /\ ALU_OP op = Some f) \/
   (Z.land v ALU_MASK = 0 /\ ALU v = None /\
    exists handler, OPCODES v = Some handler)).
Proof.
  each_opcode H;
    (split; [vm_compute; split; congruence|]);
    (split; [reflexivity|]);
    first [ left; split; [vm_compute; congruence|];
            split; [reflexivity|]; split; [reflexivity|];
            do 2 eexists; split; reflexivity
          | right; split; [reflexivity|]; split; [reflexivity|];
            eexists; reflexivity ].
Qed.

Lemma tables_consistent_witness :
  0 <= 163 < MAX_MEM /\
  Z.shiftr 163 6 = operands_fetched 163 /\
  ((Z.land 163 ALU_MASK <> 0 /\ OPCODES 163 = None /\
    0 < operands_fetched 163 /\
    exists op f, ALU 163 = Some op /\ ALU_OP op = Some f) \/
   (Z.land 163 ALU_MASK = 0 /\ ALU 163 = None /\
    exists handler, OPCODES 163 = Some handler)).
Proof. apply (tables_consistent 163). reflexivity. Defined.

Lemma opcode_arity v :
  is_opcode v = true ->
  (Z.shiftr v 6 = 0 /\ Z.land v 64 = 0 /\ Z.land v 128 = 0) \/
  (Z.shiftr v 6 = 1 /\ Z.land v 64 <> 0) \/
  (Z.shiftr v 6 = 2 /\ Z.land v 64 = 0 /\ Z.land v 128 <> 0).
Proof.
  intros H. each_opcode H;
    first [ left; repeat split; reflexivity
          | right; left; split; [reflexivity | vm_compute; congruence]
          | right; right; split; [reflexivity|];
            split; [reflexivity | vm_compute; congruence] ].
Qed.

Lemma mask_mask v : mask (mask v) = mask v.
Proof. apply mask_small, mask_bounds. Qed.

Lemma bind_fail {A B} (m : M A) (k : A -> M B) s s' e :
  m s = (s', inl e) -> bind m k s = (s', inl e).
Proof. intros Hm. unfold bind. now rewrite Hm. Qed.

Lemma OP_A_fset_ok s a :
  0 <= mask a < REGISTERS ->
  OP_A_fset (Some a) s = (set_operand_a (Some (mask a)) s, inr tt).
Proof.
  intros H. unfold OP_A_fset.
  destruct (Z.leb_spec 0 (mask a)); [|lia].
  destruct (Z.ltb_spec (mask a) REGISTERS); [reflexivity|lia].
Qed.

Lemma OP_A_fset_fail s a :
  REGISTERS <= mask a ->
  OP_A_fset (Some a) s =
    (s, inl (AssertionError ("operand_a out of range: " ++ str (mask a)))).
Proof.
  intros H. unfold OP_A_fset.
  destruct (Z.ltb_spec (mask a) REGISTERS); [lia|].
  now rewrite andb_false_r.
Qed.

Lemma OP_B_fset_ok s b :
  mask b < (if Z.land (_instruction_register s) ALU_MASK =? 0
            then MAX_MEM else REGISTERS) ->
  OP_B_fset (Some b) s = (set_operand_b (Some (mask b)) s, inr tt).
Proof.
  intros H. unfold OP_B_fset, bind, IR_fget, gets.
  destruct (Z.ltb_spec (mask b)
              (if Z.land (_instruction_register s) ALU_MASK =? 0
               then MAX_MEM else REGISTERS)); [reflexivity|lia].
Qed.

Lemma OP_B_fset_fail s b :
  (if Z.land (_instruction_register s) ALU_MASK =? 0
   then MAX_MEM else REGISTERS) <= mask b ->
  OP_B_fset (Some b) s =
    (s, inl (AssertionError ("operand_b out of range for ALU operation: "
                             ++ str (mask b)))).
Proof.
  intros H. unfold OP_B_fset, bind, IR_fget, gets.
  destruct (Z.ltb_spec (mask b)
              (if Z.land (_instruction_register s) ALU_MASK =? 0
               then MAX_MEM else REGISTERS)); [lia|reflexivity].
Qed.

Ltac decode_prefix Hop Hsp :=
  unfold IR_fset; rewrite Hop;
  (eapply bind_step; [reflexivity|]);
  (eapply bind_step; [reflexivity|]);
  change (Z.shiftl 1 (BITS - 2)) with 64;
  change (Z.shiftl 1 (BITS - 1)) with 128;
  repeat match goal with
    | H : Z.land _ _ = 0 |- _ => rewrite H
    | H : Z.land ?x ?y <> 0 |- _ =>
        destruct (Z.eqb_spec (Z.land x y) 0) as [|_]; [contradiction|]
    end;
  cbn [negb Z.eqb];
  (eapply bind_step; [reflexivity|]); proj;
  (eapply bind_step; [apply SP_fget_ok; exact Hsp|]);
  unfold assert.

Lemma operands_fetched_zero v :
  Z.land v 64 = 0 -> Z.land v 128 = 0 -> operands_fetched v = 0.
Proof.
  intros H64 H128. unfold operands_fetched.
  change (Z.shiftl 1 (BITS - 2)) with 64.
  change (Z.shiftl 1 (BITS - 1)) with 128.
  now rewrite H64, H128.
Qed.

Lemma operands_fetched_one v : Z.land v 64 <> 0 -> operands_fetched v = 1.
Proof.
  intros H64. unfold operands_fetched.
  change (Z.shiftl 1 (BITS - 2)) with 64.
  now destruct (Z.eqb_spec (Z.land v 64) 0).
Qed.

Lemma operands_fetched_two v :
  Z.land v 64 = 0 -> Z.land v 128 <> 0 -> operands_fetched v = 2.
Proof.
  intros H64 H128. unfold operands_fetched.
  change (Z.shiftl 1 (BITS - 2)) with 64.
  change (Z.shiftl 1 (BITS - 1)) with 128.
  rewrite H64. now destruct (Z.eqb_spec (Z.land v 128) 0).
Qed.

(** The two ways the setter of IR ends on a known opcode. *)
Lemma IR_fset_outcome s v sp :
  length (_ram s) = Z.to_nat MAX_MEM ->
  _reg s !! 7%nat = Some sp ->
  is_opcode (mask v) = true ->
  (exists s',
     IR_fset v s = (s', inr tt) /\
     decode_done s s' (mask v) /\ decoded s' /\
     (0 < operands_fetched (mask v) ->
      _program_counter s + operands_fetched (mask v) < sp)) \/
  (exists s' msg,
     IR_fset v s = (s', inl (AssertionError msg)) /\
     decode_failed s s' (mask v) /\
     (sp <= _program_counter s + Z.shiftr (mask v) 6 ->
      s' = set_instruction_register (mask v) s)).
Proof.
  intros Hram Hsp Hop.
  destruct (opcode_arity _ Hop)
    as [(Hn & H64 & H128)|[(Hn & H64)|(Hn & H64 & H128)]]; rewrite Hn.
  - pose proof (operands_fetched_zero _ H64 H128) as Hf.
    left. eexists. split; [apply IR_fset_zero; assumption|].
    unfold decode_done, decoded, decoded_as. proj. rewrite Hf.
    repeat split; try reflexivity; try assumption; lia.
  - pose proof (operands_fetched_one _ H64) as Hf.
    destruct (Z.ltb_spec (_program_counter s + 1) sp) as [Hlt|Hge].
    + destruct (Z.lt_ge_cases
                  (mask (mask (memory s (mask (_program_counter s + 1)))))
                  REGISTERS) as [Ha|Ha].
      * left. eexists. split.
        { decode_prefix Hop Hsp.
          destruct (Z.ltb_spec (_program_counter s + 1) sp); [|lia].
          eapply bind_step; [reflexivity|].
          eapply bind_step; [apply ram_read_any; exact Hram|].
          eapply bind_step; [|reflexivity].
          apply OP_A_fset_ok. unfold memory in *. proj.
          split; [apply mask_bounds | exact Ha]. }
        unfold decode_done, decoded, decoded_as, memory in *. proj.
        rewrite ?mask_mask in *. rewrite Hf.
        repeat split; try reflexivity; try assumption; try lia.
        intros _. eexists. split; [reflexivity|].
        split; [apply mask_bounds | exact Ha].
      * right. do 2 eexists. split; [|split].
        -- decode_prefix Hop Hsp.
           destruct (Z.ltb_spec (_program_counter s + 1) sp); [|lia].
           eapply bind_step; [reflexivity|].
           eapply bind_step; [apply ram_read_any; exact Hram|].
           apply bind_fail, OP_A_fset_fail. unfold memory in *. proj.
           exact Ha.
        -- repeat split.
        -- lia.
    + right. do 2 eexists. split; [|split].
      * decode_prefix Hop Hsp.
        destruct (Z.ltb_spec (_program_counter s + 1) sp); [lia|].
        apply bind_fail. reflexivity.
      * repeat split.
      * reflexivity.
  - pose proof (operands_fetched_two _ H64 H128) as Hf.
    destruct (Z.ltb_spec (_program_counter s + 2) sp) as [Hlt|Hge].
    + destruct (Z.lt_ge_cases
                  (mask (mask (memory s (mask (_program_counter s + 1)))))
                  REGISTERS) as [Ha|Ha].
      * destruct (Z.lt_ge_cases
                    (mask (mask (memory s (mask (_program_counter s + 2)))))
                    (if Z.land (mask v) ALU_MASK =? 0
                     then MAX_MEM else REGISTERS)) as [Hb|Hb].
        -- left. eexists. split.
           { decode_prefix Hop Hsp.
             destruct (Z.ltb_spec (_program_counter s + 2) sp); [|lia].
             eapply bind_step; [reflexivity|].
             eapply bind_step; [apply ram_read_any; exact Hram|].
             eapply bind_step.
             { apply OP_A_fset_ok. unfold memory in *. proj.
               split; [apply mask_bounds | exact Ha]. }
             eapply bind_step; [apply ram_read_any; proj; exact Hram|].
             apply OP_B_fset_ok. unfold memory in *. proj. exact Hb. }
           unfold decode_done, decoded, decoded_as, memory in *. proj.
           rewrite ?mask_mask in *. rewrite Hf.
           repeat split; try reflexivity; try assumption; try lia.
           ++ intros _. eexists. split; [reflexivity|].
              split; [apply mask_bounds | exact Ha].
           ++ intros _. eexists. split; [reflexivity|].
              split; [apply mask_bounds | exact Hb].
        -- right. do 2 eexists. split; [|split].
           ++ decode_prefix Hop Hsp.
              destruct (Z.ltb_spec (_program_counter s + 2) sp); [|lia].
              eapply bind_step; [reflexivity|].
              eapply bind_step; [apply ram_read_any; exact Hram|].
              eapply bind_step.
              { apply OP_A_fset_ok. unfold memory in *. proj.
                split; [apply mask_bounds | exact Ha]. }
              eapply bind_step; [apply ram_read_any; proj; exact Hram|].
              apply OP_B_fset_fail. unfold memory in *. proj. exact Hb.
           ++ repeat split.
           ++ lia.
      * right. do 2 eexists. split; [|split].
        -- decode_prefix Hop Hsp.
           destruct (Z.ltb_spec (_program_counter s + 2) sp); [|lia].
           eapply bind_step; [reflexivity|].
           eapply bind_step; [apply ram_read_any; exact Hram|].
           apply bind_fail, OP_A_fset_fail. unfold memory in *. proj.
           exact Ha.
        -- repeat split.
        -- lia.
    + right. do 2 eexists. split; [|split].
      * decode_prefix Hop Hsp.
        destruct (Z.ltb_spec (_program_counter s + 2) sp); [lia|].
        apply bind_fail. reflexivity.
      * repeat split.
      * reflexivity.
Qed.

(** X6. A failed decode is not atomic.  On an object whose memory has
    MAX_MEM cells and whose stack pointer reads [sp], a decode that
    fails raises AssertionError and nothing else, and it changes neither
    the registers, the memory, PC, FL, the running flag nor operand B.
    An unknown byte leaves the whole object as it was; a known opcode is
    already stored in IR when its operands are refused, and when they
    are refused for lying in the stack the object differs from the one
    before in IR only, so that IR and the operands no longer belong to
    the same instruction. *)
Theorem decode_failure_keeps_new_opcode (s : CPU) (v sp : Z) (e : exception)
  (Hram : length (_ram s) = Z.to_nat MAX_MEM)
  (Hsp : _reg s !! 7%nat = Some sp)
  (Hfail : snd (IR_fset v s) = inl e) :
  let s' := fst (IR_fset v s) in
  (exists msg, e = AssertionError msg) /\
  (is_opcode (mask v) = false -> s' = s) /\
  (is_opcode (mask v) = true ->
   decode_failed s s' (mask v) /\
   (sp <= _program_counter s + Z.shiftr (mask v) 6 ->
    s' = set_instruction_register (mask v) s)).
Proof.
  intros s'. subst s'.
  destruct (is_opcode (mask v)) eqn:Hop.
  - destruct (IR_fset_outcome s v sp Hram Hsp Hop)
      as [(s' & E & _)|(s' & msg & E & Hd & Hs)];
      rewrite E in *; cbn [fst snd] in *; [discriminate Hfail|].
    injection Hfail as <-.
    split; [eexists; reflexivity|]. split; [discriminate|].
    intros _. split; assumption.
  - rewrite (IR_fset_invalid s v Hop) in *. cbn [fst snd] in *.
    injection Hfail as <-.
    split; [eexists; reflexivity|]. split; [reflexivity|discriminate].
Qed.

Lemma decode_failure_keeps_new_opcode_witness :
  let s := set_program_counter 243 new_CPU in
  let s' := fst (IR_fset 130 s) in
  (exists msg,
     AssertionError "CPU.IR: instruction operands in stack at: 243"
     = AssertionError msg) /\
  (is_opcode (mask 130) = false -> s' = s) /\
  (is_opcode (mask 130) = true ->
   decode_failed s s' (mask 130) /\
   (244 <= _program_counter s + Z.shiftr (mask 130) 6 ->
    s' = set_instruction_register (mask 130) s)).
Proof.
  apply (decode_failure_keeps_new_opcode
           (set_program_counter 243 new_CPU) 130 244);
    vm_compute; reflexivity.
Defined.

(** X7. What a decode that returns has established.  On a well-formed
    object the setter of IR returns only for a key of the two tables;
    it then has changed IR, the operands, MAR and MDR and nothing the
    program can see; operand A is the byte after the opcode and a
    register number if the opcode has operands and None otherwise,
    operand B is the second byte after the opcode if it has two operands
    (a register number for an ALU opcode) and None otherwise; and the
    operand bytes lie below the stack pointer. *)
Theorem decode_reads_operands (s s' : CPU) (v sp : Z)
  (Hwf : well_formed s)
  (Hsp : getitem (_reg s) SP_REG = inr sp)
  (Hok : IR_fset v s = (s', inr tt)) :
  is_opcode (mask v) = true /\
  decode_done s s' (mask v) /\
  decoded s' /\
  well_formed s' /\
  (0 < operands_fetched (mask v) ->
   _program_counter s + operands_fetched (mask v) < sp).
Proof.
  destruct (is_opcode (mask v)) eqn:Hop.
  - apply lookup_getitem in Hsp; [|vm_compute; discriminate].
    destruct (IR_fset_outcome s v sp (wf_ram_length s Hwf) Hsp Hop)
      as [(s1 & E & Hd & Hdec & Hbelow)|(s1 & msg & E & _)];
      rewrite E in Hok; [|discriminate Hok].
    injection Hok as <-.
    pose proof (wf_IR_fset v s Hwf) as Hwf'. rewrite E in Hwf'.
    split; [reflexivity|]. split; [exact Hd|]. split; [exact Hdec|].
    split; [apply Hwf' | exact Hbelow].
  - rewrite (IR_fset_invalid s v Hop) in Hok. discriminate Hok.
Qed.

Lemma decode_reads_operands_witness :
  let s := fst (load add_program blank) in
  let s' := fst (IR_fset 130 s) in
  is_opcode (mask 130) = true /\
  decode_done s s' (mask 130) /\
  decoded s' /\
  well_formed s' /\
  (0 < operands_fetched (mask 130) ->
   _program_counter s + operands_fetched (mask 130) < 244).
Proof.
  apply (decode_reads_operands (fst (load add_program blank))
           (fst (IR_fset 130 (fst (load add_program blank)))) 130 244).
  - apply well_formedb_ok. vm_compute. reflexivity.
  - vm_compute. reflexivity.
  - vm_compute. reflexivity.
Defined.
(** ** The failures of a run *)

Lemma steady_closed old : closed (steady old) (checked_failure old).
Proof.
  constructor; unfold steady.
  - intros s [Hs _]. destruct Hs; auto.
  - intros v s [Hs Ho]. split; [apply (closed_MAR _ _ wf_closed), Hs | exact Ho].
  - intros v s [Hs Ho]. split; [apply (closed_MDR _ _ wf_closed), Hs | exact Ho].
  - intros v s Hv [Hs Ho].
    split; [apply (closed_FL _ _ wf_closed); assumption | exact Ho].
  - intros v s Hv [Hs Ho].
    split; [apply (closed_PC _ _ wf_closed); assumption | exact Ho].
  - intros i v s Hv [Hs Ho].
    split; [apply (closed_reg _ _ wf_closed); assumption | exact Ho].
  - intros i v s Hv [Hs Ho].
    split; [apply (closed_ram _ _ wf_closed); assumption | exact Ho].
  - intros msg. left. eexists. reflexivity.
Qed.

Lemma executing_closed old ir oa ob :
  closed (executing old ir oa ob) (checked_failure old).
Proof.
  pose proof (steady_closed old) as HS.
  constructor; unfold executing.
  - intros s [Hs _]. exact (closed_shape _ _ HS s Hs).
  - intros v s [Hs Ho]. split; [apply (closed_MAR _ _ HS), Hs | exact Ho].
  - intros v s [Hs Ho]. split; [apply (closed_MDR _ _ HS), Hs | exact Ho].
  - intros v s Hv [Hs Ho].
    split; [apply (closed_FL _ _ HS); assumption | exact Ho].
  - intros v s Hv [Hs Ho].
    split; [apply (closed_PC _ _ HS); assumption | exact Ho].
  - intros i v s Hv [Hs Ho].
    split; [apply (closed_reg _ _ HS); assumption | exact Ho].
  - intros i v s Hv [Hs Ho].
    split; [apply (closed_ram _ _ HS); assumption | exact Ho].
  - apply (closed_assert _ _ HS).
Qed.

Lemma executing_wf old ir oa ob s : executing old ir oa ob s -> well_formed s.
Proof. intros [[Hs _] _]. exact Hs. Qed.

Lemma ex_OP_A_fget old ir oa ob :
  triple (executing old ir oa ob) (checked_failure old) OP_A_fget
    (fun o => o = oa).
Proof. intros s Hs. cbn. split; [exact Hs | apply Hs]. Qed.

Lemma ex_OP_B_fget old ir oa ob :
  triple (executing old ir oa ob) (checked_failure old) OP_B_fget
    (fun o => o = ob).
Proof. intros s Hs. cbn. split; [exact Hs | apply Hs]. Qed.

Lemma ex_IR_fget old ir oa ob :
  triple (executing old ir oa ob) (checked_failure old) IR_fget
    (fun v => v = ir).
Proof. intros s Hs. cbn. split; [exact Hs | apply Hs]. Qed.

Lemma ex_PC_fget old ir oa ob :
  triple (executing old ir oa ob) (checked_failure old) PC_fget byte.
Proof.
  intros s Hs. cbn. split; [exact Hs|].
  exact (wf_PC s (executing_wf _ _ _ _ _ Hs)).
Qed.

Lemma ex_FL_fget old ir oa ob :
  triple (executing old ir oa ob) (checked_failure old) FL_fget byte.
Proof.
  intros s Hs. cbn. split; [exact Hs|].
  exact (wf_FL s (executing_wf _ _ _ _ _ Hs)).
Qed.

Lemma ex_registers old ir oa ob :
  triple (executing old ir oa ob) (checked_failure old)
    (gets (fun s => Z.of_nat (length (_reg s)))) (fun n => n = REGISTERS).
Proof.
  intros s Hs. cbn. split; [exact Hs|].
  rewrite (wf_reg_length s (executing_wf _ _ _ _ _ Hs)). reflexivity.
Qed.

(** Reading a register on an object of the invariant [Inv], whatever
    else [Inv] says, gives a word. *)
Lemma triple_reg_byte (Inv : CPU -> Prop) Ex i :
  (forall s, Inv s -> well_formed s) -> 0 <= i < REGISTERS ->
  triple Inv Ex (reg_getitem (Some i)) byte.
Proof.
  intros Hwf Hi s Hs. pose proof (Hwf s Hs) as W.
  destruct (lookup_lt_is_Some_2 (_reg s) (Z.to_nat i)) as [v Hv].
  { rewrite (wf_reg_length s W). change REGISTERS with 8 in *. lia. }
  rewrite (reg_getitem_ok s i v); [|lia | exact Hv].
  split; [exact Hs|]. exact (byte_lookup _ _ _ (wf_reg_bytes s W) Hv).
Qed.

Lemma ex_reg_getitem old ir oa ob i :
  0 <= i < REGISTERS ->
  triple (executing old ir oa ob) (checked_failure old)
    (reg_getitem (Some i)) byte.
Proof. apply triple_reg_byte, executing_wf. Qed.

Lemma ex_print old ir oa ob text :
  triple (executing old ir oa ob) (checked_failure old) (print text)
    (fun _ => True).
Proof.
  apply triple_modify. intros s [[Hs Ho] He].
  split; [split; [apply wf_write_stdout, Hs | exact Ho] | exact He].
Qed.

Lemma ex_masked_write old ir oa ob i v :
  0 <= i < REGISTERS ->
  triple (executing old ir oa ob) (checked_failure old)
    (reg_setitem (Some i) v ;;
     r <- reg_getitem (Some i) ;;
     reg_setitem (Some i) (Z.land r (MAX_MEM - 1)))
    (fun _ => True).
Proof.
  intros Hi s Hs. rewrite masked_write_eq, index_ok.
  - split; [|trivial].
    apply (closed_reg _ _ (executing_closed old ir oa ob));
      [apply mask_byte | exact Hs].
  - rewrite (wf_reg_length s (executing_wf _ _ _ _ _ Hs)).
    change REGISTERS with 8 in *. lia.
Qed.

Lemma ex_IM_restore old ir oa ob :
  triple (executing old ir oa ob) (checked_failure old) IM_restore
    (fun _ => True).
Proof.
  intros s Hs. unfold IM_restore. destruct (_old_IM s) as [im|] eqn:Ho.
  - apply (triple_IM_fset _ _ (executing_closed old ir oa ob) im s Hs).
  - split; [exact Hs|]. right. split; [|reflexivity].
    destruct old as [o|]; [|reflexivity].
    exfalso. apply (proj2 (proj1 Hs)); [discriminate | exact Ho].
Qed.

Create HintDb run_failures.

#[local] Hint Resolve executing_closed steady_closed mask_byte
  triple_SP_fget triple_ram_read triple_ram_write triple_SP_fset
  triple_PC_fset triple_FL_fset triple_IM_fset triple_IS_fset
  triple_SP_iadd triple_SP_isub triple_PC_iadd triple_assert
  ex_OP_A_fget ex_OP_B_fget ex_IR_fget ex_PC_fget ex_FL_fget ex_registers
  ex_reg_getitem ex_print ex_masked_write ex_IM_restore triple_reg_setitem
  : run_failures.

Ltac known :=
  repeat match goal with
         | H : byte _ |- _ => unfold byte in H
         | H : _ && _ = true |- _ => apply andb_true_iff in H; destruct H
         | H : (_ <? _) = true |- _ => apply Z.ltb_lt in H
         | H : (_ >=? _) = true |- _ => apply Z.geb_le in H
         | H : (_ <=? _) = true |- _ => apply Z.leb_le in H
         end.

Ltac side := solve [ trivial | known; unfold byte; arith ].

Ltac run_chain :=
  repeat first
    [ solve [eauto with run_failures]
    | apply triple_ret; solve [trivial]
    | eapply triple_bind;
      [ solve [eauto with run_failures] | intros ? ?; cbv beta in *; subst ]
    | eapply triple_bind;
      [ first [ apply ex_reg_getitem | eapply triple_reg_setitem
              | apply ex_masked_write ];
        solve [eauto with run_failures | side]
      | intros ? ?; cbv beta in *; subst ]
    | match goal with
      | |- triple _ _ (if ?c then _ else _) _ => destruct c
      end ];
  try solve [eauto with run_failures | side].

Lemma ex_jump_to_reg old ir a ob :
  0 <= a < REGISTERS ->
  triple (executing old ir (Some a) ob) (checked_failure old) jump_to_reg
    (fun _ => True).
Proof. intros Ha. unfold jump_to_reg. run_chain. Qed.

Lemma ex_CALL old ir a ob :
  0 <= a < REGISTERS ->
  triple (executing old ir (Some a) ob) (checked_failure old) CALL
    (fun _ => True).
Proof. intros Ha. unfold CALL. run_chain. Qed.

Lemma ex_HLT old ir oa ob :
  triple (executing old ir oa ob) (checked_failure old) HLT (fun _ => True).
Proof.
  apply triple_modify. intros s [[Hs Ho] He].
  split; [split; [apply wf_set_running, Hs | exact Ho] | exact He].
Qed.

Lemma triple_IS_set_bit (Inv : CPU -> Prop) Ex n :
  closed Inv Ex -> 0 <= n -> triple Inv Ex (IS_set_bit n) (fun _ => True).
Proof.
  intros HI Hn. unfold IS_set_bit. destruct (Z.ltb_spec n 0); [lia|].
  unfold IS_ior, IS_fget.
  eapply triple_bind.
  { apply (triple_reg_getitem _ _ HI). vm_compute. split; congruence. }
  intros v _. apply (triple_IS_fset _ _ HI).
Qed.

Lemma ex_INT old ir a ob :
  0 <= a < REGISTERS ->
  triple (executing old ir (Some a) ob) (checked_failure old) INT
    (fun _ => True).
Proof.
  intros Ha. unfold INT.
  eapply triple_bind; [apply ex_OP_A_fget|]. intros o ->.
  eapply triple_bind; [apply ex_reg_getitem, Ha|]. intros n Hn.
  eapply triple_bind; [eauto with run_failures|]. intros _ _.
  eapply triple_bind.
  { apply triple_IS_set_bit; [apply executing_closed | apply Hn]. }
  intros _ _.
  eauto with run_failures.
Qed.

Lemma ex_IRET old ir oa ob :
  triple (executing old ir oa ob) (checked_failure old) IRET (fun _ => True).
Proof.
  apply (triple_IRET _ _ (executing_closed old ir oa ob)), ex_IM_restore.
Qed.

Lemma ex_JEQ old ir a ob :
  0 <= a < REGISTERS ->
  triple (executing old ir (Some a) ob) (checked_failure old) JEQ
    (fun _ => True).
Proof. intros Ha. unfold JEQ, jump_to_reg. run_chain. Qed.

Lemma ex_JGE old ir a ob :
  0 <= a < REGISTERS ->
  triple (executing old ir (Some a) ob) (checked_failure old) JGE
    (fun _ => True).
Proof. intros Ha. unfold JGE, jump_to_reg. run_chain. Qed.

Lemma ex_JGT old ir a ob :
  0 <= a < REGISTERS ->
  triple (executing old ir (Some a) ob) (checked_failure old) JGT
    (fun _ => True).
Proof. intros Ha. unfold JGT, jump_to_reg. run_chain. Qed.

Lemma ex_JLE old ir a ob :
  0 <= a < REGISTERS ->
  triple (executing old ir (Some a) ob) (checked_failure old) JLE
    (fun _ => True).
Proof. intros Ha. unfold JLE, jump_to_reg. run_chain. Qed.

Lemma ex_JLT old ir a ob :
  0 <= a < REGISTERS ->
  triple (executing old ir (Some a) ob) (checked_failure old) JLT
    (fun _ => True).
Proof. intros Ha. unfold JLT, jump_to_reg. run_chain. Qed.

Lemma ex_JMP old ir a ob :
  0 <= a < REGISTERS ->
  triple (executing old ir (Some a) ob) (checked_failure old) JMP
    (fun _ => True).
Proof. apply ex_jump_to_reg. Qed.

Lemma ex_JNE old ir a ob :
  0 <= a < REGISTERS ->
  triple (executing old ir (Some a) ob) (checked_failure old) JNE
    (fun _ => True).
Proof. intros Ha. unfold JNE, jump_to_reg. run_chain. Qed.

Lemma ex_assert_register_b old ir oa b :
  triple (executing old ir oa (Some b)) (checked_failure old)
    assert_register_b (fun r => r = b /\ 0 <= b < REGISTERS).
Proof.
  unfold assert_register_b.
  eapply triple_bind; [apply ex_OP_B_fget|]. intros o ->.
  eapply triple_bind; [apply ex_registers|]. intros n ->.
  eapply triple_bind; [eauto with run_failures|]. intros ? Hc. cbv beta in Hc.
  apply triple_ret. known. split; [reflexivity | lia].
Qed.

Lemma ex_LD old ir a b :
  0 <= a < REGISTERS ->
  triple (executing old ir (Some a) (Some b)) (checked_failure old) LD
    (fun _ => True).
Proof.
  intros Ha. unfold LD.
  eapply triple_bind; [apply ex_assert_register_b|]. intros r [-> Hb].
  run_chain.
Qed.

Lemma ex_LDI old ir a b :
  0 <= a < REGISTERS -> byte b ->
  triple (executing old ir (Some a) (Some b)) (checked_failure old) LDI
    (fun _ => True).
Proof. intros Ha Hb. unfold LDI. run_chain. Qed.

Lemma ex_NOP old ir oa ob :
  triple (executing old ir oa ob) (checked_failure old) NOP (fun _ => True).
Proof. now apply triple_ret. Qed.

Lemma ex_POP old ir a ob :
  0 <= a < REGISTERS ->
  triple (executing old ir (Some a) ob) (checked_failure old) POP
    (fun _ => True).
Proof. intros Ha. unfold POP. run_chain. Qed.

Lemma ex_PRA old ir a ob :
  0 <= a < REGISTERS ->
  triple (executing old ir (Some a) ob) (checked_failure old) PRA
    (fun _ => True).
Proof.
  intros Ha. unfold PRA.
  eapply triple_bind; [apply ex_OP_A_fget|]. intros o ->.
  eapply triple_bind; [apply ex_reg_getitem, Ha|]. intros v Hv.
  apply (triple_bind _ _ _ _ (fun _ => True)); [|intros _ _; apply ex_print].
  unfold byte in Hv. change MAX_MEM with 256 in Hv.
  destruct (Z.ltb_spec v 0); [lia|].
  destruct (Z.ltb_spec 1114111 v); [lia|]. now apply triple_ret.
Qed.

Lemma ex_PRN old ir a ob :
  0 <= a < REGISTERS ->
  triple (executing old ir (Some a) ob) (checked_failure old) PRN
    (fun _ => True).
Proof. intros Ha. unfold PRN. run_chain. Qed.

Lemma ex_PUSH old ir a ob :
  0 <= a < REGISTERS ->
  triple (executing old ir (Some a) ob) (checked_failure old) PUSH
    (fun _ => True).
Proof. intros Ha. unfold PUSH. run_chain. Qed.

Lemma ex_RET old ir oa ob :
  triple (executing old ir oa ob) (checked_failure old) RET (fun _ => True).
Proof. unfold RET. run_chain. Qed.

Lemma ex_ST old ir a b :
  0 <= a < REGISTERS ->
  triple (executing old ir (Some a) (Some b)) (checked_failure old) ST
    (fun _ => True).
Proof.
  intros Ha. unfold ST.
  eapply triple_bind; [apply ex_assert_register_b|]. intros r [-> Hb].
  run_chain.
Qed.

Lemma ex_ADDI old ir a b :
  0 <= a < REGISTERS ->
  triple (executing old ir (Some a) (Some b)) (checked_failure old) ADDI
    (fun _ => True).
Proof.
  intros Ha. unfold ADDI.
  eapply triple_bind; [apply ex_OP_A_fget|]. intros o ->.
  eapply triple_bind; [apply ex_reg_getitem, Ha|]. intros x Hx.
  eapply triple_bind; [apply ex_OP_B_fget|]. intros o ->.
  change (Z.shiftl 1 BITS - 1) with (MAX_MEM - 1).
  apply ex_masked_write, Ha.
Qed.

(** *** The ALU *)

Lemma alu_try_eq s op a reg_b x y f :
  0 <= a < Z.of_nat (length (_reg s)) ->
  getitem (_reg s) a = inr x ->
  operand_b_value s reg_b y ->
  ALU_OP op = Some f ->
  alu_try op (Some a) reg_b s =
    match f x y with
    | inl e => (s, inl e)
    | inr r =>
        if String.eqb op "CMP" then (set_flags (mask r) s, inr tt)
        else (set_reg (<[Z.to_nat a := mask r]> (_reg s)) s, inr tt)
    end.
Proof.
  intros Ha Hx Hy Hf. unfold alu_try.
  eapply bind_step; [unfold reg_getitem; rewrite Hx; reflexivity|].
  eapply bind_step with (a := y) (s' := s).
  { destruct reg_b as [b|]; cbn in Hy.
    - destruct Hy as (v & Hv & ->). unfold bind, reg_getitem, ret.
      now rewrite Hv.
    - subst y. reflexivity. }
  rewrite Hf. unfold bind at 1, lift.
  destruct (f x y) as [e|r]; [reflexivity|].
  destruct (String.eqb op "CMP"); [reflexivity|].
  rewrite masked_write_eq, index_ok by exact Ha. reflexivity.
Qed.

(** Every entry of [ALU] has the ALU bit and at least one operand, and
    names an operation of [ALU_OP] that, given as many operands as the
    opcode fetches, returns or fails on a zero divisor. *)
Lemma ALU_entry code op :
  ALU code = Some op ->
  Z.land code ALU_MASK <> 0 /\
  0 < operands_fetched code /\
  exists f,
    ALU_OP op = Some f /\
    forall x y,
      (operands_fetched code = 2 -> exists v, y = Some v /\ 0 <= v) ->
      (operands_fetched code < 2 -> y = None) ->
      (exists r, f x y = inr r) \/ f x y = inl ZeroDivisionError.
Proof.
  intros H. unfold ALU in H.
  destruct code as [|p|p]; try discriminate H.
  do 8 (try (destruct p as [p|p|]; try discriminate H));
    injection H as <-;
    (split; [vm_compute; congruence|]);
    (split; [reflexivity|]);
    eexists; (split; [reflexivity|]);
    intros x y H2 H1;
    first [ destruct (H2 eq_refl) as (v & -> & Hv)
          | rewrite (H1 eq_refl) ];
    cbn [with_y];
    first [ left; eexists; reflexivity
          | destruct (Z.ltb_spec v 0); [lia | left; eexists; reflexivity]
          | destruct (v =? 0); [right | left; eexists]; reflexivity
          | destruct (x =? v); left; eexists; reflexivity ].
Qed.

Lemma OPCODES_entry code handler :
  OPCODES code = Some handler -> Z.land code ALU_MASK = 0.
Proof.
  intros H. unfold OPCODES in H.
  destruct code as [|p|p]; try discriminate H; [reflexivity|].
  do 8 (try (destruct p as [p|p|]; try discriminate H)); reflexivity.
Qed.

Lemma ex_alu old ir code op a ob :
  ALU code = Some op ->
  0 <= a < REGISTERS ->
  (operands_fetched code = 2 ->
   exists b, ob = Some b /\ 0 <= b < REGISTERS) ->
  (operands_fetched code < 2 -> ob = None) ->
  triple (executing old ir (Some a) ob) (checked_failure old)
    (alu op (Some a) ob) (fun _ => True).
Proof.
  intros Hop Ha H2 H1 s Hs.
  pose proof (executing_wf _ _ _ _ _ Hs) as W.
  pose proof (wf_reg_length s W) as Hlen.
  destruct (ALU_entry code op Hop) as (_ & _ & f & Hf & Hout).
  destruct (lookup_lt_is_Some_2 (_reg s) (Z.to_nat a)) as [x Hx].
  { rewrite Hlen. change REGISTERS with 8 in *. lia. }
  assert (Hy : exists y, operand_b_value s ob y /\
                 (operands_fetched code = 2 -> exists v, y = Some v /\ 0 <= v)
                 /\ (operands_fetched code < 2 -> y = None)).
  { destruct (Z.eq_dec (operands_fetched code) 2) as [E|E].
    - destruct (H2 E) as (b & -> & Hb).
      destruct (lookup_lt_is_Some_2 (_reg s) (Z.to_nat b)) as [v Hv].
      { rewrite Hlen. change REGISTERS with 8 in *. lia. }
      exists (Some v). split; [|split].
      + exists v. split; [apply getitem_ok; [lia | exact Hv] | reflexivity].
      + intros _. exists v. split; [reflexivity|].
        pose proof (byte_lookup _ _ _ (wf_reg_bytes s W) Hv). lia.
      + intros Hlt. lia.
    - assert (Hlt : operands_fetched code < 2).
      { unfold operands_fetched in *.
        destruct (negb _); [lia|]. destruct (negb _); [|lia]. congruence. }
      rewrite (H1 Hlt). exists None. split; [reflexivity|].
      split; [intros; contradiction | reflexivity]. }
  destruct Hy as (y & Hy & Hy2 & Hy1).
  unfold alu, try_except.
  rewrite (alu_try_eq s op a ob x y f);
    [ | rewrite Hlen; change REGISTERS with 8 in *; lia
      | apply getitem_ok; [lia | exact Hx] | exact Hy | exact Hf ].
  destruct (Hout x y Hy2 Hy1) as [[r ->] | ->].
  - destruct (String.eqb op "CMP").
    + split; [|trivial].
      apply (closed_FL _ _ (executing_closed old ir (Some a) ob));
        [apply mask_byte | exact Hs].
    + split; [|trivial].
      apply (closed_reg _ _ (executing_closed old ir (Some a) ob));
        [apply mask_byte | exact Hs].
  - cbn. split; [|trivial]. destruct Hs as [[Hw Ho] He].
    split; [split|exact He]; [|exact Ho].
    apply wf_set_dunder_running, wf_write_stdout, Hw.
Qed.

(** *** One instruction *)

Ltac operand H a Ha := destruct (H eq_refl) as (a & -> & Ha).

Lemma ex_OPCODES old ir oa ob handler :
  OPCODES ir = Some handler -> decoded_as ir oa ob ->
  triple (executing old ir oa ob) (checked_failure old) handler
    (fun _ => True).
Proof.
  intros H (_ & HA & _ & HB & _).
  pose proof (OPCODES_entry ir handler H) as Hbit. rewrite Hbit in HB.
  change (0 =? 0) with true in HB. cbv iota in HB.
  unfold OPCODES in H.
  destruct ir as [|p|p]; try discriminate H;
    [ injection H as <-; apply ex_NOP | ].
  do 8 (try (destruct p as [p|p|]; try discriminate H));
    injection H as <-;
    try (operand HA a Ha); try (operand HB b Hb);
    auto using ex_CALL, ex_HLT, ex_INT, ex_IRET, ex_JEQ, ex_JGE, ex_JGT,
      ex_JLE, ex_JLT, ex_JMP, ex_JNE, ex_LD, ex_LDI, ex_NOP, ex_POP, ex_PRA,
      ex_PRN, ex_PUSH, ex_RET, ex_ST, ex_ADDI.
Qed.

Lemma ex_execute old ir oa ob :
  decoded_as ir oa ob ->
  triple (executing old ir oa ob) (checked_failure old) execute
    (fun _ => True).
Proof.
  intros Hdec. unfold execute.
  eapply triple_bind; [apply ex_IR_fget|]. intros v ->.
  pose proof Hdec as (Hvalid & HA & _ & HB & HN).
  unfold is_opcode in Hvalid.
  destruct (Z.eqb_spec (Z.land ir ALU_MASK) 0) as [Hbit|Hbit]; cbn [negb].
  - destruct (OPCODES ir) as [handler|] eqn:Hh.
    + exact (ex_OPCODES old ir oa ob handler Hh Hdec).
    + destruct (ALU ir) as [op|] eqn:Hop; [|discriminate Hvalid].
      destruct (ALU_entry ir op Hop) as (Hset & _). contradiction.
  - destruct (ALU ir) as [op|] eqn:Hop.
    + destruct (ALU_entry ir op Hop) as (_ & Hpos & _).
      destruct (HA Hpos) as (a & -> & Ha).
      eapply triple_bind; [apply ex_OP_A_fget|]. intros o ->.
      eapply triple_bind; [apply ex_OP_B_fget|]. intros o ->.
      apply (ex_alu old ir ir op a ob Hop Ha); [|exact HN].
      intros E. destruct (HB E) as (b & -> & Hb). exists b.
      split; [reflexivity|].
      destruct (Z.eqb_spec (Z.land ir ALU_MASK) 0); [contradiction|exact Hb].
    + destruct (OPCODES ir) as [handler|] eqn:Hh; [|discriminate Hvalid].
      pose proof (OPCODES_entry ir handler Hh). contradiction.
Qed.

Lemma ex_advance old ir oa ob :
  triple (executing old ir oa ob) (checked_failure old) advance
    (fun _ => True).
Proof. unfold advance. run_chain. Qed.

(** *** The loop *)

Lemma steady_wf old s : steady old s -> well_formed s.
Proof. intros [Hs _]. exact Hs. Qed.

Lemma steady_interrupt old n :
  0 <= n ->
  triple (steady old) (checked_failure old) (interrupt n) (fun _ => True).
Proof.
  intros Hn. unfold interrupt.
  eapply triple_bind; [apply (triple_assert _ _ (steady_closed old))|].
  intros _ _. apply triple_IS_set_bit; [apply steady_closed | exact Hn].
Qed.

Lemma steady_dispatch old n :
  0 <= n < INTERRUPTS ->
  triple (steady old) (checked_failure old) (dispatch n) (fun _ => True).
Proof.
  intros Hn. pose proof (steady_closed old) as HI. unfold dispatch.
  assert (Hreg : forall i, 0 <= i < REGISTERS ->
            triple (steady old) (checked_failure old)
              (reg_getitem (Some i)) (fun _ => True)).
  { intros i Hi. apply (triple_reg_getitem _ _ HI), Hi. }
  eapply triple_bind; [apply Hreg; vm_compute; split; congruence|].
  intros IM _.
  apply (triple_bind _ _ _ _ (fun _ => True)).
  { apply triple_modify. intros s [Hs _].
    split; [apply wf_set_old_IM, Hs | discriminate]. }
  intros _ _.
  eapply triple_bind; [apply (triple_IM_fset _ _ HI)|]. intros _ _.
  eapply triple_bind; [apply Hreg; vm_compute; split; congruence|].
  intros IS _.
  eapply triple_bind; [apply (triple_IS_fset _ _ HI)|]. intros _ _.
  eapply triple_bind; [apply (triple_SP_isub _ _ HI)|]. intros _ _.
  eapply triple_bind; [apply (triple_SP_fget _ _ HI)|]. intros SP _.
  eapply triple_bind; [apply triple_gets|]. intros PC _.
  eapply triple_bind; [apply (triple_ram_write _ _ HI)|]. intros _ _.
  eapply triple_bind; [apply (triple_SP_isub _ _ HI)|]. intros _ _.
  eapply triple_bind; [apply (triple_SP_fget _ _ HI)|]. intros SP' _.
  eapply triple_bind; [apply triple_gets|]. intros FL _.
  eapply triple_bind; [apply (triple_ram_write _ _ HI)|]. intros _ _.
  eapply triple_bind.
  { apply triple_for_each. intros i Hi.
    change (map Z.of_nat (seq 0 (Z.to_nat (REGISTERS - 1))))
      with [0; 1; 2; 3; 4; 5; 6] in Hi.
    eapply triple_bind; [apply (triple_SP_isub _ _ HI)|]. intros _ _.
    eapply triple_bind; [apply (triple_SP_fget _ _ HI)|]. intros SP'' _.
    eapply triple_bind; [|intros v _; apply (triple_ram_write _ _ HI)].
    apply Hreg. change REGISTERS with 8. cbn [In] in Hi. lia. }
  intros _ _.
  apply (triple_bind _ _ _ _ (fun _ => True)).
  { intros s Hs.
    destruct (lookup_lt_is_Some_2 (_ram s)
                (Z.to_nat (MAX_MEM - INTERRUPTS + n))) as [h Hh].
    { rewrite (wf_ram_length s (steady_wf _ _ Hs)).
      change MAX_MEM with 256. change INTERRUPTS with 8 in *. lia. }
    rewrite (getitem_ok _ _ h); [auto | | exact Hh].
    change MAX_MEM with 256. change INTERRUPTS with 8 in *. lia. }
  intros handler _. apply (triple_PC_fset _ _ HI).
Qed.

Lemma steady_first_interrupt old masked l :
  (forall n, In n l -> 0 <= n < INTERRUPTS) ->
  triple (steady old) (checked_failure old) (first_interrupt masked l)
    (fun _ => True).
Proof.
  induction l as [|n rest IH]; intros Hl; cbn [first_interrupt].
  - now apply triple_ret.
  - destruct (negb (Z.land masked (Z.shiftl 1 n) =? 0)).
    + apply steady_dispatch, Hl. now left.
    + apply IH. intros m Hm. apply Hl. now right.
Qed.

Lemma steady_check_interrupts old :
  triple (steady old) (checked_failure old) check_interrupts (fun _ => True).
Proof.
  pose proof (steady_closed old) as HI. unfold check_interrupts.
  eapply triple_bind.
  { apply (triple_reg_getitem _ _ HI). vm_compute. split; congruence. }
  intros IM _.
  eapply triple_bind.
  { apply (triple_reg_getitem _ _ HI). vm_compute. split; congruence. }
  intros IS _.
  apply steady_first_interrupt. intros n Hn.
  change (map Z.of_nat (seq 0 8)) with [0; 1; 2; 3; 4; 5; 6; 7] in Hn.
  change INTERRUPTS with 8. cbn [In] in Hn. lia.
Qed.

(** The decode hands an object with fitting operands to the rest of
    the cycle. *)
Lemma steady_decode_then old v (k : M unit) :
  (forall ir oa ob, decoded_as ir oa ob ->
     triple (executing old ir oa ob) (checked_failure old) k
       (fun _ => True)) ->
  triple (steady old) (checked_failure old) (IR_fset v ;; k)
    (fun _ => True).
Proof.
  intros Hk s Hs. pose proof (steady_wf _ _ Hs) as W.
  pose proof (wf_IR_fset v s W) as W'.
  unfold bind.
  destruct (is_opcode (mask v)) eqn:Hop.
  - destruct (lookup_lt_is_Some_2 (_reg s) 7) as [sp Hsp].
    { rewrite (wf_reg_length s W). vm_compute. lia. }
    destruct (IR_fset_outcome s v sp (wf_ram_length s W) Hsp Hop)
      as [(s1 & E & Hd & Hdec & _)|(s1 & msg & E & Hd & _)];
      rewrite E in *.
    + assert (Hs1 : steady old s1).
      { split; [apply W'|].
        destruct Hd as (_ & _ & _ & _ & _ & Ho & _). rewrite Ho. apply Hs. }
      pose proof (Hk _ _ _ Hdec s1
                    (conj Hs1 (conj eq_refl (conj eq_refl eq_refl)))) as R.
      destruct (k s1) as [s2 [e|[]]].
      * split; [apply R | apply R].
      * split; [apply R | trivial].
    + split; [|left; eexists; reflexivity].
      split; [apply W'|].
      destruct Hd as (_ & _ & _ & _ & _ & Ho & _). rewrite Ho. apply Hs.
  - rewrite (IR_fset_invalid s v Hop).
    split; [exact Hs | left; eexists; reflexivity].
Qed.

Lemma steady_fetch_execute old :
  triple (steady old) (checked_failure old) fetch_execute (fun _ => True).
Proof.
  pose proof (steady_closed old) as HI. unfold fetch_execute.
  eapply triple_bind; [apply steady_check_interrupts|]. intros _ _.
  eapply triple_bind; [apply triple_gets|]. intros PC _.
  eapply triple_bind; [apply (triple_ram_read _ _ HI)|]. intros opcode _.
  apply steady_decode_then. intros ir oa ob Hdec.
  eapply triple_bind; [apply ex_execute, Hdec|]. intros _ _.
  apply ex_advance.
Qed.

Lemma steady_cycle old d :
  triple (steady old) (checked_failure old) (cycle d) (fun _ => True).
Proof.
  pose proof (steady_closed old) as HI. unfold cycle.
  apply (triple_bind _ _ _ _ (fun _ => True)).
  { destruct (timer_elapsed d); [|now apply triple_ret].
    apply steady_interrupt. vm_compute. congruence. }
  intros _ _.
  destruct (keypress d) as [c|]; [|apply steady_fetch_execute].
  destruct (c =? 27).
  - apply triple_modify. intros s [Hs Ho].
    split; [apply wf_set_running, Hs | exact Ho].
  - eapply triple_bind; [apply (triple_ram_write _ _ HI)|]. intros _ _.
    eapply triple_bind.
    { apply steady_interrupt. vm_compute. congruence. }
    intros _ _. apply steady_fetch_execute.
Qed.

Lemma steady_while_running old fuel devices s e s' :
  steady old s ->
  while_running fuel devices s = Raised e s' ->
  checked_failure old e /\ steady old s'.
Proof.
  revert devices s. induction fuel as [|fuel IH]; intros devices s Hs;
    cbn [while_running]; destruct (_running s); try discriminate.
  pose proof (steady_cycle old (hd quiet devices) s Hs) as Hc.
  destruct (cycle (hd quiet devices) s) as [s1 [e1|[]]].
  - intros [= <- <-]. split; apply Hc.
  - apply IH, Hc.
Qed.

(** X8. The only failures of a run.  From a well-formed object, whatever
    the bytes in memory and whatever the devices report, an exception
    that leaves a [run] which printed ASCII characters only is an
    AssertionError, or the AttributeError of an IRET on an object on
    which no interrupt was ever dispatched; the object it leaves behind
    is well formed.  No program makes the loop index a register or
    memory out of range, read an operand that was not decoded, miss a
    table entry, or reach the SystemError of [alu].  (The condition on
    the output is there for PRA: [print] itself raises a
    UnicodeEncodeError, a ValueError, for a character from 128 on that
    the encoding of the standard output lacks, which [print] as modelled
    here, an append to a list, does not; a run that printed ASCII only
    has met no such character.) *)
Theorem run_raises_only_checked_failures
  (fuel : nat) (devices : list device) (s s' : CPU) (e : exception)
  (out : list string)
  (Hwf : well_formed s)
  (Hrun : run fuel devices s = Raised e s')
  (Hout : stdout s' = stdout s ++ out)
  (Hascii : forallb ascii_only out = true) :
  ((exists msg, e = AssertionError msg) \/
   (_old_IM s = None /\
    e = AttributeError "'CPU' object has no attribute '_old_IM'")) /\
  e <> IndexError /\ e <> TypeError /\ e <> KeyError /\ e <> ValueError /\
  e <> NoneStored /\ e <> ZeroDivisionError /\
  (forall msg, e <> SystemError msg) /\
  well_formed s'.
Proof.
  unfold run in Hrun.
  assert (Hs : steady (_old_IM s) (set_running true s)).
  { split; [apply wf_set_running, Hwf | trivial]. }
  destruct (steady_while_running _ _ _ _ _ _ Hs Hrun) as [He Hs'].
  split; [exact He|].
  assert (Hne : forall e', (forall msg, e' <> AssertionError msg) ->
            e' <> AttributeError "'CPU' object has no attribute '_old_IM'" ->
            e <> e').
  { intros e' H1 H2 ->. destruct He as [[msg He]|[_ He]];
      [exact (H1 msg He) | exact (H2 He)]. }
  do 6 (split; [apply Hne; [intros msg|]; discriminate|]).
  split; [intros msg; apply Hne; [intros msg'|]; discriminate|].
  apply Hs'.
Qed.

Lemma run_raises_only_checked_failures_witness :
  let s := fst (load iret_deep_program blank) in
  let e := AttributeError "'CPU' object has no attribute '_old_IM'" in
  ((exists msg, e = AssertionError msg) \/
   (_old_IM s = None /\
    e = AttributeError "'CPU' object has no attribute '_old_IM'")) /\
  e <> IndexError /\ e <> TypeError /\ e <> KeyError /\ e <> ValueError /\
  e <> NoneStored /\ e <> ZeroDivisionError /\
  (forall msg, e <> SystemError msg) /\
  well_formed (final_state (run 2 [] (fst (load iret_deep_program blank)))).
Proof.
  apply (run_raises_only_checked_failures 2 []
           (fst (load iret_deep_program blank))
           (final_state (run 2 [] (fst (load iret_deep_program blank))))
           (AttributeError "'CPU' object has no attribute '_old_IM'")
           []).
  - apply well_formedb_ok. vm_compute. reflexivity.
  - vm_compute. reflexivity.
  - vm_compute. reflexivity.
  - reflexivity.
Defined.

(** The runs the condition sets aside.  [LDI R0,200; PRA R0; HLT] prints
    the character 200, which is not ASCII; [LDI R0,65; PRA R0; HLT]
    prints an A and is covered. *)
Example PRA_output_beyond_ascii :
  let high := ls8 ["10000010 # LDI R0,200"; "00000000"; "11001000";
                   "01001000 # PRA R0"; "00000000";
                   "00000001 # HLT"]%string in
  let low := ls8 ["10000010 # LDI R0,65"; "00000000"; "01000001";
                  "01001000 # PRA R0"; "00000000";
                  "00000001 # HLT"]%string in
  stdout (final_state (run 3 [] (fst (load high blank)))) = [chr 200] /\
  forallb ascii_only [chr 200] = false /\
  stdout (final_state (run 3 [] (fst (load low blank)))) = ["A"%string] /\
  forallb ascii_only ["A"%string] = true.
Proof.
  cbv zeta. repeat split; vm_compute; reflexivity.
Qed.
(** ** What the methods leave alone *)

Section Frame.
Context {B : Type} (f : CPU -> B).
Hypothesis f_running : forall v s, f (set_running v s) = f s.
Hypothesis f_dunder : forall v s, f (set_dunder_running v s) = f s.
Hypothesis f_reg : forall v s, f (set_reg v s) = f s.
Hypothesis f_PC : forall v s, f (set_program_counter v s) = f s.
Hypothesis f_IR : forall v s, f (set_instruction_register v s) = f s.
Hypothesis f_MAR : forall v s, f (set_memory_address_register v s) = f s.
Hypothesis f_MDR : forall v s, f (set_memory_data_register v s) = f s.
Hypothesis f_FL : forall v s, f (set_flags v s) = f s.
Hypothesis f_OP_A : forall v s, f (set_operand_a v s) = f s.
Hypothesis f_OP_B : forall v s, f (set_operand_b v s) = f s.
Hypothesis f_ram : forall v s, f (set_ram v s) = f s.
Hypothesis f_old_IM : forall v s, f (set_old_IM v s) = f s.
Hypothesis f_stdout : forall v s, f (write_stdout v s) = f s.

Lemma preserves_ret {A} (a : A) : preserves f (ret a).
Proof. intros s. reflexivity. Qed.

Lemma preserves_raise {A} e : preserves f (@raise A e).
Proof. intros s. reflexivity. Qed.

Lemma preserves_gets {A} (g : CPU -> A) : preserves f (gets g).
Proof. intros s. reflexivity. Qed.

Lemma preserves_read {A} (g : CPU -> exception + A) :
  preserves f (fun s => (s, g s)).
Proof. intros s. reflexivity. Qed.

Lemma preserves_assert c msg : preserves f (assert c msg).
Proof. intros s. unfold assert. now destruct c. Qed.

Lemma preserves_bind {A C} (m : M A) (k : A -> M C) :
  preserves f m -> (forall a, preserves f (k a)) -> preserves f (bind m k).
Proof.
  intros Hm Hk s. unfold bind. specialize (Hm s).
  destruct (m s) as [s' [e|a]]; cbn [fst] in *; [exact Hm|].
  now rewrite Hk.
Qed.

Lemma preserves_try {A} (m : M A) h :
  preserves f m -> (forall e, preserves f (h e)) ->
  preserves f (try_except m h).
Proof.
  intros Hm Hh s. unfold try_except. specialize (Hm s).
  destruct (m s) as [s' [e|a]]; cbn [fst] in *; [|exact Hm].
  now rewrite Hh.
Qed.

Lemma preserves_for_each l body :
  (forall i, preserves f (body i)) -> preserves f (for_each l body).
Proof.
  intros Hb. induction l as [|i rest IH]; cbn [for_each].
  - apply preserves_ret.
  - apply preserves_bind; [apply Hb | intros _; exact IH].
Qed.

Lemma preserves_reg_getitem i : preserves f (reg_getitem i).
Proof. intros s. unfold reg_getitem. now destruct i. Qed.

Lemma preserves_reg_setitem i v : preserves f (reg_setitem i v).
Proof.
  intros s. unfold reg_setitem. destruct i as [i|]; [|reflexivity].
  destruct (setitem (_reg s) i v); [reflexivity | apply f_reg].
Qed.

Lemma preserves_print text : preserves f (print text).
Proof. intros s. apply f_stdout. Qed.

Lemma preserves_HLT : preserves f HLT.
Proof. intros s. apply f_running. Qed.

Lemma preserves_MAR_fset v : preserves f (MAR_fset v).
Proof. intros s. apply f_MAR. Qed.

Lemma preserves_MDR_fset v : preserves f (MDR_fset v).
Proof. intros s. apply f_MDR. Qed.

Lemma preserves_FL_fset v : preserves f (FL_fset v).
Proof. intros s. apply f_FL. Qed.

Lemma preserves_old_IM v : preserves f (modify (set_old_IM v)).
Proof. intros s. apply f_old_IM. Qed.

Lemma preserves_dunder v : preserves f (modify (set_dunder_running v)).
Proof. intros s. apply f_dunder. Qed.

Lemma preserves_set_IR v : preserves f (modify (set_instruction_register v)).
Proof. intros s. apply f_IR. Qed.

Lemma preserves_set_PC v : preserves f (modify (set_program_counter v)).
Proof. intros s. apply f_PC. Qed.

Lemma preserves_escape : preserves f (modify (set_running false)).
Proof. intros s. apply f_running. Qed.

Lemma preserves_OP_A_fset o : preserves f (OP_A_fset o).
Proof.
  intros s. unfold OP_A_fset. destruct o as [v|]; [|apply f_OP_A].
  destruct (_ && _); [apply f_OP_A | reflexivity].
Qed.

Lemma preserves_OP_B_fset o : preserves f (OP_B_fset o).
Proof.
  intros s. unfold OP_B_fset, bind, IR_fget, gets.
  destruct o as [v|]; [|apply f_OP_B].
  destruct (_ <? _); [apply f_OP_B | reflexivity].
Qed.

Lemma preserves_ram_store :
  preserves f (MDR <- MDR_fget ;; MAR <- MAR_fget ;;
               fun s => match setitem (_ram s) MAR MDR with
                        | inr m => (set_ram m s, inr tt)
                        | inl e => (s, inl e)
                        end).
Proof.
  intros s. unfold bind, MDR_fget, MAR_fget, gets.
  destruct (setitem _ _ _); [reflexivity | apply f_ram].
Qed.

Create HintDb frame.

#[local] Hint Resolve preserves_ret preserves_raise preserves_gets
  preserves_read preserves_assert preserves_reg_getitem
  preserves_reg_setitem preserves_print preserves_MAR_fset
  preserves_MDR_fset preserves_FL_fset preserves_old_IM preserves_dunder
  preserves_set_IR preserves_set_PC preserves_OP_A_fset preserves_OP_B_fset
  preserves_ram_store preserves_HLT preserves_escape : frame.

Ltac frame :=
  repeat first
    [ solve [auto with frame]
    | apply preserves_bind; [|intros ?]
    | apply preserves_for_each; intros ?
    | apply preserves_try; [|intros ?]
    | match goal with
      | |- preserves _ (if ?c then _ else _) => destruct c
      | |- preserves _ (match ?o with _ => _ end) => destruct o
      end ].

Lemma preserves_ram_read a : preserves f (ram_read a).
Proof. unfold ram_read, MAR_fget, MDR_fget. frame. Qed.

Lemma preserves_ram_write a v : preserves f (ram_write a v).
Proof.
  unfold ram_write. apply preserves_bind; [auto with frame | intros _].
  apply preserves_bind; [auto with frame | intros _].
  apply preserves_ram_store.
Qed.

Lemma preserves_SP_fset v : preserves f (SP_fset v).
Proof. unfold SP_fset, PC_fget, IR_fget. frame. Qed.

Lemma preserves_PC_fset v : preserves f (PC_fset v).
Proof. unfold PC_fset, SP_fget. frame. Qed.

#[local] Hint Resolve preserves_ram_read preserves_ram_write
  preserves_SP_fset preserves_PC_fset : frame.

Lemma preserves_SP_isub n : preserves f (SP_isub n).
Proof. unfold SP_isub, SP_fget. frame. Qed.

Lemma preserves_SP_iadd n : preserves f (SP_iadd n).
Proof. unfold SP_iadd, SP_fget. frame. Qed.

Lemma preserves_PC_iadd n : preserves f (PC_iadd n).
Proof. unfold PC_iadd, PC_fget. frame. Qed.

Lemma preserves_IS_set_bit n : preserves f (IS_set_bit n).
Proof. unfold IS_set_bit, IS_ior, IS_fget, IS_fset. frame. Qed.

Lemma preserves_jump_to_reg : preserves f jump_to_reg.
Proof. unfold jump_to_reg, OP_A_fget. frame. Qed.

#[local] Hint Resolve preserves_SP_isub preserves_SP_iadd preserves_PC_iadd
  preserves_IS_set_bit preserves_jump_to_reg : frame.

Lemma preserves_CALL : preserves f CALL.
Proof. unfold CALL, SP_fget, PC_fget, OP_A_fget. frame. Qed.

Lemma preserves_INT : preserves f INT.
Proof. unfold INT, OP_A_fget. frame. Qed.

Lemma preserves_IRET : preserves f IRET.
Proof.
  unfold IRET, SP_fget. frame.
  intros s. unfold IM_restore, IM_fset.
  destruct (_old_IM s); [apply preserves_reg_setitem | reflexivity].
Qed.

Lemma preserves_JEQ : preserves f JEQ.
Proof. unfold JEQ, FL_fget. frame. Qed.

Lemma preserves_JGE : preserves f JGE.
Proof. unfold JGE, FL_fget. frame. Qed.

Lemma preserves_JGT : preserves f JGT.
Proof. unfold JGT, FL_fget. frame. Qed.

Lemma preserves_JLE : preserves f JLE.
Proof. unfold JLE, FL_fget. frame. Qed.

Lemma preserves_JLT : preserves f JLT.
Proof. unfold JLT, FL_fget. frame. Qed.

Lemma preserves_JMP : preserves f JMP.
Proof. apply preserves_jump_to_reg. Qed.

Lemma preserves_JNE : preserves f JNE.
Proof. unfold JNE, FL_fget. frame. Qed.

Lemma preserves_assert_register_b : preserves f assert_register_b.
Proof. unfold assert_register_b, OP_B_fget. frame. Qed.

#[local] Hint Resolve preserves_assert_register_b : frame.

Lemma preserves_LD : preserves f LD.
Proof. unfold LD, OP_A_fget. frame. Qed.

Lemma preserves_LDI : preserves f LDI.
Proof. unfold LDI, OP_A_fget, OP_B_fget. frame. Qed.

Lemma preserves_NOP : preserves f NOP.
Proof. apply preserves_ret. Qed.

Lemma preserves_POP : preserves f POP.
Proof. unfold POP, SP_fget, OP_A_fget. frame. Qed.

Lemma preserves_PRA : preserves f PRA.
Proof. unfold PRA, OP_A_fget. frame. Qed.

Lemma preserves_PRN : preserves f PRN.
Proof. unfold PRN, OP_A_fget. frame. Qed.

Lemma preserves_PUSH : preserves f PUSH.
Proof. unfold PUSH, SP_fget, OP_A_fget. frame. Qed.

Lemma preserves_RET : preserves f RET.
Proof. unfold RET, SP_fget. frame. Qed.

Lemma preserves_ST : preserves f ST.
Proof. unfold ST, OP_A_fget. frame. Qed.

Lemma preserves_ADDI : preserves f ADDI.
Proof. unfold ADDI, OP_A_fget, OP_B_fget. frame. Qed.

Lemma preserves_alu op a b : preserves f (alu op a b).
Proof.
  unfold alu, alu_try, PC_fget, lift. frame.
Qed.

Lemma preserves_IR_fset v : preserves f (IR_fset v).
Proof. unfold IR_fset, PC_fget, SP_fget. frame. Qed.

Lemma preserves_advance : preserves f advance.
Proof. unfold advance, IR_fget. frame. Qed.

Lemma preserves_interrupt n : preserves f (interrupt n).
Proof. unfold interrupt. frame. Qed.

Lemma preserves_dispatch n : preserves f (dispatch n).
Proof.
  unfold dispatch, IM_fget, IM_fset, IS_fget, IS_fset, SP_fget, PC_fget,
    FL_fget. frame.
Qed.

Lemma preserves_check_interrupts : preserves f check_interrupts.
Proof.
  unfold check_interrupts, IM_fget, IS_fget.
  apply preserves_bind; [auto with frame | intros IM].
  apply preserves_bind; [auto with frame | intros IS].
  induction (map Z.of_nat (seq 0 8)) as [|n rest IH]; cbn [first_interrupt].
  - apply preserves_ret.
  - destruct (negb _); [apply preserves_dispatch | exact IH].
Qed.
(** The setter of IR, when it returns, has stored the masked opcode and
    then written operands, MAR and MDR only. *)
Lemma IR_fset_sets v s s' :
  IR_fset v s = (s', inr tt) ->
  f s' = f (set_instruction_register (mask v) s).
Proof.
  intros H. unfold IR_fset in H. rewrite bind_eq in H.
  destruct (is_opcode (mask v)); [|rewrite bind_eq in H; discriminate H].
  cbn [ret] in H. rewrite bind_eq in H. cbn [modify] in H.
  match type of H with
  | ?rest ?t = _ =>
      assert (Hp : preserves f rest) by (unfold PC_fget, SP_fget; frame);
      specialize (Hp t); rewrite H in Hp; exact Hp
  end.
Qed.
End Frame.

Ltac handler_frame :=
  first [ apply preserves_CALL | apply preserves_HLT | apply preserves_INT
        | apply preserves_IRET | apply preserves_JEQ | apply preserves_JGE
        | apply preserves_JGT | apply preserves_JLE | apply preserves_JLT
        | apply preserves_JMP | apply preserves_JNE | apply preserves_LD
        | apply preserves_LDI | apply preserves_NOP | apply preserves_POP
        | apply preserves_PRA | apply preserves_PRN | apply preserves_PUSH
        | apply preserves_RET | apply preserves_ST | apply preserves_ADDI ];
  intros; reflexivity.

Ltac each_handler H :=
  unfold OPCODES in H;
  match type of H with
  | match ?code with _ => _ end = _ =>
      destruct code as [|p|p]; try discriminate H;
      [ | do 8 (try (destruct p as [p|p|]; try discriminate H)) ];
      injection H as <-
  end.

(** No handler writes IR; only HLT writes the running flag; only the
    handlers of opcodes with bit 4 write PC. *)
Lemma OPCODES_keep_IR code handler :
  OPCODES code = Some handler -> preserves _instruction_register handler.
Proof. intros H. each_handler H; handler_frame. Qed.

Lemma OPCODES_keep_running code handler :
  OPCODES code = Some handler -> code <> 1 -> preserves _running handler.
Proof.
  intros H Hne. each_handler H; first [now elim Hne | handler_frame].
Qed.

Lemma OPCODES_keep_PC code handler :
  OPCODES code = Some handler -> Z.land code 16 = 0 ->
  preserves _program_counter handler.
Proof.
  intros H Hbit. each_handler H;
    first [discriminate Hbit | handler_frame].
Qed.

Lemma execute_keeps {B} (f : CPU -> B) s :
  (forall op a b, preserves f (alu op a b)) ->
  (forall handler, OPCODES (_instruction_register s) = Some handler ->
     preserves f handler) ->
  f (fst (execute s)) = f s.
Proof.
  intros Halu Hh. unfold execute, bind, IR_fget, OP_A_fget, OP_B_fget, gets.
  destruct (negb _).
  - destruct (ALU _); [apply Halu | reflexivity].
  - destruct (OPCODES _) as [handler|]; [now apply Hh | reflexivity].
Qed.

Lemma execute_keeps_IR : preserves _instruction_register execute.
Proof.
  intros s. apply execute_keeps.
  - intros op a b. apply preserves_alu; intros; reflexivity.
  - intros handler. apply OPCODES_keep_IR.
Qed.

Lemma execute_keeps_running s :
  _instruction_register s <> 1 -> _running (fst (execute s)) = _running s.
Proof.
  intros Hne. apply execute_keeps.
  - intros op a b. apply preserves_alu; intros; reflexivity.
  - intros handler Hh. exact (OPCODES_keep_running _ _ Hh Hne).
Qed.

Lemma execute_keeps_PC s :
  Z.land (_instruction_register s) 16 = 0 ->
  _program_counter (fst (execute s)) = _program_counter s.
Proof.
  intros Hbit. apply execute_keeps.
  - intros op a b. apply preserves_alu; intros; reflexivity.
  - intros handler Hh. exact (OPCODES_keep_PC _ _ Hh Hbit).
Qed.

(** The running flag after the instruction part of a cycle is the one
    before, unless the instruction was HLT. *)
Lemma fetch_execute_running s :
  _instruction_register (fst (fetch_execute s)) <> 1 ->
  _running (fst (fetch_execute s)) = _running s.
Proof.
  unfold fetch_execute. rewrite bind_eq.
  pose proof (preserves_check_interrupts _running
                ltac:(reflexivity) ltac:(reflexivity) ltac:(reflexivity)
                ltac:(reflexivity) ltac:(reflexivity) ltac:(reflexivity) s)
    as H0.
  destruct (check_interrupts s) as [s0 [e|[]]]; cbn [fst] in *;
    [intros _; exact H0|].
  rewrite <- H0. clear H0 s.
  rewrite bind_eq. cbn [PC_fget gets]. rewrite bind_eq.
  pose proof (preserves_ram_read _running
                ltac:(reflexivity) ltac:(reflexivity)
                (_program_counter s0) s0) as H1.
  destruct (ram_read (_program_counter s0) s0) as [s1 [e|opcode]];
    cbn [fst] in *; [intros _; exact H1|].
  rewrite <- H1. clear H1 s0.
  rewrite bind_eq.
  pose proof (preserves_IR_fset _running
                ltac:(reflexivity) ltac:(reflexivity) ltac:(reflexivity)
                ltac:(reflexivity) ltac:(reflexivity) opcode s1) as H2.
  destruct (IR_fset opcode s1) as [s2 [e|[]]]; cbn [fst] in *;
    [intros _; exact H2|].
  rewrite <- H2. clear H2 s1.
  rewrite bind_eq.
  pose proof (execute_keeps_IR s2) as HIR.
  pose proof (execute_keeps_running s2) as Hrun.
  destruct (execute s2) as [s3 [e|[]]]; cbn [fst] in *.
  - intros Hne. apply Hrun. now rewrite <- HIR.
  - rewrite (preserves_advance _running ltac:(reflexivity) s3).
    rewrite (preserves_advance _instruction_register ltac:(reflexivity) s3).
    intros Hne. apply Hrun. now rewrite <- HIR.
Qed.

Lemma cycle_running d s :
  _running (fst (cycle d s)) <> _running s ->
  keypress d = Some 27 \/ _instruction_register (fst (cycle d s)) = 1.
Proof.
  unfold cycle. rewrite bind_eq.
  assert (H0 : _running
                 (fst ((if timer_elapsed d then interrupt TIMER_INTERRUPT
                        else ret tt) s)) = _running s).
  { destruct (timer_elapsed d); [|reflexivity].
    apply (preserves_interrupt _running). reflexivity. }
  destruct ((if timer_elapsed d then interrupt TIMER_INTERRUPT else ret tt) s)
    as [s0 [e|[]]]; cbn [fst] in *; [intros Hne; now elim Hne|].
  rewrite <- H0. clear H0 s.
  assert (Hfe : forall s1, _running s1 = _running s0 ->
            _running (fst (fetch_execute s1)) <> _running s0 ->
            keypress d = Some 27 \/
            _instruction_register (fst (fetch_execute s1)) = 1).
  { intros s1 Hs1 Hne.
    destruct (Z.eq_dec (_instruction_register (fst (fetch_execute s1))) 1)
      as [E|E]; [right; exact E|].
    elim Hne. rewrite (fetch_execute_running s1 E). exact Hs1. }
  destruct (keypress d) as [c|]; [|apply Hfe; reflexivity].
  destruct (Z.eqb_spec c 27) as [->|Hc].
  - intros _. left; reflexivity.
  - rewrite bind_eq.
    pose proof (preserves_ram_write _running
                  ltac:(reflexivity) ltac:(reflexivity) ltac:(reflexivity)
                  KEY_BUFFER c s0) as H1.
    destruct (ram_write KEY_BUFFER c s0) as [s1 [e|[]]]; cbn [fst] in *;
      [intros Hne; now elim Hne|].
    rewrite bind_eq.
    pose proof (preserves_interrupt _running ltac:(reflexivity)
                  KEYBOARD_INTERRUPT s1) as H2.
    destruct (interrupt KEYBOARD_INTERRUPT s1) as [s2 [e|[]]];
      cbn [fst] in *; [intros Hne; elim Hne; congruence|].
    apply Hfe. congruence.
Qed.

Lemma while_running_exit fuel devices s s' :
  _running s = true ->
  while_running fuel devices s = Exited s' ->
  _running s' = false /\
  (_instruction_register s' = 1 \/
   exists d, In d devices /\ keypress d = Some 27).
Proof.
  revert devices s. induction fuel as [|fuel IH]; intros devices s Hs;
    cbn [while_running]; rewrite Hs; [discriminate|].
  pose proof (cycle_running (hd quiet devices) s) as Hc.
  destruct (cycle (hd quiet devices) s) as [s1 [e|[]]]; [discriminate|].
  cbn [fst] in Hc. intros Hw.
  destruct (_running s1) eqn:R1.
  - destruct (IH (tl devices) s1 R1 Hw) as [Hoff [Hir|(d & Hd & Hk)]].
    + auto.
    + split; [exact Hoff|]. right. exists d. split; [|exact Hk].
      destruct devices; [contradiction | now right].
  - assert (s' = s1) as ->.
    { destruct fuel; cbn [while_running] in Hw; rewrite R1 in Hw;
        congruence. }
    split; [exact R1|].
    destruct Hc as [Hk|Hir]; [congruence | | auto].
    right. destruct devices as [|d rest]; [discriminate Hk|].
    exists d. split; [now left | exact Hk].
Qed.

(** X9. How the loop ends.  When [run] returns because the loop
    condition became false, the last cycle either executed HLT (IR holds
    its opcode) or was given the ESC key by the keyboard; nothing else
    clears [_running], in particular not the flag [alu] sets on a zero
    divisor.  This holds for every object and every program. *)
Theorem run_exits_on_HLT_or_ESC
  (fuel : nat) (devices : list device) (s s' : CPU)
  (Hrun : run fuel devices s = Exited s') :
  _running s' = false /\
  (_instruction_register s' = 1 \/
   exists d, In d devices /\ keypress d = Some 27).
Proof.
  apply (while_running_exit fuel devices (set_running true s));
    [reflexivity | exact Hrun].
Qed.

Lemma run_exits_on_HLT_or_ESC_witness :
  let s' := final_state (run 5 [] (fst (load add_program blank))) in
  _running s' = false /\
  (_instruction_register s' = 1 \/
   exists d, In d [] /\ keypress d = Some 27).
Proof.
  apply (run_exits_on_HLT_or_ESC 5 [] (fst (load add_program blank))).
  vm_compute. reflexivity.
Defined.

Lemma PC_fset_returns v s s' :
  PC_fset v s = (s', inr tt) -> s' = set_program_counter (mask v) s.
Proof.
  pose proof (mask_bounds v) as Hb.
  destruct (getitem (_reg s) SP_REG) as [e|sp] eqn:Hg.
  - unfold PC_fset, bind, SP_fget, reg_getitem.
    destruct (Z.leb_spec 0 (mask v)); [|lia]. rewrite Hg. discriminate.
  - destruct (PC_fset_cases s v sp Hg) as [[_ ->]|[_ [msg ->]]];
      [intros [= <-]; reflexivity | discriminate].
Qed.

(** X10. Where PC goes.  In a cycle without device events and without a
    pending enabled interrupt that completes, the instruction executed
    is the byte at PC, and if its opcode has bit 4 clear PC ends at the
    byte after its operands, [PC + 1 + (IR >> 6)] reduced to the word: no
    such instruction can jump.  (With bit 4 set the handler alone
    decides PC.) *)
Theorem cycle_advances_PC (s s' : CPU) (enabled pending : Z)
  (Hram : length (_ram s) = Z.to_nat MAX_MEM)
  (Hmask : getitem (_reg s) IM_REG = inr enabled)
  (Hpending : getitem (_reg s) IS_REG = inr pending)
  (Hnone : forall n, 0 <= n < 8 ->
             Z.testbit (Z.land enabled pending) n = false)
  (Hcycle : cycle quiet s = (s', inr tt))
  (Hbit : Z.land (_instruction_register s') 16 = 0) :
  _instruction_register s' = mask (memory s (mask (_program_counter s))) /\
  _program_counter s' =
    mask (_program_counter s + 1 + Z.shiftr (_instruction_register s') 6).
Proof.
  unfold cycle, quiet in Hcycle. cbn [timer_elapsed keypress] in Hcycle.
  rewrite bind_eq in Hcycle. cbn [ret] in Hcycle.
  unfold fetch_execute in Hcycle.
  rewrite bind_eq, (check_interrupts_none s enabled pending) in Hcycle
    by assumption.
  rewrite bind_eq in Hcycle. cbn [PC_fget gets] in Hcycle.
  rewrite bind_eq, (ram_read_any s _ Hram) in Hcycle.
  set (s1 := set_memory_data_register _ _) in Hcycle.
  set (opcode := mask (memory s (mask (_program_counter s)))) in *.
  rewrite bind_eq in Hcycle.
  destruct (IR_fset opcode s1) as [s2 [e|[]]] eqn:E2; [discriminate Hcycle|].
  pose proof (IR_fset_sets _instruction_register
                ltac:(reflexivity) ltac:(reflexivity) ltac:(reflexivity)
                ltac:(reflexivity) opcode s1 s2 E2) as HIR2.
  pose proof (preserves_IR_fset _program_counter
                ltac:(reflexivity) ltac:(reflexivity) ltac:(reflexivity)
                ltac:(reflexivity) ltac:(reflexivity) opcode s1) as HPC2.
  rewrite E2 in HPC2. cbn [fst] in HIR2, HPC2.
  cbn [_instruction_register set_instruction_register] in HIR2.
  unfold opcode in HIR2 at 1. rewrite mask_mask in HIR2. fold opcode in HIR2.
  rewrite bind_eq in Hcycle.
  pose proof (execute_keeps_IR s2) as HIR3.
  pose proof (execute_keeps_PC s2) as HPC3.
  destruct (execute s2) as [s3 [e|[]]]; [discriminate Hcycle|].
  cbn [fst] in HIR3, HPC3.
  pose proof (preserves_advance _instruction_register ltac:(reflexivity) s3)
    as HIR4.
  rewrite Hcycle in HIR4. cbn [fst] in HIR4.
  assert (HIR : _instruction_register s' = opcode) by congruence.
  split; [exact HIR|].
  assert (E : Z.land (_instruction_register s3) 16 = 0) by congruence.
  assert (HPC : _program_counter s3 = _program_counter s).
  { rewrite HPC3 by congruence. rewrite HPC2. reflexivity. }
  unfold advance in Hcycle. rewrite bind_eq in Hcycle.
  cbn [IR_fget gets] in Hcycle.
  rewrite E in Hcycle. cbn [Z.eqb] in Hcycle.
  unfold PC_iadd in Hcycle. rewrite bind_eq in Hcycle.
  cbn [PC_fget gets] in Hcycle.
  apply PC_fset_returns in Hcycle. subst s'.
  cbn [_program_counter _instruction_register set_program_counter].
  rewrite HPC. f_equal. lia.
Qed.

Lemma cycle_advances_PC_witness :
  let s := fst (load add_program blank) in
  let s' := fst (cycle quiet s) in
  _instruction_register s' = mask (memory s (mask (_program_counter s))) /\
  _program_counter s' =
    mask (_program_counter s + 1 + Z.shiftr (_instruction_register s') 6).
Proof.
  apply (cycle_advances_PC (fst (load add_program blank))
           (fst (cycle quiet (fst (load add_program blank)))) 0 0);
    try (vm_compute; reflexivity).
  intros n Hn. apply Z.testbit_0_l.
Defined.
(** ** Instructions in sequence *)

(** X11. The conditional jumps read the flags as CMP writes them.  After
    CMP of two registers holding [x] and [y], JEQ jumps exactly when
    [x = y], JNE when [x <> y], JGT when [x > y], JLT when [x < y], JGE
    when [x >= y] and JLE when [x <= y]; a jump not taken adds 2 to PC. *)
Theorem jumps_follow_CMP (s : CPU) (a b x y : Z)
  (Ha : getitem (_reg s) a = inr x) (Hb : getitem (_reg s) b = inr y) :
  let s1 := fst (alu "CMP" (Some a) (Some b) s) in
  JEQ s1 = (if x =? y then jump_to_reg s1 else PC_iadd 2 s1) /\
  JNE s1 = (if x =? y then PC_iadd 2 s1 else jump_to_reg s1) /\
  JGT s1 = (if x >? y then jump_to_reg s1 else PC_iadd 2 s1) /\
  JLT s1 = (if x <? y then jump_to_reg s1 else PC_iadd 2 s1) /\
  JGE s1 = (if x >=? y then jump_to_reg s1 else PC_iadd 2 s1) /\
  JLE s1 = (if x <=? y then jump_to_reg s1 else PC_iadd 2 s1).
Proof.
  assert (E : alu "CMP" (Some a) (Some b) s =
              (set_flags (if x =? y then 1 else if x >? y then 2 else 4) s,
               inr tt)).
  { unfold alu, try_except, alu_try, bind, reg_getitem, ret, lift.
    rewrite Ha, Hb. cbn.
    destruct (x =? y); [reflexivity|]. destruct (x >? y); reflexivity. }
  intros s1. subst s1. rewrite E. cbn [fst]. clear E.
  destruct (Z.eqb_spec x y) as [He|Hne];
    destruct (Z.gtb_spec x y); destruct (Z.ltb_spec x y);
    destruct (Z.geb_spec x y); destruct (Z.leb_spec x y); try lia;
    repeat split; reflexivity.
Qed.

Lemma jumps_follow_CMP_witness :
  let s1 := fst (alu "CMP" (Some 0) (Some 7) new_CPU) in
  JEQ s1 = (if 0 =? 244 then jump_to_reg s1 else PC_iadd 2 s1) /\
  JNE s1 = (if 0 =? 244 then PC_iadd 2 s1 else jump_to_reg s1) /\
  JGT s1 = (if 0 >? 244 then jump_to_reg s1 else PC_iadd 2 s1) /\
  JLT s1 = (if 0 <? 244 then jump_to_reg s1 else PC_iadd 2 s1) /\
  JGE s1 = (if 0 >=? 244 then jump_to_reg s1 else PC_iadd 2 s1) /\
  JLE s1 = (if 0 <=? 244 then jump_to_reg s1 else PC_iadd 2 s1).
Proof.
  apply (jumps_follow_CMP new_CPU 0 7 0 244); reflexivity.
Defined.

Lemma cycle_quiet_fetch s enabled pending opcode r :
  length (_ram s) = Z.to_nat MAX_MEM ->
  getitem (_reg s) IM_REG = inr enabled ->
  getitem (_reg s) IS_REG = inr pending ->
  (forall n, 0 <= n < 8 -> Z.testbit (Z.land enabled pending) n = false) ->
  0 <= _program_counter s < MAX_MEM ->
  memory s (_program_counter s) = opcode -> 0 <= opcode < MAX_MEM ->
  (IR_fset opcode ;; execute ;; advance)
    (set_memory_data_register opcode
       (set_memory_address_register (_program_counter s) s)) = r ->
  cycle quiet s = r.
Proof.
  intros Hram Hmask Hpending Hnone Hpc Hop Hb Hr.
  unfold cycle, quiet. cbn [timer_elapsed keypress].
  rewrite bind_eq. cbn [ret]. unfold fetch_execute.
  eapply bind_step; [apply (check_interrupts_none s enabled pending);
                     assumption|].
  eapply bind_step; [reflexivity|].
  eapply bind_step; [apply ram_read_any; exact Hram|].
  rewrite (mask_small (_program_counter s)) by exact Hpc.
  rewrite Hop, (mask_small opcode) by exact Hb. exact Hr.
Qed.

Lemma execute_handler s handler :
  Z.land (_instruction_register s) ALU_MASK = 0 ->
  OPCODES (_instruction_register s) = Some handler ->
  execute s = handler s.
Proof.
  intros Hb Hh. unfold execute, bind, IR_fget, gets. now rewrite Hb, Hh.
Qed.

Lemma advance_skip s :
  Z.land (_instruction_register s) 16 <> 0 -> advance s = (s, inr tt).
Proof.
  intros H. unfold advance, bind, IR_fget, gets.
  now destruct (Z.eqb_spec (Z.land (_instruction_register s) 16) 0).
Qed.

(** X12. A call returns.  With no device event and no pending enabled
    interrupt, a cycle at [CALL Ra] followed by a cycle at a RET found
    at the address in [Ra] leaves PC at the byte after the CALL and its
    operand, and the registers (the stack pointer among them) and the
    flags as they were; memory differs only in the byte below the old
    stack pointer, which keeps the return address.  This needs the CALL
    to end more than two bytes below the stack pointer: the return
    address itself must pass the check of the PC setter at RET. *)
Theorem CALL_RET_returns (s : CPU) (a sp pc t enabled pending : Z)
  (Hlen : length (_reg s) = Z.to_nat REGISTERS)
  (Hram : length (_ram s) = Z.to_nat MAX_MEM)
  (Hmask : getitem (_reg s) IM_REG = inr enabled)
  (Hpending : getitem (_reg s) IS_REG = inr pending)
  (Hnone : forall n, 0 <= n < 8 ->
             Z.testbit (Z.land enabled pending) n = false)
  (Hsp : getitem (_reg s) SP_REG = inr sp)
  (Hpc : _program_counter s = pc)
  (Hcall : memory s pc = 80)
  (Hop : memory s (pc + 1) = a)
  (Ha : 0 <= a < SP_REG)
  (Ht : getitem (_reg s) a = inr t)
  (Hret : memory s t = 17)
  (Hroom : 0 <= pc /\ pc + 2 < sp - 1 /\ sp <= STACK_BASE)
  (Htarget : 0 <= t < sp - 1 \/ t = NULL_INTERRUPT) :
  exists s1 s2,
    cycle quiet s = (s1, inr tt) /\
    _program_counter s1 = t /\
    getitem (_reg s1) SP_REG = inr (sp - 1) /\
    memory s1 (sp - 1) = pc + 2 /\
    cycle quiet s1 = (s2, inr tt) /\
    _program_counter s2 = pc + 2 /\
    _reg s2 = _reg s /\
    _ram s2 = <[Z.to_nat (sp - 1) := pc + 2]> (_ram s) /\
    _flags s2 = _flags s.
Proof.
  assert (Hsp7 : _reg s !! 7%nat = Some sp).
  { apply (lookup_getitem _ SP_REG); [exact Hsp | vm_compute; discriminate]. }
  assert (Hta : _reg s !! Z.to_nat a = Some t).
  { apply lookup_getitem; [exact Ht | lia]. }
  assert (H5 : _reg s !! 5%nat = Some enabled).
  { apply (lookup_getitem _ IM_REG); [exact Hmask | vm_compute; discriminate]. }
  assert (H6 : _reg s !! 6%nat = Some pending).
  { apply (lookup_getitem _ IS_REG); [exact Hpending|vm_compute; discriminate]. }
  assert (Hlen8 : length (_reg s) = 8%nat) by exact Hlen.
  assert (Hlen256 : length (_ram s) = 256%nat) by exact Hram.
  destruct Hroom as (Hpc0 & Hroom & Htop).
  consts.
  assert (Bt : 0 <= t < 256) by lia.
  subst pc.
  eassert (H1 : cycle quiet s = (_, inr tt)).
  { apply (cycle_quiet_fetch s enabled pending 80);
      try solve [assumption | arith].
    eapply bind_step.
    { apply (IR_fset_one _ 80 sp a); proj;
        try solve [assumption | arith | reflexivity].
      - vm_compute. congruence.
      - unfold memory. proj. rewrite mask_small by lia. exact Hop. }
    proj. rewrite (mask_small (_program_counter s + 1)) by lia.
    change (mask 80) with 80.
    eapply bind_step.
    { rewrite execute_handler with (handler := CALL); [|reflexivity..].
      unfold CALL.
      eapply bind_step.
      { apply (SP_isub_ok _ sp); proj;
          try solve [assumption | arith].
        left. change (Z.shiftr 80 6) with 1. lia. }
      eapply bind_step.
      { apply SP_fget_ok. proj. apply list_lookup_insert_eq. lia. }
      eapply bind_step; [reflexivity|].
      eapply bind_step; [apply ram_write_ok; proj; exact Hram|].
      eapply bind_step; [reflexivity|]. proj.
      eapply bind_step.
      { apply (reg_getitem_ok _ a t); [lia|]. proj.
        rewrite list_lookup_insert_ne by lia. exact Hta. }
      apply (PC_fset_ok _ t (sp - 1)).
      - proj. apply list_lookup_insert_eq. lia.
      - rewrite (mask_small t) by lia. arith. }
    apply advance_skip. proj. vm_compute. congruence. }
  rewrite !(mask_small t) in H1 by lia.
  rewrite (mask_small (sp - 1)) in H1 by lia.
  rewrite (mask_small (_program_counter s + 2)) in H1 by lia.
  match type of H1 with _ = (?st, _) => set (s1 := st) in * end.
  assert (Hm1 : forall address, 0 <= address < 256 ->
            memory s1 address =
            if sp - 1 =? address then _program_counter s + 2
            else memory s address).
  { intros address Hadd. unfold memory, s1. proj.
    destruct (Z.eqb_spec (sp - 1) address) as [<-|Hne].
    - rewrite list_lookup_insert_eq by lia. reflexivity.
    - rewrite list_lookup_insert_ne by lia. reflexivity. }
  eassert (H2 : cycle quiet s1 = (_, inr tt)).
  { apply (cycle_quiet_fetch s1 enabled pending 17);
      try solve [assumption | arith].
    - unfold s1. proj. now rewrite length_insert.
    - apply getitem_ok; [vm_compute; discriminate|]. unfold s1. proj.
      rewrite list_lookup_insert_ne by (vm_compute; lia). exact H5.
    - apply getitem_ok; [vm_compute; discriminate|]. unfold s1. proj.
      rewrite list_lookup_insert_ne by (vm_compute; lia). exact H6.
    - rewrite Hm1 by (unfold s1; proj; lia). unfold s1 at 1 2. proj.
      destruct (Z.eqb_spec (sp - 1) t); [lia | exact Hret].
    - eapply bind_step; [apply IR_fset_zero; reflexivity|].
      change (mask 17) with 17.
      eapply bind_step.
      { rewrite execute_handler with (handler := RET); [|reflexivity..].
        unfold RET.
        eapply bind_step.
        { apply SP_fget_ok. unfold s1. proj.
          apply list_lookup_insert_eq. lia. }
        eapply bind_step.
        { apply ram_read_ok. unfold s1. proj.
          rewrite (mask_small (sp - 1)) by lia.
          apply list_lookup_insert_eq. lia. }
        rewrite (mask_small (_program_counter s + 2)) by lia.
        eapply bind_step.
        { apply (PC_fset_ok _ _ (sp - 1)).
          - unfold s1. proj. apply list_lookup_insert_eq. lia.
          - rewrite mask_small by lia. arith. }
        apply (SP_iadd_ok _ (sp - 1)); unfold s1; proj.
        - now rewrite length_insert.
        - apply list_lookup_insert_eq. lia.
        - arith.
        - left. rewrite (mask_small (_program_counter s + 2)) by lia.
          change (Z.shiftr 17 6) with 0. lia. }
      apply advance_skip. proj. vm_compute. congruence. }
  do 2 eexists.
  split; [exact H1|].
  split; [reflexivity|].
  split.
  { apply getitem_ok; [vm_compute; discriminate|]. unfold s1. proj.
    apply list_lookup_insert_eq. lia. }
  split.
  { rewrite Hm1 by lia. now rewrite Z.eqb_refl. }
  split; [exact H2|].
  unfold s1. proj.
  rewrite ?(mask_small (_program_counter s + 2)) by lia.
  replace (sp - 1 + 1) with sp by lia.
  rewrite list_insert_insert_eq, list_insert_id by exact Hsp7.
  repeat split; reflexivity.
Qed.

Lemma CALL_RET_returns_witness :
  let s := set_reg [100; 0; 0; 0; 0; 0; 0; 244]
             (set_ram (<[100%nat := 17]> (<[1%nat := 0]> (<[0%nat := 80]>
                (replicate 256 0)))) new_CPU) in
  exists s1 s2,
    cycle quiet s = (s1, inr tt) /\
    _program_counter s1 = 100 /\
    getitem (_reg s1) SP_REG = inr (244 - 1) /\
    memory s1 (244 - 1) = 0 + 2 /\
    cycle quiet s1 = (s2, inr tt) /\
    _program_counter s2 = 0 + 2 /\
    _reg s2 = _reg s /\
    _ram s2 = <[Z.to_nat (244 - 1) := 0 + 2]> (_ram s) /\
    _flags s2 = _flags s.
Proof.
  apply (CALL_RET_returns _ 0 244 0 100 0 0);
    try (vm_compute; reflexivity).
  - intros n Hn. apply Z.testbit_0_l.
  - vm_compute. split; congruence.
  - vm_compute. repeat split; congruence.
  - left. vm_compute. split; congruence.
Defined.

Lemma assert_register_b_ok s b :
  length (_reg s) = Z.to_nat REGISTERS ->
  _operand_b s = Some b -> 0 <= b < REGISTERS ->
  assert_register_b s = (s, inr b).
Proof.
  intros Hlen Hb Hr.
  unfold assert_register_b, bind, OP_B_fget, gets, assert, ret.
  rewrite Hb, Hlen. change (Z.of_nat (Z.to_nat REGISTERS)) with 8.
  destruct (Z.geb_spec b 0); [|lia].
  destruct (Z.ltb_spec b 8); [reflexivity | arith].
Qed.

(** X15. A store is read back.  ST writes the value of register B at
    the address held in register A, whatever the address (the stack, the
    key buffer and the interrupt vectors are not protected), and changes
    no register; LD with the roles exchanged, the address now named by
    operand B, then loads that value into its register A and leaves
    memory alone. *)
Theorem ST_then_LD (s : CPU) (a b c address v : Z)
  (Hwf : well_formed s)
  (Ha : 0 <= a < REGISTERS) (Hb : 0 <= b < REGISTERS)
  (Hc : 0 <= c < REGISTERS)
  (HA : _operand_a s = Some a) (HB : _operand_b s = Some b)
  (Haddr : getitem (_reg s) a = inr address)
  (Hv : getitem (_reg s) b = inr v) :
  exists s1 s2,
    ST s = (s1, inr tt) /\
    _ram s1 = <[Z.to_nat address := v]> (_ram s) /\
    _reg s1 = _reg s /\
    LD (set_operand_b (Some a) (set_operand_a (Some c) s1)) = (s2, inr tt) /\
    _reg s2 = <[Z.to_nat c := v]> (_reg s) /\
    _ram s2 = _ram s1.
Proof.
  pose proof (wf_reg_length s Hwf) as Hlen.
  pose proof (wf_ram_length s Hwf) as Hram.
  pose proof (getitem_byte _ _ _ (wf_reg_bytes s Hwf) Haddr) as Baddr.
  pose proof (getitem_byte _ _ _ (wf_reg_bytes s Hwf) Hv) as Bv.
  unfold byte in Baddr, Bv.
  eassert (H1 : ST s = (_, inr tt)).
  { unfold ST.
    eapply bind_step; [apply (assert_register_b_ok s b); assumption|].
    eapply bind_step; [reflexivity|]. rewrite HA.
    eapply bind_step; [unfold reg_getitem; rewrite Haddr; reflexivity|].
    eapply bind_step; [unfold reg_getitem; rewrite Hv; reflexivity|].
    apply ram_write_ok. exact Hram. }
  rewrite (mask_small address), (mask_small v) in H1 by exact Baddr || exact Bv.
  match type of H1 with _ = (?st, _) => set (s1 := st) in * end.
  eassert (H2 : LD (set_operand_b (Some a) (set_operand_a (Some c) s1))
                = (_, inr tt)).
  { unfold LD.
    eapply bind_step.
    { apply (assert_register_b_ok _ a); [exact Hlen | reflexivity | exact Ha]. }
    eapply bind_step.
    { unfold reg_getitem. unfold s1. proj. rewrite Haddr. reflexivity. }
    eapply bind_step.
    { apply ram_read_ok. unfold s1. proj.
      rewrite (mask_small address) by exact Baddr.
      apply list_lookup_insert_eq. rewrite Hram. arith. }
    eapply bind_step; [reflexivity|]. proj.
    apply reg_setitem_ok. unfold s1. proj. rewrite Hlen. arith. }
  rewrite (mask_small v) in H2 by exact Bv.
  exists s1. eexists.
  split; [exact H1|].
  split; [reflexivity|].
  split; [reflexivity|].
  split; [exact H2|].
  split; reflexivity.
Qed.

Lemma ST_then_LD_witness :
  let s := set_operand_b (Some 1)
             (set_operand_a (Some 0)
                (set_reg [248; 42; 0; 0; 0; 0; 0; 244] new_CPU)) in
  exists s1 s2,
    ST s = (s1, inr tt) /\
    _ram s1 = <[Z.to_nat 248 := 42]> (_ram s) /\
    _reg s1 = _reg s /\
    LD (set_operand_b (Some 0) (set_operand_a (Some 2) s1)) = (s2, inr tt) /\
    _reg s2 = <[Z.to_nat 2 := 42]> (_reg s) /\
    _ram s2 = _ram s1.
Proof.
  apply (ST_then_LD _ 0 1 2 248 42);
    try (vm_compute; reflexivity); try (vm_compute; split; congruence).
  apply well_formedb_ok. vm_compute. reflexivity.
Defined.
(** ** Loading a program *)

Lemma leading_bits_bounds n line acc v :
  leading_bits n line acc = Some v ->
  acc * 2 ^ Z.of_nat n <= v < (acc + 1) * 2 ^ Z.of_nat n.
Proof.
  revert line acc. induction n as [|n IH]; intros line acc H.
  - cbn in H. injection H as <-. cbn. lia.
  - cbn [leading_bits] in H. destruct line as [|c rest]; [discriminate|].
    rewrite Nat2Z.inj_succ, Z.pow_succ_r by lia.
    destruct (Ascii.eqb c "0").
    + apply IH in H. nia.
    + destruct (Ascii.eqb c "1"); [|discriminate]. apply IH in H. nia.
Qed.

Lemma finditer_bytes program : Forall byte (finditer program).
Proof.
  unfold finditer.
  induction (lines_of program EmptyString) as [|line rest IH];
    cbn [omap list_omap]; [constructor|].
  destruct (leading_bits 8 line 0) as [v|] eqn:E; [|exact IH].
  constructor; [|exact IH].
  apply leading_bits_bounds in E. unfold byte.
  change (2 ^ Z.of_nat 8) with 256 in E. change MAX_MEM with 256. lia.
Qed.

(** Construction does not look at the object it is given: it never
    fails, and what it leaves of the old object is what it does not
    write. *)
Lemma init_eq s :
  __init__ s =
    (mkCPU false (__running__ s) (_reg new_CPU) 0 (_instruction_register s)
       (_memory_address_register new_CPU) (_memory_data_register new_CPU)
       0 (_operand_a s) (_operand_b s) (_ram new_CPU) (_old_IM s)
       (stdout s), inr tt).
Proof. destruct s. vm_compute. reflexivity. Qed.

(** Case analysis on every comparison in the goal, then arithmetic. *)
Ltac by_cases :=
  repeat match goal with
         | |- context [?x =? ?y] => case (Z.eqb_spec x y); intros ?
         | |- context [?x <? ?y] => case (Z.ltb_spec x y); intros ?
         | |- context [?x <=? ?y] => case (Z.leb_spec x y); intros ?
         end;
  cbn [andb]; try lia; try reflexivity.

Lemma load_words_spec words :
  forall address s,
  Forall byte words ->
  length (_ram s) = Z.to_nat MAX_MEM ->
  0 <= address <= STACK_BASE ->
  let r := load_words address words s in
  snd r = (if address + Z.of_nat (length words) <=? STACK_BASE then inr tt
           else inl (AssertionError "program too large to fit in memory")) /\
  _reg (fst r) = _reg s /\
  _program_counter (fst r) = _program_counter s /\
  _flags (fst r) = _flags s /\
  _running (fst r) = _running s /\
  forall i, 0 <= i < MAX_MEM ->
    memory (fst r) i =
      if (address <=? i)
         && (i <? Z.min (address + Z.of_nat (length words)) STACK_BASE)
      then nth (Z.to_nat (i - address)) words 0
      else memory s i.
Proof.
  induction words as [|w rest IH]; intros address s Hb Hram Ha r; subst r.
  - cbn [load_words ret fst snd length]. consts.
    split; [by_cases|].
    repeat split; try reflexivity. intros i Hi. by_cases.
  - apply Forall_cons in Hb. destruct Hb as [Hw Hrest]. unfold byte in Hw.
    cbn [load_words]. rewrite bind_eq. unfold assert. consts.
    assert (Hlen : Z.of_nat (length (w :: rest))
                   = Z.of_nat (length rest) + 1)
      by (cbn [length]; lia).
    rewrite Hlen. clear Hlen.
    destruct (Z.ltb_spec address 244) as [Hlt|Hge].
    + cbn [ret]. rewrite bind_eq, ram_write_ok by exact Hram.
      rewrite (mask_small address), (mask_small w) by lia.
      set (s1 := set_ram _ _).
      assert (Hram1 : length (_ram s1) = Z.to_nat 256).
      { unfold s1. proj. now rewrite length_insert. }
      destruct (IH (address + 1) s1 Hrest Hram1 ltac:(lia))
        as (Hsnd & Hreg & Hpc & Hfl & Hrun & Hmem).
      split; [rewrite Hsnd; by_cases|].
      split; [rewrite Hreg; reflexivity|].
      split; [rewrite Hpc; reflexivity|].
      split; [rewrite Hfl; reflexivity|].
      split; [rewrite Hrun; reflexivity|].
      intros i Hi. rewrite (Hmem i Hi).
      assert (Hs1 : memory s1 i = if address =? i then w else memory s i).
      { unfold s1, memory. proj.
        destruct (Z.eqb_spec address i) as [<-|Hne].
        - rewrite list_lookup_insert_eq; [reflexivity|].
          rewrite Hram. lia.
        - rewrite list_lookup_insert_ne by lia. reflexivity. }
      rewrite Hs1. by_cases.
      * replace (i - address) with 0 by lia. reflexivity.
      * replace (Z.to_nat (i - address))
          with (S (Z.to_nat (i - (address + 1)))) by lia.
        reflexivity.
    + assert (address = 244) as -> by lia.
      cbn [raise fst snd].
      split; [by_cases|].
      repeat split; try reflexivity. intros i Hi. by_cases.
Qed.

(** X13. What [load] leaves.  Whatever the text and whatever object it
    is given, [load] resets the registers, PC, FL and the running flag
    to their values in a new object and stores the words of the text
    (every line that begins with eight binary digits, read in base 2)
    from address 0 on, over the memory of a new object; it fails, with
    the first STACK_BASE words stored, exactly when the text has more
    than STACK_BASE words, so a program never reaches the key buffer or
    the interrupt vectors. *)
Theorem load_stores_program (program : string) (s : CPU) :
  let words := finditer program in
  let s' := fst (load program s) in
  Forall byte words /\
  snd (load program s) =
    (if Z.of_nat (length words) <=? STACK_BASE then inr tt
     else inl (AssertionError "program too large to fit in memory")) /\
  _reg s' = _reg new_CPU /\
  _program_counter s' = 0 /\ _flags s' = 0 /\ _running s' = false /\
  forall i, 0 <= i < MAX_MEM ->
    memory s' i =
      if i <? Z.min (Z.of_nat (length words)) STACK_BASE
      then nth (Z.to_nat i) words 0
      else memory new_CPU i.
Proof.
  pose proof (finditer_bytes program) as Hb.
  cbv zeta. unfold load. rewrite bind_eq, init_eq.
  revert Hb. generalize (finditer program). intros words Hb.
  match goal with
  | |- context [load_words 0 words ?st] => set (s0 := st)
  end.
  assert (Hram0 : length (_ram s0) = Z.to_nat MAX_MEM)
    by (vm_compute; reflexivity).
  assert (H0 : 0 <= 0 <= STACK_BASE) by (vm_compute; split; congruence).
  destruct (load_words_spec words 0 s0 Hb Hram0 H0)
    as (Hsnd & Hreg & Hpc & Hfl & Hrun & Hmem).
  rewrite Z.add_0_l in Hsnd.
  split; [exact Hb|].
  split; [exact Hsnd|].
  split; [exact Hreg|].
  split; [exact Hpc|].
  split; [exact Hfl|].
  split; [exact Hrun|].
  intros i Hi. rewrite (Hmem i Hi). rewrite Z.add_0_l, Z.sub_0_r.
  destruct (Z.leb_spec 0 i); [|unfold byte in *; lia]. cbn [andb].
  unfold memory. subst s0. cbn [_ram]. reflexivity.
Qed.

(** A line that is the eight binary digits of a word is split off as a
    line of its own and read back as that word. *)
Lemma parse_line v rest :
  0 <= v < 256 ->
  lines_of (bin8 v ++ newline ++ rest) EmptyString
    = bin8 v :: lines_of rest EmptyString /\
  leading_bits 8 (bin8 v) 0 = Some v.
Proof.
  intros Hv.
  assert (Hn : exists n, v = Z.of_nat n /\ (n < 256)%nat).
  { exists (Z.to_nat v). lia. }
  destruct Hn as (n & -> & Hn). clear Hv.
  do 256 (destruct n as [|n]; [vm_compute; split; reflexivity|]).
  lia.
Qed.

(** X14. The loader reads back what the formatter writes.  A text with
    one line per word, each the eight binary digits [f'{w:08b}'] of the
    word, is parsed by [finditer] into exactly these words, in order. *)
Theorem finditer_reads_binary_lines (words : list Z)
  (Hb : Forall byte words) :
  finditer (ls8 (map bin8 words)) = words.
Proof.
  unfold finditer. induction words as [|w rest IH]; [reflexivity|].
  apply Forall_cons in Hb. destruct Hb as [Hw Hrest].
  cbn [map ls8].
  destruct (parse_line w (ls8 (map bin8 rest)) Hw) as [-> Hbits].
  cbn [omap list_omap]. rewrite Hbits. f_equal. exact (IH Hrest).
Qed.

Lemma finditer_reads_binary_lines_witness :
  finditer (ls8 (map bin8 [130; 0; 8; 1])) = [130; 0; 8; 1].
Proof.
  apply (finditer_reads_binary_lines [130; 0; 8; 1]).
  repeat constructor; vm_compute; congruence.
Defined.
